(** * bert/trainer.py: the training-loop driver, embedded and verified

    The Python module [bert/trainer.py] holds three metric helpers
    ([percentage], [nsp_accuracy], [token_accuracy]) and the class
    [BertTrainer].  This file embeds them and proves the properties of the
    specification about them.

    Numbers are modelled as Python and torch have them: Python [int] as [Z],
    Python [float] as IEEE-754 binary64 and a torch float tensor element as
    binary32, both through the Standard Library's [SpecFloat] (the executable
    reference semantics of IEEE arithmetic, round to nearest even).  Python
    exceptions are values of [exn], carried by [result]. *)

From Stdlib Require Import ZArith List Bool Lia.
From Stdlib Require Import SpecFloat.
From Stdlib Require Import Ascii.
From stdpp Require Import base option strings pretty gmap.

Import ListNotations.
Local Open Scope Z_scope.

(** ** Exceptions and fallible results *)

Inductive exn : Type :=
| ZeroDivisionError
| OverflowError
| UnboundLocalError
| IndexError
| RuntimeError
| FileNotFoundError.

Inductive result (A : Type) : Type :=
| Ok (a : A)
| Raise (e : exn).
Arguments Ok {A} a.
Arguments Raise {A} e.

#[global] Instance result_ret : MRet result := fun _ a => Ok a.
#[global] Instance result_bind : MBind result := fun _ _ k r =>
  match r with
  | Ok a => k a
  | Raise e => Raise e
  end.

(** ** Python numbers *)

Module Py.

(** binary64, the Python [float]; binary32, the default torch dtype. *)
Definition f64 := spec_float.
Definition f32 := spec_float.

Definition prec64 : Z := 53.
Definition emax64 : Z := 1024.
Definition prec32 : Z := 24.
Definition emax32 : Z := 128.

(** An integer as an exact (not normalised) floating-point operand. *)
Definition int_operand (z : Z) : spec_float :=
  match z with
  | Z0 => S754_zero false
  | Zpos p => S754_finite false p 0
  | Zneg p => S754_finite true p 0
  end.

(** [a // b] on ints: floor division, [ZeroDivisionError] on a zero
    divisor. *)
Definition floordiv (a b : Z) : result Z :=
  if b =? 0 then Raise ZeroDivisionError else Ok (a / b).

(** [a % b] on ints: the remainder has the sign of the divisor. *)
Definition mod_ (a b : Z) : result Z :=
  if b =? 0 then Raise ZeroDivisionError else Ok (a mod b).

(** [a / b] on ints: the correctly rounded quotient; [ZeroDivisionError]
    on a zero divisor, [OverflowError] when the rounded quotient leaves
    the binary64 range. *)
Definition truediv (a b : Z) : result f64 :=
  if b =? 0 then Raise ZeroDivisionError
  else match SFdiv prec64 emax64 (int_operand a) (int_operand b) with
       | S754_infinity _ => Raise OverflowError
       | q => Ok q
       end.

(** [float(z)] for an int [z] (also the implicit conversion of the int
    operand of [float * int]). *)
Definition float_of_int (z : Z) : result f64 :=
  match binary_normalize prec64 emax64 z 0 false with
  | S754_infinity _ => Raise OverflowError
  | x => Ok x
  end.

(** [x * k] for a float [x] and an int [k]. *)
Definition mul_int (x : f64) (k : Z) : result f64 :=
  y ← float_of_int k; Ok (SFmul prec64 emax64 x y).

(** Nearest integer to [a / b] for [0 < b], ties to the even one. *)
Definition rne_div (a b : Z) : Z :=
  let q := a / b in
  match 2 * (a mod b) ?= b with
  | Lt => q
  | Gt => q + 1
  | Eq => if Z.even q then q else q + 1
  end.

(** [round(x, ndigits)] for a float [x] and [0 <= ndigits]: CPython prints
    [x] to [ndigits] decimals, correctly rounded (ties to even on the exact
    value of [x]), and reads the decimal back as the nearest double.
    Infinities and NaN round to themselves; the sign of a zero is kept. *)
Definition round (x : f64) (ndigits : Z) : f64 :=
  match x with
  | S754_finite s m e =>
      let p := 10 ^ ndigits in
      let k := if 0 <=? e then Zpos m * 2 ^ e * p
               else rne_div (Zpos m * p) (2 ^ (- e)) in
      let num := match k with
                 | Zpos n => S754_finite s n 0
                 | _ => S754_zero s
                 end in
      SFdiv prec64 emax64 num (int_operand p)
  | _ => x
  end.

(** [float(t)] for a 0-dim float32 tensor: the same value as a double. *)
Definition float_of_f32 (x : f32) : f64 :=
  match x with
  | S754_finite s m e => binary_round prec64 emax64 s m e
  | _ => x
  end.

End Py.

(** ** torch tensors

    A tensor is its shape and its elements; 1-dim tensors are lists.
    Element-wise operations follow torch's broadcasting rule: two sizes are
    compatible when they are equal or one of them is 1, and incompatible
    shapes raise [RuntimeError]. *)

Module Torch.

Record tensor2 (A : Type) : Type :=
  Tensor2 { rows : nat; cols : nat; at2 : nat -> nat -> A }.
Arguments Tensor2 {A} rows cols at2.
Arguments rows {A} t.
Arguments cols {A} t.
Arguments at2 {A} t i j.

Record tensor3 (A : Type) : Type :=
  Tensor3 { dim0 : nat; dim1 : nat; dim2 : nat; at3 : nat -> nat -> nat -> A }.
Arguments Tensor3 {A} dim0 dim1 dim2 at3.
Arguments dim0 {A} t.
Arguments dim1 {A} t.
Arguments dim2 {A} t.
Arguments at3 {A} t i j k.

(** The size two broadcast sizes agree on, if any. *)
Definition bsize (a b : nat) : option nat :=
  if (a =? b)%nat then Some a
  else if (a =? 1)%nat then Some b
  else if (b =? 1)%nat then Some a
  else None.

(** The index read in a dimension of size [d] for broadcast index [i]. *)
Definition bidx (d i : nat) : nat := if (d =? 1)%nat then 0%nat else i.

Definition is_nan (x : Py.f32) : bool :=
  match x with S754_nan => true | _ => false end.

(** Whether a later element [x] replaces the current maximum [best]:
    strictly greater, and NaN counts as the greatest value. *)
Definition replaces (best x : Py.f32) : bool :=
  if is_nan best then false
  else if is_nan x then true
  else SFltb best x.

Fixpoint argmax_from (best : Py.f32) (besti i : nat) (l : list Py.f32) : nat :=
  match l with
  | [] => besti
  | x :: l' =>
      if replaces best x then argmax_from x i (S i) l'
      else argmax_from best besti (S i) l'
  end.

(** Index of the first maximal element of the [n] elements [row 0], ...,
    [row (n - 1)], for [0 < n]. *)
Definition argmax_row (row : nat -> Py.f32) (n : nat) : Z :=
  Z.of_nat (argmax_from (row 0%nat) 0 1 (map row (seq 1 (n - 1)))).

(** [t.argmax(1)] for a 2-dim tensor; a reduction over no element
    raises. *)
Definition argmax1 (t : tensor2 Py.f32) : result (list Z) :=
  if (cols t =? 0)%nat then Raise IndexError
  else Ok (map (fun i => argmax_row (at2 t i) (cols t)) (seq 0 (rows t))).

(** [t.argmax(-1)] for a 3-dim tensor. *)
Definition argmax_last (t : tensor3 Py.f32) : result (tensor2 Z) :=
  if (dim2 t =? 0)%nat then Raise IndexError
  else Ok (Tensor2 (dim0 t) (dim1 t) (fun i j => argmax_row (at3 t i j) (dim2 t))).

(** [~mask]. *)
Definition lognot (m : tensor2 bool) : tensor2 bool :=
  Tensor2 (rows m) (cols m) (fun i j => negb (at2 m i j)).

(** [t.masked_select(mask)]: the elements of [t], in row-major order,
    where the (broadcast) mask is true. *)
Definition masked_select {A : Type} (t : tensor2 A) (mask : tensor2 bool)
  : result (list A) :=
  match bsize (rows t) (rows mask), bsize (cols t) (cols mask) with
  | Some r, Some c =>
      Ok (flat_map
            (fun i =>
               flat_map
                 (fun j =>
                    if at2 mask (bidx (rows mask) i) (bidx (cols mask) j)
                    then [at2 t (bidx (rows t) i) (bidx (cols t) j)]
                    else [])
                 (seq 0 c))
            (seq 0 r))
  | _, _ => Raise RuntimeError
  end.

(** [a == b] on 1-dim int64 tensors. *)
Definition eq1 (a b : list Z) : result (list bool) :=
  match bsize (length a) (length b) with
  | Some n =>
      Ok (map (fun i => nth (bidx (length a) i) a 0 =? nth (bidx (length b) i) b 0)
            (seq 0 n))
  | None => Raise RuntimeError
  end.

(** [t.sum()] on a bool tensor: the number of true elements. *)
Definition sum_bool (l : list bool) : Z :=
  Z.of_nat (length (List.filter (fun b : bool => b) l)).

(** [mask.unsqueeze(-1).expand_as(t)]: a size of the mask has to equal
    that of [t] or be 1. *)
Definition unsqueeze_expand_as {A : Type} (mask : tensor2 bool) (t : tensor3 A)
  : result (tensor3 bool) :=
  if ((rows mask =? dim0 t)%nat || (rows mask =? 1)%nat)
     && ((cols mask =? dim1 t)%nat || (cols mask =? 1)%nat)
  then Ok (Tensor3 (dim0 t) (dim1 t) (dim2 t)
             (fun i j _ => at2 mask (bidx (rows mask) i) (bidx (cols mask) j)))
  else Raise RuntimeError.

(** [t.masked_fill(mask, v)] for a mask of the shape of [t]. *)
Definition masked_fill {A : Type} (t : tensor3 A) (mask : tensor3 bool) (v : A)
  : tensor3 A :=
  Tensor3 (dim0 t) (dim1 t) (dim2 t)
    (fun i j k => if at3 mask i j k then v else at3 t i j k).

(** [t.transpose(1, 2)]. *)
Definition transpose12 {A : Type} (t : tensor3 A) : tensor3 A :=
  Tensor3 (dim0 t) (dim2 t) (dim1 t) (fun i j k => at3 t i k j).

(** An int64 value converted to the default float dtype. *)
Definition f32_of_int (z : Z) : Py.f32 :=
  binary_normalize Py.prec32 Py.emax32 z 0 false.

(** [t / n] for a 0-dim int64 tensor [t] and a Python int [n]: true
    division in float32 (division by zero gives an infinity or NaN, it
    does not raise). *)
Definition int_truediv (t n : Z) : Py.f32 :=
  SFdiv Py.prec32 Py.emax32 (f32_of_int t) (f32_of_int n).

(** [x + y] on 0-dim float32 tensors. *)
Definition add (x y : Py.f32) : Py.f32 := SFadd Py.prec32 Py.emax32 x y.

(** [x / n] for a 0-dim float32 tensor [x] and a Python int [n]. *)
Definition div_int (x : Py.f32) (n : Z) : Py.f32 :=
  SFdiv Py.prec32 Py.emax32 x (f32_of_int n).

End Torch.

(** ** Metric helpers *)

(** [percentage], trainer.py lines 17-19. *)
Definition percentage (batch_size max_len current : Z) : result Py.f64 :=
  batched_max ← Py.floordiv max_len batch_size;
  q ← Py.truediv current batched_max;
  p ← Py.mul_int q 100;
  Ok (Py.round p 2).

(** [nsp_accuracy], trainer.py lines 22-24. *)
Definition nsp_accuracy (result_ target : Torch.tensor2 Py.f32) : result Py.f64 :=
  r ← Torch.argmax1 result_;
  t ← Torch.argmax1 target;
  e ← Torch.eq1 r t;
  let s := Torch.sum_bool e in
  Ok (Py.round (Py.float_of_f32 (Torch.int_truediv s (Z.of_nat (Torch.rows result_)))) 2).

(** [token_accuracy], trainer.py lines 27-31. *)
Definition token_accuracy (result_ : Torch.tensor3 Py.f32) (target : Torch.tensor2 Z)
    (mask : Torch.tensor2 bool) : result Py.f64 :=
  a ← Torch.argmax_last result_;
  r ← Torch.masked_select a (Torch.lognot mask);
  t ← Torch.masked_select target (Torch.lognot mask);
  e ← Torch.eq1 r t;
  let s := Torch.sum_bool e in
  Ok (Py.round
        (Py.float_of_f32
           (Torch.int_truediv s
              (Z.of_nat (Torch.dim0 result_) * Z.of_nat (Torch.dim1 result_)))) 2).


(** ** The trainer *)

(** [range(a, b)]. *)
Definition range (a b : Z) : list Z :=
  map (fun k => a + Z.of_nat k) (seq 0 (Z.to_nat (b - a))).

(** A running loss sum: the Python int it starts from, or a tensor. *)
Inductive pynum : Type :=
| PInt (z : Z)
| PTensor (x : Py.f32).

(** [a + x] for a running sum [a] and a 0-dim tensor [x] (the result of
    [a += x]). *)
Definition pynum_add (a : pynum) (x : Py.f32) : Py.f32 :=
  match a with
  | PInt z => Torch.add (Torch.f32_of_int z) x
  | PTensor y => Torch.add y x
  end.

(** What the trainer prints. *)
Inductive line : Type :=
| LBegin (epoch : Z)
| LProgress (epoch1 index batched_len : Z) (passed : Py.f64)
    (nsp_loss mlm_loss : Py.f32) (accuracy : option (Py.f64 * Py.f64))
| LBlank
| LSplitter (n : Z)
| LSaved (name : string)
| LRestoring (path : string)
| LRestored.

(** A value of the loader: the tuple unpacked in line 101. *)
Record Batch (Input AttnMask : Type) : Type := {
  inp : Input;
  mask : AttnMask;
  token_mask : Torch.tensor2 bool;
  mask_target : Torch.tensor2 Z;
  nsp_target : Torch.tensor2 Py.f32 }.
Arguments inp {Input AttnMask} b.
Arguments mask {Input AttnMask} b.
Arguments token_mask {Input AttnMask} b.
Arguments mask_target {Input AttnMask} b.
Arguments nsp_target {Input AttnMask} b.

(** The collaborators the module imports: the model ([bert.model]), the
    two loss criteria, autograd and the optimizer ([torch]).  They are
    parameters of the development. *)
Class Collaborators : Type := {
  Model : Type;
  Optim : Type;
  Input : Type;
  AttnMask : Type;
  MState : Type;
  OState : Type;
  forward :
    Model -> Input -> AttnMask -> Torch.tensor3 Py.f32 * Torch.tensor2 Py.f32;
  ml_criterion : Torch.tensor3 Py.f32 -> Torch.tensor2 Z -> Py.f32;
  criterion : Torch.tensor2 Py.f32 -> Torch.tensor2 Py.f32 -> Py.f32;
  zero_grad : Model -> Model;
  backward : Model -> Batch Input AttnMask -> Model;
  optimizer_step : Model -> Optim -> Model * Optim;
  model_state_dict : Model -> MState;
  optimizer_state_dict : Optim -> OState;
  model_load_state_dict : Model -> MState -> result Model;
  optimizer_load_state_dict : Optim -> OState -> result Optim }.

(** The surroundings: the batches the data loader ([bert.dataset] through
    [torch.utils.data.DataLoader], which shuffles) yields the [k]-th time it
    is iterated, and the value of the [k]-th reading of the clock, formatted
    with no decimals. *)
Class Environment `{Collaborators} : Type := {
  loader : nat -> list (Batch Input AttnMask);
  clock : nat -> Z }.

(** The record [torch.save] writes. *)
Record Checkpoint `{Collaborators} : Type := {
  ck_epoch : Z;
  ck_model_state_dict : MState;
  ck_optimizer_state_dict : OState;
  ck_loss : Py.f32 }.

(** What the trainer does to the outside: console lines, scalars sent to
    the metrics writer, files written. *)
Inductive event `{Collaborators} : Type :=
| Print (l : line)
| AddScalar (tag : string) (value : spec_float) (global_step : Z)
| TorchSave (path : string) (obj : Checkpoint).

Section Trainer.

Context `{Environment}.

Record BertTrainer : Type := {
  model : Model;
  optimizer : Optim;
  batch_size : Z;
  checkpoint_dir : option string;
  epochs : Z;
  current_epoch : Z;
  _splitter_size : Z;
  _ds_len : Z;
  _batched_len : Z;
  _print_every : Z;
  _accuracy_every : Z }.

(** The trainer with everything it acts on: how often the loader and the
    clock were used, the files of the file system, and the events so
    far, oldest first. *)
Record World : Type := {
  self : BertTrainer;
  loader_passes : nat;
  clock_reads : nat;
  fs : gmap string Checkpoint;
  trace : list event }.

(** Statements: a state transformer that may raise; the world at a raise
    is the world the exception leaves behind. *)
Definition M (A : Type) : Type := World -> result A * World.

#[global] Instance M_ret : MRet M := fun _ a w => (Ok a, w).
#[global] Instance M_bind : MBind M := fun _ _ k m w =>
  match m w with
  | (Ok a, w') => k a w'
  | (Raise e, w') => (Raise e, w')
  end.

Definition raise {A : Type} (e : exn) : M A := fun w => (Raise e, w).
Definition lift {A : Type} (r : result A) : M A := fun w => (r, w).
Definition get_self : M BertTrainer := fun w => (Ok (self w), w).
Definition set_self (t : BertTrainer) : M unit := fun w =>
  (Ok tt, {| self := t; loader_passes := loader_passes w;
             clock_reads := clock_reads w; fs := fs w; trace := trace w |}).
Definition emit (e : event) : M unit := fun w =>
  (Ok tt, {| self := self w; loader_passes := loader_passes w;
             clock_reads := clock_reads w; fs := fs w;
             trace := trace w ++ [e] |}).

(** [iter(self.loader)], drained. *)
Definition iter_loader : M (list (Batch Input AttnMask)) := fun w =>
  (Ok (loader (loader_passes w)),
   {| self := self w; loader_passes := S (loader_passes w);
      clock_reads := clock_reads w; fs := fs w; trace := trace w |}).

(** [datetime.utcnow().timestamp()], as [:.0f] formats it. *)
Definition utcnow_timestamp : M Z := fun w =>
  (Ok (clock (clock_reads w)),
   {| self := self w; loader_passes := loader_passes w;
      clock_reads := S (clock_reads w); fs := fs w; trace := trace w |}).

(** [torch.save(obj, path)]: the file is created or replaced. *)
Definition torch_save (obj : Checkpoint) (path : string) : M unit := fun w =>
  (Ok tt, {| self := self w; loader_passes := loader_passes w;
             clock_reads := clock_reads w; fs := <[path := obj]> (fs w);
             trace := trace w ++ [TorchSave path obj] |}).

(** [torch.load(path)]. *)
Definition torch_load (path : string) : M Checkpoint := fun w =>
  match fs w !! path with
  | Some obj => (Ok obj, w)
  | None => (Raise FileNotFoundError, w)
  end.

Definition set_model (m : Model) : M unit :=
  t ← get_self;
  set_self {| model := m; optimizer := optimizer t; batch_size := batch_size t;
              checkpoint_dir := checkpoint_dir t; epochs := epochs t;
              current_epoch := current_epoch t;
              _splitter_size := _splitter_size t; _ds_len := _ds_len t;
              _batched_len := _batched_len t; _print_every := _print_every t;
              _accuracy_every := _accuracy_every t |}.

Definition set_optimizer (o : Optim) : M unit :=
  t ← get_self;
  set_self {| model := model t; optimizer := o; batch_size := batch_size t;
              checkpoint_dir := checkpoint_dir t; epochs := epochs t;
              current_epoch := current_epoch t;
              _splitter_size := _splitter_size t; _ds_len := _ds_len t;
              _batched_len := _batched_len t; _print_every := _print_every t;
              _accuracy_every := _accuracy_every t |}.

Definition set_current_epoch (e : Z) : M unit :=
  t ← get_self;
  set_self {| model := model t; optimizer := optimizer t;
              batch_size := batch_size t;
              checkpoint_dir := checkpoint_dir t; epochs := epochs t;
              current_epoch := e;
              _splitter_size := _splitter_size t; _ds_len := _ds_len t;
              _batched_len := _batched_len t; _print_every := _print_every t;
              _accuracy_every := _accuracy_every t |}.

(** The local variables of [train] that live across iterations; [loss] is
    unbound until the first iteration assigns it. *)
Record locals : Type := {
  average_nsp_loss : pynum;
  average_mlm_loss : pynum;
  loss : option Py.f32 }.

(** The body of [if index % self._print_every == 0:], lines 118-143,
    but for the reset of the sums. *)
Definition progress (epoch nbatches index : Z)
    (average_nsp_loss average_mlm_loss : Py.f32)
    (token : Torch.tensor3 Py.f32) (nsp : Torch.tensor2 Py.f32)
    (value : Batch Input AttnMask) : M unit :=
  t ← get_self;
  passed ← lift (percentage (batch_size t) (_ds_len t) index);
  let global_step := epoch * nbatches + index in
  let print_nsp_loss := Torch.div_int average_nsp_loss (_print_every t) in
  let print_mlm_loss := Torch.div_int average_mlm_loss (_print_every t) in
  r ← lift (Py.mod_ index (_accuracy_every t));
  accuracy ←
    (if r =? 0 then
       nsp_acc ← lift (nsp_accuracy nsp (nsp_target value));
       token_acc ← lift (token_accuracy token (mask_target value) (token_mask value));
       emit (AddScalar "NSP train accuracy" nsp_acc global_step);;
       emit (AddScalar "Token train accuracy" token_acc global_step);;
       mret (Some (nsp_acc, token_acc))
     else mret None);
  emit (Print (LProgress (epoch + 1) index (_batched_len t) passed
                 print_nsp_loss print_mlm_loss accuracy));;
  emit (AddScalar "NSP loss" print_nsp_loss global_step);;
  emit (AddScalar "MLM loss" print_mlm_loss global_step).

(** The forward pass and the two losses of a batch, lines 101-108. *)
Record Out : Type := {
  out_token : Torch.tensor3 Py.f32;
  out_nsp : Torch.tensor2 Py.f32;
  loss_token : Py.f32;
  loss_nsp : Py.f32 }.

Definition forward_losses (m : Model) (value : Batch Input AttnMask) : result Out :=
  let '(token, nsp) := forward m (inp value) (mask value) in
  tm ← Torch.unsqueeze_expand_as (token_mask value) token;
  let token := Torch.masked_fill token tm (Torch.f32_of_int 0) in
  let loss_token := ml_criterion (Torch.transpose12 token) (mask_target value) in
  let loss_nsp := criterion nsp (nsp_target value) in
  Ok {| out_token := token; out_nsp := nsp;
        loss_token := loss_token; loss_nsp := loss_nsp |}.

(** One iteration of the loop of [train], lines 97-143, for the [i]-th
    value of [enumerate]. *)
Definition train_batch (epoch nbatches i : Z) (value : Batch Input AttnMask) (l : locals)
  : M locals :=
  let index := i + 1 in
  t ← get_self;
  set_model (zero_grad (model t));;
  t ← get_self;
  out ← lift (forward_losses (model t) value);
  let loss := Torch.add (loss_token out) (loss_nsp out) in
  let average_nsp_loss := pynum_add (average_nsp_loss l) (loss_nsp out) in
  let average_mlm_loss := pynum_add (average_mlm_loss l) (loss_token out) in
  set_model (backward (model t) value);;
  t ← get_self;
  let '(m, o) := optimizer_step (model t) (optimizer t) in
  set_model m;;
  set_optimizer o;;
  t ← get_self;
  r ← lift (Py.mod_ index (_print_every t));
  if r =? 0 then
    progress epoch nbatches index average_nsp_loss average_mlm_loss
      (out_token out) (out_nsp out) value;;
    mret {| average_nsp_loss := PInt 0; average_mlm_loss := PInt 0;
            loss := Some loss |}
  else
    mret {| average_nsp_loss := PTensor average_nsp_loss;
            average_mlm_loss := PTensor average_mlm_loss;
            loss := Some loss |}.

(** [for i, value in enumerate(...)], from the [i]-th value on. *)
Fixpoint train_loop (epoch nbatches i : Z) (values : list (Batch Input AttnMask)) (l : locals)
  : M locals :=
  match values with
  | [] => mret l
  | value :: values' =>
      l' ← train_batch epoch nbatches i value l;
      train_loop epoch nbatches (i + 1) values' l'
  end.

(** [BertTrainer.train], lines 90-144. *)
Definition train (epoch : Z) : M Py.f32 :=
  emit (Print (LBegin epoch));;
  values ← iter_loader;
  l ← train_loop epoch (Z.of_nat (length values)) 0 values
        {| average_nsp_loss := PInt 0; average_mlm_loss := PInt 0; loss := None |};
  match loss l with
  | Some x => mret x
  | None => raise UnboundLocalError
  end.

(** The file name of a checkpoint, line 151. *)
Definition checkpoint_name (epoch step timestamp : Z) : string :=
  "bert_epoch" +:+ pretty epoch +:+ "_step" +:+ pretty step +:+ "_"
    +:+ pretty timestamp +:+ ".pt".

(** [checkpoint_dir.joinpath(name)] for a relative [name]. *)
Definition joinpath (dir name : string) : string := dir +:+ "/" +:+ name.

(** [BertTrainer.save_checkpoint], lines 146-164. *)
Definition save_checkpoint (epoch step : Z) (loss : Py.f32) : M unit :=
  t ← get_self;
  match checkpoint_dir t with
  | None => mret tt
  | Some dir =>
      timestamp ← utcnow_timestamp;
      let name := checkpoint_name epoch step timestamp in
      torch_save {| ck_epoch := epoch;
                    ck_model_state_dict := model_state_dict (model t);
                    ck_optimizer_state_dict := optimizer_state_dict (optimizer t);
                    ck_loss := loss |} (joinpath dir name);;
      emit (Print LBlank);;
      emit (Print (LSplitter (_splitter_size t)));;
      emit (Print (LSaved name));;
      emit (Print (LSplitter (_splitter_size t)));;
      emit (Print LBlank)
  end.

(** [BertTrainer.load_checkpoint], lines 166-174. *)
Definition load_checkpoint (path : string) : M unit :=
  t ← get_self;
  emit (Print (LSplitter (_splitter_size t)));;
  emit (Print (LRestoring path));;
  checkpoint ← torch_load path;
  set_current_epoch (ck_epoch checkpoint);;
  t ← get_self;
  m ← lift (model_load_state_dict (model t) (ck_model_state_dict checkpoint));
  set_model m;;
  t ← get_self;
  o ← lift (optimizer_load_state_dict (optimizer t) (ck_optimizer_state_dict checkpoint));
  set_optimizer o;;
  emit (Print LRestored);;
  t ← get_self;
  emit (Print (LSplitter (_splitter_size t))).

(** The loop of [__call__] over the epochs still to visit. *)
Fixpoint call_loop (es : list Z) : M unit :=
  match es with
  | [] => mret tt
  | e :: es' =>
      set_current_epoch e;;
      t ← get_self;
      loss ← train (current_epoch t);
      t ← get_self;
      save_checkpoint (current_epoch t) (-1) loss;;
      call_loop es'
  end.

(** [BertTrainer.__call__], lines 85-88 ([run()] in the specification). *)
Definition __call__ : M unit :=
  t ← get_self;
  call_loop (range (current_epoch t) (epochs t)).

(** ** Specification-level functions of an epoch *)

(** The forward results of the batches of an epoch, the model and the
    optimizer being updated after each one. *)
Fixpoint epoch_outs (m : Model) (o : Optim) (values : list (Batch Input AttnMask))
  : result (list Out) :=
  match values with
  | [] => Ok []
  | value :: values' =>
      out ← forward_losses (zero_grad m) value;
      let '(m', o') := optimizer_step (backward (zero_grad m) value) o in
      outs ← epoch_outs m' o' values';
      Ok (out :: outs)
  end.

(** The tensor a running sum stands for. *)
Definition pynum_val (a : pynum) : Py.f32 :=
  match a with
  | PInt z => Torch.f32_of_int z
  | PTensor x => x
  end.

(** The sum, from zero, of the losses of [outs]. *)
Definition loss_sum (f : Out -> Py.f32) (outs : list Out) : Py.f32 :=
  fold_left Torch.add (map f outs) (Torch.f32_of_int 0).

(** The indices, among the first [n] batches, at which progress is
    reported. *)
Definition ticks (print_every : Z) (n : nat) : list Z :=
  List.filter (fun k => k mod print_every =? 0) (map Z.of_nat (seq 1 n)).

(** The batches since the progress tick before the one at index [k]. *)
Definition window (print_every k : Z) (outs : list Out) : list Out :=
  skipn (Z.to_nat (k - Z.abs print_every)) (firstn (Z.to_nat k) outs).

(** The loss reported at the tick at index [k]. *)
Definition reported (f : Out -> Py.f32) (print_every k : Z) (outs : list Out) : Py.f32 :=
  Torch.div_int (loss_sum f (window print_every k outs)) print_every.

(** The progress line of an event: epoch shown, index, the two losses. *)
Definition progress_of (ev : event) : option (Z * Z * Py.f32 * Py.f32) :=
  match ev with
  | Print (LProgress epoch1 index _ _ nsp_loss mlm_loss _) =>
      Some (epoch1, index, nsp_loss, mlm_loss)
  | _ => None
  end.

(** The loss scalar of an event: tag, value, global step. *)
Definition loss_scalar_of (ev : event) : option (string * spec_float * Z) :=
  match ev with
  | AddScalar tag value global_step =>
      if bool_decide (tag = "NSP loss" \/ tag = "MLM loss")
      then Some (tag, value, global_step) else None
  | _ => None
  end.

(** The mark an event leaves in the course of [__call__]: the epoch whose
    training begins, or the epoch whose checkpoint is written. *)
Inductive mark : Type :=
| Trained (epoch : Z)
| Saved (epoch : Z).

Definition mark_of (ev : event) : option mark :=
  match ev with
  | Print (LBegin epoch) => Some (Trained epoch)
  | TorchSave _ obj => Some (Saved (ck_epoch obj))
  | _ => None
  end.

End Trainer.

Definition f64_60 : Py.f64 := S754_finite false 8444249301319680 (-47).
Definition f64_100 : Py.f64 := S754_finite false 7036874417766400 (-46).
Definition f64_1 : Py.f64 := S754_finite false 4503599627370496 (-52).
Definition f64_0 : Py.f64 := S754_zero false.

(** ** IEEE rounding, stated on integers

    The definitions below say what [SpecFloat]'s operations compute, in
    terms of integers only: a non-negative rational [N / D], counted in units
    of [2 ^ emin], is rounded by [Rnd] to the nearest value with at most
    [prec] significant bits, ties to even. *)

Module IEEE.

(** The location of the rest of [N / D] in its unit interval. *)
Definition loc_of (N D : Z) : location :=
  if N mod D =? 0 then loc_Exact else loc_Inexact (2 * (N mod D) ?= D).

Definition rec_of (N D : Z) : shr_record := shr_record_of_loc (N / D) (loc_of N D).

Definition rexp (prec N D : Z) : Z := Z.max 0 (Zdigits2 (N / D) - prec).

Definition Rnd (prec N D : Z) : Z :=
  Py.rne_div N (D * 2 ^ rexp prec N D) * 2 ^ rexp prec N D.

Definition encode_float (prec emax : Z) (s : bool) (R : Z) : spec_float :=
  let t := Z.max 0 (Zdigits2 R - prec) in
  match R / 2 ^ t with
  | Zpos m =>
      if emin prec emax + t <=? emax - prec
      then S754_finite s m (emin prec emax + t)
      else S754_infinity s
  | _ => S754_zero s
  end.

Definition scaleN (prec emax N e : Z) : Z := N * 2 ^ Z.max 0 (e - emin prec emax).

Definition scaleD (prec emax D e : Z) : Z := D * 2 ^ Z.max 0 (emin prec emax - e).

(** The value of a float in units of [2 ^ emin]; an infinity counts as the
    first power of two past the finite floats. *)
Definition ord (prec emax : Z) (x : spec_float) : Z :=
  match x with
  | S754_zero _ => 0
  | S754_nan => 0
  | S754_infinity s => cond_Zopp s (2 ^ (emax - emin prec emax))
  | S754_finite s m e => cond_Zopp s (Zpos m * 2 ^ (e - emin prec emax))
  end.

Definition not_nan (x : spec_float) : Prop :=
  match x with S754_nan => False | _ => True end.

(** A function of magnitudes, extended to signed values. *)
Definition sgn_apply (f : Z -> Z) (v : Z) : Z :=
  if 0 <=? v then f v else - f (- v).

Definition funit (prec emax : Z) : Z := 2 ^ (- emin prec emax).

Definition fomega (prec emax : Z) : Z := 2 ^ (emax - emin prec emax).

(** The magnitude of [a / b] rounded, for ints [0 <= a] and [0 < b]. *)
Definition F_div (prec emax b a : Z) : Z :=
  Z.min (Rnd prec (a * funit prec emax) b) (fomega prec emax).

(** The magnitude of the rounded product by the float [my * 2 ^ ey]. *)
Definition F_mul (prec emax my ey v : Z) : Z :=
  Z.min (Rnd prec (v * my * 2 ^ Z.max 0 ey) (2 ^ Z.max 0 (- ey))) (fomega prec emax).

(** The magnitude rounded to a multiple of [1 / p], as a float again. *)
Definition F_round (prec emax p v : Z) : Z :=
  Z.min (Rnd prec (Py.rne_div (v * p) (funit prec emax) * funit prec emax) p) (fomega prec emax).

(** The value of [percentage] for the batch count [d], as a function of the
    current index: quotient, product by [100.0], [round(_, 2)]. *)
Definition percentage_value (d c : Z) : Z :=
  sgn_apply (F_round Py.prec64 Py.emax64 100)
    (sgn_apply (F_mul Py.prec64 Py.emax64 7036874417766400 (-46))
       (sgn_apply (F_div Py.prec64 Py.emax64 d) c)).

End IEEE.

(** ** Specification-level definitions of the trainer *)

Section TrainerDefs.
Context `{Environment}.

(** The configuration of a trainer: every field but the model and the
    optimizer. *)
Definition config_eq (t t' : BertTrainer) : Prop :=
  batch_size t = batch_size t' /\ checkpoint_dir t = checkpoint_dir t' /\
  epochs t = epochs t' /\ current_epoch t = current_epoch t' /\
  _splitter_size t = _splitter_size t' /\ _ds_len t = _ds_len t' /\
  _batched_len t = _batched_len t' /\ _print_every t = _print_every t' /\
  _accuracy_every t = _accuracy_every t'.

(** [w'] is [w] with more events, all of them in [P]. *)
Definition extends (P : event -> Prop) (w w' : World) : Prop :=
  exists evs, trace w' = trace w ++ evs /\ Forall P evs.

(** A statement that leaves the configuration alone and emits events of
    [P] only, whether it returns or raises. *)
Definition keeps (P : event -> Prop) {A : Type} (m : M A) : Prop :=
  forall w, config_eq (self w) (self (snd (m w))) /\ extends P w (snd (m w)).

(** The progress ticks among the [n] batches after the first [a]. *)
Definition ticks_from (print_every : Z) (a n : nat) : list Z :=
  List.filter (fun k => k mod print_every =? 0) (map Z.of_nat (seq (S a) n)).

(** The batches processed since the last progress tick. *)
Definition since_tick (print_every : Z) (done : list Out) : list Out :=
  skipn (Z.to_nat (Z.of_nat (length done)
                   - Z.of_nat (length done) mod Z.abs print_every)) done.

(** The total loss of a batch, line 110. *)
Definition total_loss (o : Out) : Py.f32 := Torch.add (loss_token o) (loss_nsp o).

(** The progress lines and the loss scalars of the ticks [ks]. *)
Definition progress_lines (epoch print_every : Z) (outs : list Out) (ks : list Z)
  : list (Z * Z * Py.f32 * Py.f32) :=
  map (fun k => (epoch + 1, k, reported loss_nsp print_every k outs,
                 reported loss_token print_every k outs)) ks.

Definition loss_scalars (epoch nbatches print_every : Z) (outs : list Out) (ks : list Z)
  : list (string * spec_float * Z) :=
  flat_map (fun k => [("NSP loss", reported loss_nsp print_every k outs,
                       epoch * nbatches + k);
                      ("MLM loss", reported loss_token print_every k outs,
                       epoch * nbatches + k)]) ks.

(** The locals of [train] before the loop, lines 94-95. *)
Definition locals0 : locals :=
  {| average_nsp_loss := PInt 0; average_mlm_loss := PInt 0; loss := None |}.

(** The world in which the loop of [train] starts: the first line is
    printed and the loader is being iterated. *)
Definition loop_start (epoch : Z) (w : World) : World :=
  snd (iter_loader (snd (emit (Print (LBegin epoch)) w))).

(** The marks of the epochs [es], in the order [__call__] leaves them. *)
Definition marks_of_epochs (dir : option string) (es : list Z) : list mark :=
  flat_map (fun e => Trained e :: match dir with Some _ => [Saved e] | None => [] end) es.

(** Every file [__call__] writes is named for one of its epochs and for
    step -1. *)
Definition run_save (dir : option string) (es : list Z) (ev : event) : Prop :=
  match ev with
  | TorchSave path obj =>
      exists d timestamp,
        dir = Some d /\ In (ck_epoch obj) es /\
        path = joinpath d (checkpoint_name (ck_epoch obj) (-1) timestamp)
  | _ => True
  end.

(** A statement that never raises [UnboundLocalError]. *)
Definition bound {A : Type} (m : M A) : Prop :=
  forall w, fst (m w) <> Raise UnboundLocalError.

End TrainerDefs.

(** ** Specification-level definitions of the accuracies *)

(** The rows on which prediction and target have the same top-scoring
    class. *)
Definition matching_rows (result_ target : Torch.tensor2 Py.f32) : Z :=
  Z.of_nat
    (length
       (List.filter
          (fun i => Torch.argmax_row (Torch.at2 result_ i) (Torch.cols result_)
                    =? Torch.argmax_row (Torch.at2 target i) (Torch.cols target))
          (seq 0 (Torch.rows result_)))).

(** The positions a mask does not ignore, in row-major order. *)
Definition unmasked (mask : Torch.tensor2 bool) : list (nat * nat) :=
  flat_map
    (fun i =>
       flat_map (fun j => if Torch.at2 mask i j then [] else [(i, j)])
         (seq 0 (Torch.cols mask)))
    (seq 0 (Torch.rows mask)).

(** The positions not ignored at which the top-scoring class is the
    target. *)
Definition matching_tokens (result_ : Torch.tensor3 Py.f32) (target : Torch.tensor2 Z)
    (mask : Torch.tensor2 bool) : Z :=
  Z.of_nat
    (length
       (List.filter
          (fun p => Torch.argmax_row (Torch.at3 result_ (fst p) (snd p)) (Torch.dim2 result_)
                    =? Torch.at2 target (fst p) (snd p))
          (unmasked mask))).

(** ** A small instance, for examples

    A model whose state is a counter, batches of two examples with three
    token positions over four classes, and a loader of four batches. *)

Module Toy.

Definition f32 (z : Z) : Py.f32 := Torch.f32_of_int z.

Definition mask_ : Torch.tensor2 bool :=
  Torch.Tensor2 2 3 (fun i j => (j =? 0)%nat).

(** Position [(i, j)] scores class [j + 1] highest. *)
Definition token_ : Torch.tensor3 Py.f32 :=
  Torch.Tensor3 2 3 4 (fun i j k => if (k =? j + 1)%nat then f32 5 else f32 1).

Definition mask_target_ : Torch.tensor2 Z :=
  Torch.Tensor2 2 3 (fun i j => if (i =? 0)%nat then Z.of_nat j + 1 else 0).

(** Row [i] scores class [i] highest. *)
Definition nsp_ : Torch.tensor2 Py.f32 :=
  Torch.Tensor2 2 2 (fun i j => if (i =? j)%nat then f32 3 else f32 2).

Definition nsp_target_ : Torch.tensor2 Py.f32 :=
  Torch.Tensor2 2 2 (fun i j => if (j =? 0)%nat then f32 1 else f32 0).

(** Masks that ignore nothing and everything, and the targets [token_]
    predicts at every position. *)
Definition no_mask_ : Torch.tensor2 bool := Torch.Tensor2 2 3 (fun _ _ => false).

Definition full_mask_ : Torch.tensor2 bool := Torch.Tensor2 2 3 (fun _ _ => true).

Definition predicted_ : Torch.tensor2 Z := Torch.Tensor2 2 3 (fun _ j => Z.of_nat j + 1).

(** Row [i] scores class [1 - i] highest. *)
Definition nsp_swapped_ : Torch.tensor2 Py.f32 :=
  Torch.Tensor2 2 2 (fun i j => if (i =? j)%nat then f32 2 else f32 3).

(** Batches of no example. *)
Definition empty_nsp_ : Torch.tensor2 Py.f32 := Torch.Tensor2 0 2 (fun _ _ => f32 0).

Definition empty_token_ : Torch.tensor3 Py.f32 := Torch.Tensor3 0 3 4 (fun _ _ _ => f32 0).

Definition empty_target_ : Torch.tensor2 Z := Torch.Tensor2 0 3 (fun _ _ => 0).

Definition empty_mask_ : Torch.tensor2 bool := Torch.Tensor2 0 3 (fun _ _ => true).

#[local] Instance collaborators : Collaborators := {|
  Model := Z;
  Optim := Z;
  Input := unit;
  AttnMask := unit;
  MState := Z;
  OState := Z;
  forward := fun _ _ _ => (token_, nsp_);
  ml_criterion := fun _ _ => f32 3;
  criterion := fun _ _ => f32 1;
  zero_grad := fun m => m;
  backward := fun m _ => m;
  optimizer_step := fun m o => (m + 1, o + 1);
  model_state_dict := fun m => m;
  optimizer_state_dict := fun o => o;
  model_load_state_dict := fun _ s => Ok s;
  optimizer_load_state_dict := fun _ s => Ok s |}.

Definition batch_ : Batch unit unit :=
  {| inp := tt; mask := tt; token_mask := mask_; mask_target := mask_target_;
     nsp_target := nsp_target_ |}.

(** Four batches an epoch; the clock advances a second a reading. *)
Definition environment : Environment :=
  {| loader := fun _ => [batch_; batch_; batch_; batch_];
     clock := fun k => 1700000000 + Z.of_nat k |}.

(** One batch an epoch; the clock stands still. *)
Definition small_environment : Environment :=
  {| loader := fun _ => [batch_];
     clock := fun _ => 1700000000 |}.

(** No batch at all. *)
Definition empty_environment : Environment :=
  {| loader := fun _ => [];
     clock := fun _ => 1700000000 |}.

Definition trainer (ds_len print_every : Z) : BertTrainer :=
  {| model := 0; optimizer := 0; batch_size := 2;
     checkpoint_dir := Some "ckpt"; epochs := 2; current_epoch := 0;
     _splitter_size := 35; _ds_len := ds_len; _batched_len := ds_len / 2;
     _print_every := print_every; _accuracy_every := 4 |}.

Definition world (ds_len print_every : Z) : World :=
  {| self := trainer ds_len print_every; loader_passes := 0; clock_reads := 0;
     fs := ∅; trace := [] |}.

Definition saved : Checkpoint :=
  {| ck_epoch := 1; ck_model_state_dict := 7; ck_optimizer_state_dict := 7;
     ck_loss := f32 4 |}.

(** A world with a checkpoint of epoch 1 on disk. *)
Definition world_with_checkpoint : World :=
  {| self := trainer 8 2; loader_passes := 0; clock_reads := 0;
     fs := {[ "ckpt/old.pt" := saved ]}; trace := [] |}.

End Toy.

(** ** The formula of [percentage]

    [round(current / (dataset_size // batch_size) * 100, 2)] for a batch
    count [batches = dataset_size // batch_size] that is already known. *)
Definition percentage_spec (batches current : Z) : result Py.f64 :=
  q ← Py.truediv current batches;
  p ← Py.mul_int q 100;
  Ok (Py.round p 2).

(** ** Further specification-level definitions *)

Section MoreTrainerDefs.
Context `{Environment}.

(** The model and the optimizer after the batches [values]: gradients
    zeroed, back-propagation and one optimizer step a batch, lines 99-115. *)
Fixpoint epoch_updates (m : Model) (o : Optim) (values : list (Batch Input AttnMask))
  : Model * Optim :=
  match values with
  | [] => (m, o)
  | value :: values' =>
      let '(m', o') := optimizer_step (backward (zero_grad m) value) o in
      epoch_updates m' o' values'
  end.

(** The same position in the loader and in the clock, and the same files. *)
Definition outside_eq (w w' : World) : Prop :=
  loader_passes w' = loader_passes w /\ clock_reads w' = clock_reads w /\ fs w' = fs w.

(** A statement that reads neither the loader nor the clock and writes no
    file, whether it returns or raises. *)
Definition quiet {A : Type} (m : M A) : Prop :=
  forall w, outside_eq w (snd (m w)).

(** The accuracy scalar of an event: tag and global step. *)
Definition accuracy_scalar_of (ev : event) : option (string * Z) :=
  match ev with
  | AddScalar tag _ global_step =>
      if bool_decide (tag = "NSP train accuracy" \/ tag = "Token train accuracy")
      then Some (tag, global_step) else None
  | _ => None
  end.

(** What a progress line of epoch [epoch] shows for the trainer [t]: the
    epoch counted from one, the batch count of the trainer, the percentage
    of its index, and the accuracies at the multiples of the accuracy
    period only. *)
Definition line_shows (t : BertTrainer) (epoch : Z) (ev : event) : Prop :=
  match ev with
  | Print (LProgress epoch1 index batched_len passed _ _ accuracy) =>
      epoch1 = epoch + 1 /\ batched_len = _batched_len t /\
      percentage (batch_size t) (_ds_len t) index = Ok passed /\
      (is_Some accuracy <-> index mod _accuracy_every t = 0)
  | _ => True
  end.

(** The record an event writes to a file. *)
Definition saved_record (ev : event) : option Checkpoint :=
  match ev with
  | TorchSave _ obj => Some obj
  | _ => None
  end.

(** The records [__call__] writes for the epochs [es], the loader having
    been iterated [pass] times before: the record of an epoch holds the
    states after the last optimizer step of the epoch and the total loss of
    its last batch. *)
Fixpoint run_records (m : Model) (o : Optim) (pass : nat) (es : list Z) : list Checkpoint :=
  match es with
  | [] => []
  | e :: es' =>
      let values := loader pass in
      let '(m', o') := epoch_updates m o values in
      match epoch_outs m o values with
      | Ok outs =>
          match last outs with
          | Some out =>
              {| ck_epoch := e;
                 ck_model_state_dict := model_state_dict m';
                 ck_optimizer_state_dict := optimizer_state_dict o';
                 ck_loss := total_loss out |} :: run_records m' o' (S pass) es'
          | None => []
          end
      | Raise _ => []
      end
  end.

End MoreTrainerDefs.

(** ** The constructor

    What [__init__] builds with: the dataset and its length, and the
    constructors of the data loader, of the metrics writer and of the
    optimizer, each of which may raise.  The two loss criteria are those of
    [Collaborators]. *)
Class Constructors `{Collaborators} : Type := {
  Dataset : Type;
  len : Dataset -> nat;
  DataLoader : Dataset -> Z -> result unit;
  SummaryWriter : string -> result unit;
  Adam : Model -> Py.f64 -> result Optim }.

(** [BertTrainer.__init__], lines 36-69. *)
Definition __init__ `{Constructors} (model_ : Model) (dataset : Dataset)
    (log_dir : string) (checkpoint_dir_ : option string)
    (print_progress_every print_accuracy_every batch_size_ : Z)
    (learning_rate : Py.f64) (epochs_ : Z) : result BertTrainer :=
  _ ← DataLoader dataset batch_size_;
  _ ← SummaryWriter log_dir;
  optimizer_ ← Adam model_ learning_rate;
  let ds_len := Z.of_nat (len dataset) in
  batched_len ← Py.floordiv ds_len batch_size_;
  Ok {| model := model_; optimizer := optimizer_; batch_size := batch_size_;
        checkpoint_dir := checkpoint_dir_; epochs := epochs_; current_epoch := 0;
        _splitter_size := 35; _ds_len := ds_len; _batched_len := batched_len;
        _print_every := print_progress_every;
        _accuracy_every := print_accuracy_every |}.

(** The trainer a construction leaves, in a world where nothing happened
    yet. *)
Definition fresh_world `{Collaborators} (t : BertTrainer) : World :=
  {| self := t; loader_passes := 0; clock_reads := 0; fs := ∅; trace := [] |}.

(** What is fixed at construction: every field but the model, the
    optimizer and the current epoch. *)
Definition same_setup `{Collaborators} (t t' : BertTrainer) : Prop :=
  batch_size t = batch_size t' /\ checkpoint_dir t = checkpoint_dir t' /\
  epochs t = epochs t' /\ _splitter_size t = _splitter_size t' /\
  _ds_len t = _ds_len t' /\ _batched_len t = _batched_len t' /\
  _print_every t = _print_every t' /\ _accuracy_every t = _accuracy_every t'.

(** Constructors that accept a positive batch size only, over datasets
    given by their length. *)
Definition toy_constructors : @Constructors Toy.collaborators :=
  @Build_Constructors Toy.collaborators nat (fun n => n)
    (fun _ b => if b <=? 0 then Raise RuntimeError else Ok tt)
    (fun _ => Ok tt)
    (fun _ _ => Ok 0).

(** A loader that yields four batches the first time it is iterated and
    none afterwards. *)
Definition fading_environment : @Environment Toy.collaborators :=
  @Build_Environment Toy.collaborators
    (fun k => match k with
              | O => [Toy.batch_; Toy.batch_; Toy.batch_; Toy.batch_]
              | S _ => []
              end)
    (fun k => 1700000000 + Z.of_nat k).

(** A model and an optimizer that reject a negative state. *)
Module Picky.

#[local] Instance collaborators : Collaborators := {|
  Model := Z;
  Optim := Z;
  Input := unit;
  AttnMask := unit;
  MState := Z;
  OState := Z;
  forward := fun _ _ _ => (Toy.token_, Toy.nsp_);
  ml_criterion := fun _ _ => Toy.f32 3;
  criterion := fun _ _ => Toy.f32 1;
  zero_grad := fun m => m;
  backward := fun m _ => m;
  optimizer_step := fun m o => (m + 1, o + 1);
  model_state_dict := fun m => m;
  optimizer_state_dict := fun o => o;
  model_load_state_dict := fun _ s => if s <? 0 then Raise RuntimeError else Ok s;
  optimizer_load_state_dict := fun _ s => if s <? 0 then Raise RuntimeError else Ok s |}.

Definition trainer : BertTrainer :=
  {| model := 0; optimizer := 0; batch_size := 2;
     checkpoint_dir := Some "ckpt"; epochs := 5; current_epoch := 0;
     _splitter_size := 35; _ds_len := 8; _batched_len := 4;
     _print_every := 2; _accuracy_every := 4 |}.

(** A world with two checkpoints of epoch 3: one whose model state is
    rejected, one whose optimizer state is. *)
Definition world : World :=
  {| self := trainer; loader_passes := 0; clock_reads := 0;
     fs := {[ "ckpt/bad_model.pt" :=
                {| ck_epoch := 3; ck_model_state_dict := -1;
                   ck_optimizer_state_dict := 7; ck_loss := Toy.f32 4 |};
              "ckpt/bad_optimizer.pt" :=
                {| ck_epoch := 3; ck_model_state_dict := 7;
                   ck_optimizer_state_dict := -1; ck_loss := Toy.f32 4 |} ]};
     trace := [] |}.

End Picky.

(** A float that is not negative: a zero, a finite value or an infinity
    with the sign bit clear. *)
Definition nonneg_float (x : spec_float) : Prop :=
  match x with
  | S754_zero s | S754_infinity s | S754_finite s _ _ => s = false
  | S754_nan => False
  end.

(** A string in which the character [c] does not occur. *)
Fixpoint avoids (c : ascii) (s : string) : Prop :=
  match s with
  | EmptyString => True
  | String a s' => a <> c /\ avoids c s'
  end.

(** ** Inputs of unusual shapes, for examples *)

Module Odd.

(** Predictions over no class at all. *)
Definition no_class_token_ : Torch.tensor3 Py.f32 :=
  Torch.Tensor3 2 3 0 (fun _ _ _ => Toy.f32 0).

Definition no_class_nsp_ : Torch.tensor2 Py.f32 :=
  Torch.Tensor2 2 0 (fun _ _ => Toy.f32 0).

(** Targets one position shorter than the mask of [Toy]. *)
Definition short_target_ : Torch.tensor2 Z := Torch.Tensor2 2 2 (fun _ _ => 0).

(** Predictions one position longer than the mask of [Toy]. *)
Definition long_token_ : Torch.tensor3 Py.f32 :=
  Torch.Tensor3 2 4 2 (fun _ _ _ => Toy.f32 0).

(** One row and three rows, each scoring class 0 highest. *)
Definition one_row_nsp_ : Torch.tensor2 Py.f32 :=
  Torch.Tensor2 1 2 (fun _ j => if (j =? 0)%nat then Toy.f32 1 else Toy.f32 0).

Definition three_rows_nsp_ : Torch.tensor2 Py.f32 :=
  Torch.Tensor2 3 2 (fun _ j => if (j =? 0)%nat then Toy.f32 2 else Toy.f32 1).

End Odd.

(** [3.0]. *)
Definition f64_3 : Py.f64 := S754_finite false 6755399441055744 (-51).

(** Two sizes that cannot be broadcast together: they differ and neither
    is 1. *)
Definition clash (a b : nat) : Prop := a <> b /\ a <> 1%nat /\ b <> 1%nat.

Section RunFilesDefs.
Context `{Environment}.

(** The file an event writes: its path and the epoch of its record. *)
Definition saved_file (ev : event) : option (string * Z) :=
  match ev with
  | TorchSave path obj => Some (path, ck_epoch obj)
  | _ => None
  end.

(** The files [__call__] writes into [dir] for the epochs [es], the clock
    having been read [reads] times before: one an epoch, named for the
    epoch, for step -1 and for the next reading of the clock. *)
Fixpoint run_files (dir : string) (reads : nat) (es : list Z) : list (string * Z) :=
  match es with
  | [] => []
  | e :: es' =>
      (dir +:+ "/bert_epoch" +:+ pretty e +:+ "_step-1_" +:+ pretty (clock reads) +:+ ".pt", e)
        :: run_files dir (S reads) es'
  end.

End RunFilesDefs.

(** * Facts about IEEE rounding *)

Module IEEEFacts.
Import IEEE.

Lemma digits2_pos_size (p : positive) : digits2_pos p = Pos.size p.
Proof. induction p; simpl; congruence. Qed.

Lemma Zdigits2_log2 (z : Z) : 0 < z -> Zdigits2 z = Z.log2 z + 1.
Proof.
  destruct z as [|p|p]; try lia. intros _. simpl. rewrite digits2_pos_size.
  destruct p; simpl; try rewrite Pos2Z.inj_succ; lia.
Qed.

Lemma Zdigits2_spec (z : Z) : 0 < z -> 2 ^ (Zdigits2 z - 1) <= z < 2 ^ Zdigits2 z.
Proof.
  intros Hz. rewrite Zdigits2_log2 by assumption.
  replace (Z.log2 z + 1 - 1) with (Z.log2 z) by lia.
  replace (Z.log2 z + 1) with (Z.succ (Z.log2 z)) by lia.
  apply Z.log2_spec; assumption.
Qed.

Lemma Zdigits2_unique (z g : Z) : 2 ^ (g - 1) <= z < 2 ^ g -> 0 < z -> Zdigits2 z = g.
Proof.
  intros H Hz. rewrite Zdigits2_log2 by assumption.
  assert (0 < g).
  { destruct (Z.le_gt_cases g 0) as [Hg|Hg]; [|assumption].
    assert (2 ^ g <= 2 ^ 0) by (destruct (Z.eq_dec g 0) as [->|]; [lia|rewrite Z.pow_neg_r by lia; simpl; lia]).
    simpl in *. lia. }
  rewrite (Z.log2_unique z (g - 1)); try lia.
  replace (Z.succ (g - 1)) with g by lia. assumption.
Qed.

Lemma Zdigits2_nonneg z : 0 <= Zdigits2 z.
Proof. destruct z; simpl; lia. Qed.

Lemma Zdigits2_pos z : 0 < z -> 0 < Zdigits2 z.
Proof. destruct z; simpl; lia. Qed.

Lemma Zdigits2_le (a b : Z) : 0 <= a <= b -> Zdigits2 a <= Zdigits2 b.
Proof.
  intros [Ha Hab]. destruct (Z.eq_dec a 0) as [->|Hne].
  - apply Zdigits2_nonneg.
  - rewrite !Zdigits2_log2 by lia. pose proof (Z.log2_le_mono a b Hab). lia.
Qed.

Lemma loc_of_rec_of N D : loc_of_shr_record (rec_of N D) = loc_of N D.
Proof. unfold rec_of. destruct (loc_of N D) as [|[]]; reflexivity. Qed.

Lemma shr_m_rec_of N D : shr_m (rec_of N D) = N / D.
Proof. unfold rec_of. destruct (loc_of N D) as [|[]]; reflexivity. Qed.

Lemma shr_1_spec (m : Z) (r s : bool) : 0 <= m ->
  shr_1 {| shr_m := m; shr_r := r; shr_s := s |} =
  {| shr_m := m / 2; shr_r := Z.odd m; shr_s := r || s |}.
Proof.
  intros Hm. destruct m as [|p|p]; try lia; [reflexivity|].
  destruct p as [p|p|]; simpl shr_1.
  - f_equal. rewrite Pos2Z.inj_xI. apply (Z.div_unique_pos _ _ _ 1); lia.
  - f_equal. rewrite Pos2Z.inj_xO. apply (Z.div_unique_pos _ _ _ 0); lia.
  - reflexivity.
Qed.

Lemma shr_1_rec_of (N D : Z) : 0 <= N -> 0 < D -> shr_1 (rec_of N D) = rec_of N (2 * D).
Proof.
  intros HN HD.
  pose proof (Z.div_mod N D ltac:(lia)) as E.
  pose proof (Z.mod_pos_bound N D HD) as B.
  assert (Hq : 0 <= N / D) by (apply Z.div_pos; lia).
  pose proof (Z.div_mod (N / D) 2 ltac:(lia)) as E2.
  pose proof (Z.mod_pos_bound (N / D) 2 ltac:(lia)) as B2.
  assert (Hdiv : N / (2 * D) = N / D / 2).
  { rewrite (Z.mul_comm 2 D). rewrite Z.div_div by lia. reflexivity. }
  assert (Hmod : N mod (2 * D) = D * ((N / D) mod 2) + N mod D).
  { rewrite (Z.mul_comm 2 D). rewrite Z.rem_mul_r by lia. lia. }
  assert (Hodd : Z.odd (N / D) = negb ((N / D) mod 2 =? 0)).
  { rewrite Zmod_odd. destruct (Z.odd (N / D)); reflexivity. }
  unfold rec_of at 1.
  assert (Hshr : forall l, shr_1 (shr_record_of_loc (N / D) l) =
     {| shr_m := N / D / 2; shr_r := Z.odd (N / D);
        shr_s := match l with loc_Exact => false | _ => true end |}).
  { intros [|[]]; simpl shr_record_of_loc; rewrite shr_1_spec by assumption; reflexivity. }
  rewrite Hshr. unfold rec_of, loc_of. rewrite Hdiv, Hmod, Hodd.
  destruct (Z.eqb_spec ((N / D) mod 2) 0) as [He|He].
  - rewrite He. replace (D * 0 + N mod D) with (N mod D) by lia.
    destruct (Z.eqb_spec (N mod D) 0) as [Hr|Hr]; simpl.
    + reflexivity.
    + assert (Hc : (2 * (N mod D) ?= 2 * D) = Lt) by (apply Z.compare_lt_iff; lia).
      rewrite Hc. reflexivity.
  - assert (Hm1 : (N / D) mod 2 = 1) by lia. rewrite Hm1.
    destruct (Z.eqb_spec (D * 1 + N mod D) 0) as [Hz|Hz]; [lia|]. simpl.
    destruct (Z.eqb_spec (N mod D) 0) as [Hr|Hr].
    + assert (Hc : (2 * (D * 1 + N mod D) ?= 2 * D) = Eq) by (apply Z.compare_eq_iff; lia).
      rewrite Hc. reflexivity.
    + assert (Hc : (2 * (D * 1 + N mod D) ?= 2 * D) = Gt) by (apply Z.compare_gt_iff; lia).
      rewrite Hc. reflexivity.
Qed.

Lemma pow2_xO (p : positive) : 2 ^ Zpos p~0 = 2 ^ Zpos p * 2 ^ Zpos p.
Proof. rewrite Pos2Z.inj_xO, <- Z.pow_add_r by lia. f_equal. lia. Qed.

Lemma pow2_xI (p : positive) : 2 ^ Zpos p~1 = 2 * (2 ^ Zpos p * 2 ^ Zpos p).
Proof.
  rewrite Pos2Z.inj_xI, Z.pow_add_r, Z.pow_1_r by lia.
  change (2 * Z.pos p) with (Zpos p~0). rewrite pow2_xO. lia.
Qed.

Lemma iter_pos_shr_1 (p : positive) : forall N D, 0 <= N -> 0 < D ->
  SpecFloat.iter_pos shr_1 p (rec_of N D) = rec_of N (D * 2 ^ Zpos p).
Proof.
  induction p as [p IH|p IH|]; intros N D HN HD; simpl SpecFloat.iter_pos.
  - assert (0 < 2 ^ Z.pos p) by (apply Z.pow_pos_nonneg; lia).
    rewrite shr_1_rec_of, IH, IH by (try assumption; nia).
    f_equal. rewrite pow2_xI. lia.
  - assert (0 < 2 ^ Z.pos p) by (apply Z.pow_pos_nonneg; lia).
    rewrite IH, IH by (try assumption; nia).
    f_equal. rewrite pow2_xO. lia.
  - rewrite shr_1_rec_of by assumption. f_equal. change (2 ^ 1) with 2. lia.
Qed.

Lemma round_nearest_even_rec_of (N D : Z) : 0 < D ->
  round_nearest_even (N / D) (loc_of N D) = Py.rne_div N D.
Proof.
  intros HD. unfold loc_of, Py.rne_div, round_nearest_even.
  pose proof (Z.mod_pos_bound N D HD) as B.
  destruct (Z.eqb_spec (N mod D) 0) as [Hr|Hr].
  - rewrite Hr. assert (Hc : (2 * 0 ?= D) = Lt) by (apply Z.compare_lt_iff; lia).
    rewrite Hc. reflexivity.
  - destruct (2 * (N mod D) ?= D); reflexivity.
Qed.

(** ** Rounding an integer quotient *)

Lemma rne_div_spec (a b : Z) : 0 < b ->
  let r := Py.rne_div a b in
  2 * r * b - b <= 2 * a <= 2 * r * b + b /\
  (2 * a = 2 * r * b + b -> Z.even r = true) /\
  (2 * a = 2 * r * b - b -> Z.even r = true).
Proof.
  intros Hb. unfold Py.rne_div.
  pose proof (Z.div_mod a b ltac:(lia)) as E.
  pose proof (Z.mod_pos_bound a b Hb) as B.
  set (q := a / b) in *. set (m := a mod b) in *.
  destruct (Z.compare_spec (2 * m) b) as [Hc|Hc|Hc]; cbv zeta.
  - destruct (Z.even q) eqn:Hev.
    + split; [nia|]. split; intros Hx; [assumption|nia].
    + split; [nia|]. split; intros Hx; [nia|].
      rewrite Z.even_add, Hev. reflexivity.
  - split; [nia|]. split; intros Hx; nia.
  - split; [nia|]. split; intros Hx; nia.
Qed.

Lemma rne_div_mono (a b c d : Z) : 0 < b -> 0 < d -> a * d <= c * b ->
  Py.rne_div a b <= Py.rne_div c d.
Proof.
  intros Hb Hd H.
  destruct (rne_div_spec a b Hb) as [[L1 U1] [E1 E1']].
  destruct (rne_div_spec c d Hd) as [[L2 U2] [E2 E2']].
  set (r1 := Py.rne_div a b) in *. set (r2 := Py.rne_div c d) in *.
  destruct (Z.le_gt_cases r1 r2) as [|Hgt]; [assumption|exfalso].
  assert (H1 : (2 * r2 + 1) * (b * d) <= 2 * a * d) by nia.
  assert (H2 : 2 * c * b <= (2 * r2 + 1) * (b * d)) by nia.
  assert (H3 : 2 * a * d = (2 * r2 + 1) * (b * d)) by nia.
  assert (H4 : 2 * c * b = (2 * r2 + 1) * (b * d)) by nia.
  assert (H5 : 2 * a = (2 * r2 + 1) * b) by nia.
  assert (H6 : 2 * c = (2 * r2 + 1) * d) by nia.
  assert (H7 : r1 = r2 + 1) by nia.
  assert (Ev2 : Z.even r2 = true) by (apply E2; nia).
  assert (Ev1 : Z.even r1 = true) by (apply E1'; nia).
  rewrite H7, Z.even_add, Ev2 in Ev1. discriminate.
Qed.

Lemma rne_div_exact (a b : Z) : 0 < b -> Py.rne_div (a * b) b = a.
Proof.
  intros Hb. unfold Py.rne_div. rewrite Z.mod_mul, Z.div_mul by lia.
  assert (Hc : (2 * 0 ?= b) = Lt) by (apply Z.compare_lt_iff; lia).
  rewrite Hc. reflexivity.
Qed.

Lemma rne_div_scale (a b c : Z) : 0 < b -> 0 < c -> Py.rne_div (a * c) (b * c) = Py.rne_div a b.
Proof.
  intros Hb Hc. apply Z.le_antisymm; apply rne_div_mono; nia.
Qed.

Lemma rne_div_lower (a b l : Z) : 0 < b -> l * b <= a -> l <= Py.rne_div a b.
Proof.
  intros Hb H. rewrite <- (rne_div_exact l b Hb). apply rne_div_mono; nia.
Qed.

Lemma rne_div_upper (a b u : Z) : 0 < b -> a <= u * b -> Py.rne_div a b <= u.
Proof.
  intros Hb H. rewrite <- (rne_div_exact u b Hb). apply rne_div_mono; nia.
Qed.

(** ** digits *)

Lemma Zdigits2_pow2 (k : Z) : 0 <= k -> Zdigits2 (2 ^ k) = k + 1.
Proof.
  intros Hk. apply Zdigits2_unique.
  - replace (k + 1 - 1) with k by lia. split; [lia|].
    apply Z.pow_lt_mono_r; lia.
  - apply Z.pow_pos_nonneg; lia.
Qed.

Lemma Zdigits2_mul_pow2 (m t : Z) : 0 < m -> 0 <= t -> Zdigits2 (m * 2 ^ t) = Zdigits2 m + t.
Proof.
  intros Hm Ht. pose proof (Zdigits2_spec m Hm) as [L U].
  pose proof (Zdigits2_pos m Hm) as Hg.
  assert (Hp : 0 < 2 ^ t) by (apply Z.pow_pos_nonneg; lia).
  apply Zdigits2_unique; [|nia].
  replace (Zdigits2 m + t - 1) with (Zdigits2 m - 1 + t) by lia.
  rewrite !Z.pow_add_r by lia. nia.
Qed.

Lemma Zdigits2_lt_pow2 (m g : Z) : 0 <= m -> 0 <= g -> m < 2 ^ g -> Zdigits2 m <= g.
Proof.
  intros Hm Hg H. destruct (Z.eq_dec m 0) as [->|Hne]; [simpl; lia|].
  pose proof (Zdigits2_spec m ltac:(lia)) as [L U].
  destruct (Z.le_gt_cases (Zdigits2 m) g) as [|Hgt]; [assumption|exfalso].
  assert (2 ^ g <= 2 ^ (Zdigits2 m - 1)) by (apply Z.pow_le_mono_r; lia). lia.
Qed.

Lemma Zdigits2_ge_pow2 (m g : Z) : 2 ^ (g - 1) <= m -> 0 < g -> g <= Zdigits2 m.
Proof.
  intros H Hg.
  assert (0 < 2 ^ (g - 1)) by (apply Z.pow_pos_nonneg; lia).
  pose proof (Zdigits2_spec m ltac:(lia)) as [L U].
  destruct (Z.le_gt_cases g (Zdigits2 m)) as [|Hgt]; [assumption|exfalso].
  assert (2 ^ (Zdigits2 m) <= 2 ^ (g - 1)) by (apply Z.pow_le_mono_r; lia). lia.
Qed.

Lemma Zdigits2_div_pow2 (m j : Z) : 0 <= m -> 0 <= j ->
  Zdigits2 (m / 2 ^ j) = Z.max 0 (Zdigits2 m - j).
Proof.
  intros Hm Hj.
  assert (Hp : 0 < 2 ^ j) by (apply Z.pow_pos_nonneg; lia).
  destruct (Z.eq_dec m 0) as [->|Hne].
  { rewrite Z.div_0_l by lia. simpl. lia. }
  pose proof (Zdigits2_spec m ltac:(lia)) as [L U].
  pose proof (Zdigits2_pos m ltac:(lia)) as Hg.
  destruct (Z.le_gt_cases (Zdigits2 m) j) as [Hle|Hgt].
  - assert (m < 2 ^ j).
    { assert (2 ^ Zdigits2 m <= 2 ^ j) by (apply Z.pow_le_mono_r; lia). lia. }
    rewrite Z.div_small by lia. simpl. lia.
  - rewrite Z.max_r by lia.
    assert (E : 2 ^ (Zdigits2 m - 1) = 2 ^ (Zdigits2 m - j - 1) * 2 ^ j).
    { rewrite <- Z.pow_add_r by lia. f_equal. lia. }
    assert (E' : 2 ^ (Zdigits2 m) = 2 ^ (Zdigits2 m - j) * 2 ^ j).
    { rewrite <- Z.pow_add_r by lia. f_equal. lia. }
    assert (Hlow : 2 ^ (Zdigits2 m - j - 1) <= m / 2 ^ j).
    { apply Z.div_le_lower_bound; lia. }
    assert (Hup : m / 2 ^ j < 2 ^ (Zdigits2 m - j)).
    { apply Z.div_lt_upper_bound; lia. }
    assert (0 < 2 ^ (Zdigits2 m - j - 1)) by (apply Z.pow_pos_nonneg; lia).
    apply Zdigits2_unique; [|lia]. split; assumption.
Qed.

Lemma Zdigits2_mul_pow2_div (N D j : Z) : 0 < D -> 0 < N / D -> 0 <= j ->
  Zdigits2 (N * 2 ^ j / D) = Zdigits2 (N / D) + j.
Proof.
  intros HD Hq Hj.
  assert (Hp : 0 < 2 ^ j) by (apply Z.pow_pos_nonneg; lia).
  pose proof (Zdigits2_spec (N / D) Hq) as [L U].
  pose proof (Zdigits2_pos (N / D) Hq) as Hg.
  pose proof (Z.div_mod N D ltac:(lia)) as E.
  pose proof (Z.mod_pos_bound N D HD) as B.
  set (g := Zdigits2 (N / D)) in *.
  assert (E1 : 2 ^ (g + j - 1) = 2 ^ (g - 1) * 2 ^ j).
  { rewrite <- Z.pow_add_r by lia. f_equal. lia. }
  assert (E2 : 2 ^ (g + j) = 2 ^ g * 2 ^ j).
  { rewrite <- Z.pow_add_r by lia. reflexivity. }
  assert (Hlow : 2 ^ (g + j - 1) <= N * 2 ^ j / D).
  { apply Z.div_le_lower_bound; [lia|]. rewrite E1. nia. }
  assert (Hup : N * 2 ^ j / D < 2 ^ (g + j)).
  { apply Z.div_lt_upper_bound; [lia|]. rewrite E2. nia. }
  assert (0 < 2 ^ (g + j - 1)) by (apply Z.pow_pos_nonneg; lia).
  apply Zdigits2_unique; [|lia]. split; assumption.
Qed.

(** ** binary_round_aux *)

Section Rounding.
Variables prec emax : Z.
Hypothesis Hprec : 0 < prec.

Lemma shr_rec_of (N D e k : Z) : 0 <= N -> 0 < D ->
  shr (rec_of N D) e k = (rec_of N (D * 2 ^ Z.max 0 k), e + Z.max 0 k).
Proof.
  intros HN HD. destruct k as [|p|p]; simpl shr.
  - simpl. rewrite Z.mul_1_r, Z.add_0_r. reflexivity.
  - rewrite iter_pos_shr_1 by assumption. rewrite Z.max_r by lia. reflexivity.
  - rewrite Z.max_l by lia. simpl. rewrite Z.mul_1_r, Z.add_0_r. reflexivity.
Qed.

Lemma binary_round_aux_closed (s : bool) (N D e : Z) : 0 <= N -> 0 < D ->
  binary_round_aux prec emax s (N / D) e (loc_of N D) =
  let k1 := Z.max 0 (fexp prec emax (Zdigits2 (N / D) + e) - e) in
  let m1 := Py.rne_div N (D * 2 ^ k1) in
  let e1 := e + k1 in
  let k2 := Z.max 0 (fexp prec emax (Zdigits2 m1 + e1) - e1) in
  match m1 / 2 ^ k2 with
  | Z0 => S754_zero s
  | Zpos m => if e1 + k2 <=? emax - prec then S754_finite s m (e1 + k2)
              else S754_infinity s
  | Zneg _ => S754_nan
  end.
Proof using Hprec.
  intros HN HD. unfold binary_round_aux, shr_fexp.
  change (shr_record_of_loc (N / D) (loc_of N D)) with (rec_of N D).
  rewrite shr_rec_of by assumption.
  set (k1 := Z.max 0 (fexp prec emax (Zdigits2 (N / D) + e) - e)).
  assert (Hk1 : 0 < D * 2 ^ k1).
  { apply Z.mul_pos_pos; [assumption|apply Z.pow_pos_nonneg; lia]. }
  rewrite loc_of_rec_of, shr_m_rec_of, round_nearest_even_rec_of by assumption.
  set (m1 := Py.rne_div N (D * 2 ^ k1)).
  assert (Hm1 : 0 <= m1) by (apply rne_div_lower; [assumption|lia]).
  assert (Hrec : shr_record_of_loc m1 loc_Exact = rec_of m1 1).
  { unfold rec_of, loc_of. rewrite Z.div_1_r, Z.mod_1_r. reflexivity. }
  rewrite Hrec, shr_rec_of by lia. rewrite shr_m_rec_of, Z.mul_1_l.
  cbv zeta. reflexivity.
Qed.

Lemma rnd_mant_upper (N D : Z) : 0 <= N -> 0 < D ->
  Py.rne_div N (D * 2 ^ rexp prec N D) <= 2 ^ prec.
Proof using Hprec.
  intros HN HD. unfold rexp. set (q := N / D). set (t := Z.max 0 (Zdigits2 q - prec)).
  assert (Ht : 0 <= t) by lia.
  assert (Hpt : 0 < 2 ^ t) by (apply Z.pow_pos_nonneg; lia).
  assert (Hq : 0 <= q) by (apply Z.div_pos; lia).
  assert (Hlt : q < 2 ^ (prec + t)).
  { destruct (Z.eq_dec q 0) as [E|E].
    - rewrite E. apply Z.pow_pos_nonneg; lia.
    - pose proof (Zdigits2_spec q ltac:(lia)) as [_ U].
      assert (2 ^ Zdigits2 q <= 2 ^ (prec + t)) by (apply Z.pow_le_mono_r; lia). lia. }
  apply rne_div_upper; [nia|].
  rewrite Z.pow_add_r in Hlt by lia.
  pose proof (Z.div_mod N D ltac:(lia)) as E.
  pose proof (Z.mod_pos_bound N D HD) as B. fold q in E.
  nia.
Qed.

Lemma rnd_mant_lower (N D : Z) : 0 <= N -> 0 < D -> 0 < rexp prec N D ->
  2 ^ (prec - 1) <= Py.rne_div N (D * 2 ^ rexp prec N D).
Proof using Hprec.
  intros HN HD. unfold rexp. set (q := N / D). set (t := Z.max 0 (Zdigits2 q - prec)).
  intros Ht.
  assert (Hpt : 0 < 2 ^ t) by (apply Z.pow_pos_nonneg; lia).
  assert (Hq : 0 < q).
  { destruct (Z.lt_total 0 q) as [|[E|E]]; [assumption| |].
    - subst t. rewrite <- E in Ht. simpl in Ht. lia.
    - assert (0 <= q) by (apply Z.div_pos; lia). lia. }
  pose proof (Zdigits2_spec q Hq) as [L _].
  replace (Zdigits2 q - 1) with (prec - 1 + t) in L by lia.
  rewrite Z.pow_add_r in L by lia.
  apply rne_div_lower; [nia|].
  pose proof (Z.div_mod N D ltac:(lia)) as E.
  pose proof (Z.mod_pos_bound N D HD) as B. fold q in E.
  assert (0 < 2 ^ (prec - 1)) by (apply Z.pow_pos_nonneg; lia).
  nia.
Qed.

Lemma rnd_mant_nonneg (N D : Z) : 0 <= N -> 0 < D ->
  0 <= Py.rne_div N (D * 2 ^ rexp prec N D).
Proof using Hprec.
  intros HN HD. apply rne_div_lower; [|lia].
  apply Z.mul_pos_pos; [assumption|apply Z.pow_pos_nonneg; unfold rexp; lia].
Qed.

(** The float of mantissa [m1] at exponent [emin + t], as the second
    shift of [binary_round_aux] leaves it, is the encoding of its value. *)
Lemma encode_mant (s : bool) (m1 t : Z) :
  0 <= m1 <= 2 ^ prec -> 0 <= t -> (0 < t -> 2 ^ (prec - 1) <= m1) ->
  let e1 := emin prec emax + t in
  let k2 := Z.max 0 (fexp prec emax (Zdigits2 m1 + e1) - e1) in
  match m1 / 2 ^ k2 with
  | Z0 => S754_zero s
  | Zpos m => if e1 + k2 <=? emax - prec then S754_finite s m (e1 + k2)
              else S754_infinity s
  | Zneg _ => S754_nan
  end = encode_float prec emax s (m1 * 2 ^ t).
Proof using Hprec.
  intros [Hm0 Hm1] Ht Hnorm. cbv zeta. unfold encode_float, fexp.
  assert (Hpt : 0 < 2 ^ t) by (apply Z.pow_pos_nonneg; lia).
  assert (Hpp : 0 < 2 ^ (prec - 1)) by (apply Z.pow_pos_nonneg; lia).
  assert (Epp : 2 ^ prec = 2 * 2 ^ (prec - 1)).
  { replace prec with (1 + (prec - 1)) at 1 by lia. rewrite Z.pow_add_r by lia. reflexivity. }
  destruct (Z.eq_dec m1 0) as [E0|E0].
  { subst m1. simpl Zdigits2. rewrite Z.mul_0_l. simpl Zdigits2.
    rewrite !Z.div_0_l; [reflexivity| |].
    - apply Z.pow_nonzero; lia.
    - apply Z.pow_nonzero; lia. }
  destruct (Z.eq_dec m1 (2 ^ prec)) as [E1|E1].
  { subst m1. rewrite Zdigits2_mul_pow2 by lia. rewrite Zdigits2_pow2 by lia.
    replace (Z.max 0 (Z.max (prec + 1 + (emin prec emax + t) - prec) (emin prec emax)
                        - (emin prec emax + t))) with 1 by lia.
    replace (Z.max 0 (prec + 1 + t - prec)) with (t + 1) by lia.
    change (2 ^ 1) with 2.
    replace (2 ^ prec / 2) with (2 ^ (prec - 1)).
    2:{ rewrite Epp. rewrite Z.mul_comm, Z.div_mul by lia. reflexivity. }
    replace (2 ^ prec * 2 ^ t / 2 ^ (t + 1)) with (2 ^ (prec - 1)).
    2:{ rewrite Z.pow_add_r by lia. rewrite Epp. change (2 ^ 1) with 2.
        replace (2 * 2 ^ (prec - 1) * 2 ^ t) with (2 ^ (prec - 1) * (2 ^ t * 2)) by lia.
        rewrite Z.div_mul by lia. reflexivity. }
    replace (emin prec emax + t + 1) with (emin prec emax + (t + 1)) by lia.
    destruct (2 ^ (prec - 1)) eqn:Ex; [lia|reflexivity|lia]. }
  assert (Hd : Zdigits2 m1 <= prec) by (apply Zdigits2_lt_pow2; lia).
  assert (Hd' : 0 < t -> Zdigits2 m1 = prec).
  { intros Htp. apply Z.le_antisymm; [assumption|].
    apply Zdigits2_ge_pow2; [auto|lia]. }
  rewrite Zdigits2_mul_pow2 by lia.
  replace (Z.max 0 (Z.max (Zdigits2 m1 + (emin prec emax + t) - prec) (emin prec emax)
                      - (emin prec emax + t))) with 0 by lia.
  replace (Z.max 0 (Zdigits2 m1 + t - prec)) with t by lia.
  rewrite Z.div_mul by lia. rewrite Z.pow_0_r, Z.div_1_r, Z.add_0_r.
  destruct m1; [lia|reflexivity|lia].
Qed.

Lemma round_core (N D e : Z) : 0 <= N -> 0 < D ->
  e <= emin prec emax \/ prec <= Zdigits2 (N / D) ->
  let t := rexp prec (scaleN prec emax N e) (scaleD prec emax D e) in
  Z.max 0 (fexp prec emax (Zdigits2 (N / D) + e) - e) = emin prec emax + t - e /\
  Py.rne_div N (D * 2 ^ (emin prec emax + t - e)) =
  Py.rne_div (scaleN prec emax N e) (scaleD prec emax D e * 2 ^ t).
Proof using Hprec.
  intros HN HD Hpre. cbv zeta. unfold rexp, scaleN, scaleD, fexp.
  set (em := emin prec emax) in *.
  assert (Hq : 0 <= N / D) by (apply Z.div_pos; lia).
  destruct (Z.lt_ge_cases e em) as [Hlt|Hge].
  - rewrite (Z.max_l 0 (e - em)) by lia. rewrite (Z.max_r 0 (em - e)) by lia.
    rewrite Z.pow_0_r, Z.mul_1_r.
    assert (Hp : 0 < 2 ^ (em - e)) by (apply Z.pow_pos_nonneg; lia).
    rewrite <- Z.div_div by lia.
    rewrite Zdigits2_div_pow2 by lia.
    split; [lia|].
    f_equal. rewrite <- Z.mul_assoc, <- Z.pow_add_r by lia. f_equal. f_equal. lia.
  - rewrite (Z.max_r 0 (e - em)) by lia. rewrite (Z.max_l 0 (em - e)) by lia.
    rewrite Z.pow_0_r, Z.mul_1_r.
    assert (Hp : 0 < 2 ^ (e - em)) by (apply Z.pow_pos_nonneg; lia).
    destruct (Z.eq_dec (N / D) 0) as [E0|E0].
    + rewrite E0 in *. simpl Zdigits2 in *. assert (e = em) by lia. subst e.
      rewrite Z.sub_diag, Z.pow_0_r, Z.mul_1_r, E0. simpl Zdigits2.
      split; [lia|]. f_equal. f_equal. f_equal. lia.
    + rewrite Zdigits2_mul_pow2_div by lia.
      split; [lia|].
      set (g := Zdigits2 (N / D)) in *.
      set (t := Z.max 0 (g + (e - em) - prec)).
      assert (Et : t = (em + t - e) + (e - em)) by lia.
      rewrite Et at 2. rewrite Z.pow_add_r by lia.
      rewrite Z.mul_assoc. rewrite rne_div_scale; [reflexivity| |lia].
      apply Z.mul_pos_pos; [lia|apply Z.pow_pos_nonneg; lia].
Qed.

Lemma scaleN_nonneg N e : 0 <= N -> 0 <= scaleN prec emax N e.
Proof using Hprec.
  intros. unfold scaleN.
  assert (0 < 2 ^ Z.max 0 (e - emin prec emax)) by (apply Z.pow_pos_nonneg; lia). nia.
Qed.

Lemma scaleD_pos D e : 0 < D -> 0 < scaleD prec emax D e.
Proof using Hprec.
  intros. unfold scaleD.
  assert (0 < 2 ^ Z.max 0 (emin prec emax - e)) by (apply Z.pow_pos_nonneg; lia). nia.
Qed.

(** [binary_round_aux] rounds the rational [N / D * 2 ^ e] it is given
    (truncated, with the location of the rest) to the nearest float: in
    units of [2 ^ emin], to [Rnd] of it. *)
Theorem binary_round_aux_spec (s : bool) (N D e : Z) : 0 <= N -> 0 < D ->
  e <= emin prec emax \/ prec <= Zdigits2 (N / D) ->
  binary_round_aux prec emax s (N / D) e (loc_of N D) =
  encode_float prec emax s (Rnd prec (scaleN prec emax N e) (scaleD prec emax D e)).
Proof using Hprec.
  intros HN HD Hpre.
  rewrite binary_round_aux_closed by assumption. cbv zeta.
  destruct (round_core N D e HN HD Hpre) as [Ek Em]. cbv zeta in Ek, Em.
  rewrite Ek, Em. unfold Rnd.
  set (N' := scaleN prec emax N e) in *. set (D' := scaleD prec emax D e) in *.
  assert (HN' : 0 <= N') by (apply scaleN_nonneg; assumption).
  assert (HD' : 0 < D') by (apply scaleD_pos; assumption).
  set (t := rexp prec N' D') in *.
  replace (e + (emin prec emax + t - e)) with (emin prec emax + t) by lia.
  apply (encode_mant s (Py.rne_div N' (D' * 2 ^ t)) t).
  - split; [apply rnd_mant_nonneg; assumption|apply rnd_mant_upper; assumption].
  - unfold t, rexp. lia.
  - apply rnd_mant_lower; assumption.
Qed.

(** *** The rounding function on rationals *)

Lemma div_le_cross (N1 D1 N2 D2 : Z) : 0 < D1 -> 0 < D2 ->
  N1 * D2 <= N2 * D1 -> N1 / D1 <= N2 / D2.
Proof using Hprec.
  intros H1 H2 H. apply Z.div_le_lower_bound; [assumption|].
  pose proof (Z.div_mod N1 D1 ltac:(lia)) as E.
  pose proof (Z.mod_pos_bound N1 D1 H1) as B. nia.
Qed.

Lemma Rnd_nonneg (N D : Z) : 0 <= N -> 0 < D -> 0 <= Rnd prec N D.
Proof using Hprec.
  intros HN HD. unfold Rnd.
  pose proof (rnd_mant_nonneg N D HN HD).
  assert (0 < 2 ^ rexp prec N D) by (apply Z.pow_pos_nonneg; unfold rexp; lia). nia.
Qed.

Theorem Rnd_mono (N1 D1 N2 D2 : Z) : 0 <= N1 -> 0 < D1 -> 0 < D2 ->
  N1 * D2 <= N2 * D1 -> Rnd prec N1 D1 <= Rnd prec N2 D2.
Proof using Hprec.
  intros HN1 HD1 HD2 H.
  assert (HN2 : 0 <= N2) by nia.
  pose proof (div_le_cross N1 D1 N2 D2 HD1 HD2 H) as Hq.
  assert (Hq1 : 0 <= N1 / D1) by (apply Z.div_pos; lia).
  assert (Ht : rexp prec N1 D1 <= rexp prec N2 D2).
  { unfold rexp. pose proof (Zdigits2_le (N1 / D1) (N2 / D2) ltac:(lia)). lia. }
  pose proof (rnd_mant_upper N1 D1 HN1 HD1) as U1.
  pose proof (rnd_mant_nonneg N1 D1 HN1 HD1) as L1.
  pose proof (rnd_mant_lower N2 D2 HN2 HD2) as L2.
  unfold Rnd.
  set (t1 := rexp prec N1 D1) in *. set (t2 := rexp prec N2 D2) in *.
  assert (Ht1 : 0 <= t1) by (unfold t1, rexp; lia).
  assert (Hp1 : 0 < 2 ^ t1) by (apply Z.pow_pos_nonneg; lia).
  assert (Hp2 : 0 < 2 ^ t2) by (apply Z.pow_pos_nonneg; lia).
  destruct (Z.eq_dec t1 t2) as [E|E].
  - rewrite <- E. apply Z.mul_le_mono_nonneg_r; [lia|].
    apply rne_div_mono; nia.
  - assert (Hlt : t1 < t2) by lia. specialize (L2 ltac:(lia)).
    assert (Hpp : 0 < 2 ^ (prec - 1)) by (apply Z.pow_pos_nonneg; lia).
    assert (E1 : 2 ^ prec * 2 ^ t1 = 2 ^ (prec + t1)) by (rewrite Z.pow_add_r by lia; reflexivity).
    assert (E2 : 2 ^ (prec - 1) * 2 ^ t2 = 2 ^ (prec - 1 + t2)) by (rewrite Z.pow_add_r by lia; reflexivity).
    assert (Hle : 2 ^ (prec + t1) <= 2 ^ (prec - 1 + t2)) by (apply Z.pow_le_mono_r; lia).
    nia.
Qed.

Lemma Rnd_scale (N D c : Z) : 0 < D -> 0 < c -> Rnd prec (N * c) (D * c) = Rnd prec N D.
Proof using Hprec.
  intros HD Hc. unfold Rnd, rexp. rewrite Z.div_mul_cancel_r by lia.
  set (t := Z.max 0 (Zdigits2 (N / D) - prec)).
  assert (0 < 2 ^ t) by (apply Z.pow_pos_nonneg; lia).
  replace (D * c * 2 ^ t) with (D * 2 ^ t * c) by lia.
  rewrite rne_div_scale by nia. reflexivity.
Qed.

(** Integers of at most [prec] bits, and their multiples by a power of two,
    are not changed. *)
Lemma Rnd_exact (m j : Z) : 0 <= m < 2 ^ prec -> 0 <= j ->
  Rnd prec (m * 2 ^ j) 1 = m * 2 ^ j.
Proof using Hprec.
  intros Hm Hj. unfold Rnd, rexp. rewrite Z.div_1_r, Z.mul_1_l.
  assert (Hpj : 0 < 2 ^ j) by (apply Z.pow_pos_nonneg; lia).
  destruct (Z.eq_dec m 0) as [->|Hne].
  { rewrite Z.mul_0_l. simpl Zdigits2. rewrite Z.max_l by lia.
    rewrite Z.pow_0_r. unfold Py.rne_div. rewrite Z.div_1_r, Z.mod_1_r. reflexivity. }
  rewrite Zdigits2_mul_pow2 by lia.
  assert (Hd : Zdigits2 m <= prec) by (apply Zdigits2_lt_pow2; lia).
  set (t := Z.max 0 (Zdigits2 m + j - prec)).
  assert (Ht : 0 <= t <= j) by lia.
  assert (E : 2 ^ j = 2 ^ (j - t) * 2 ^ t) by (rewrite <- Z.pow_add_r by lia; f_equal; lia).
  rewrite E at 1. rewrite Z.mul_assoc, rne_div_exact by (apply Z.pow_pos_nonneg; lia).
  rewrite E. lia.
Qed.

Lemma Rnd_le_pow2 (N D j : Z) : 0 <= N -> 0 < D -> 0 <= j ->
  N <= 2 ^ j * D -> Rnd prec N D <= 2 ^ j.
Proof using Hprec.
  intros HN HD Hj H.
  assert (E : Rnd prec (1 * 2 ^ j) 1 = 1 * 2 ^ j).
  { apply Rnd_exact; [|assumption]. split; [lia|].
    apply (Z.pow_lt_mono_r 2 0 prec); lia. }
  rewrite Z.mul_1_l in E. rewrite <- E. apply Rnd_mono; lia.
Qed.

Lemma Rnd_ge_pow2 (N D j : Z) : 0 < D -> 0 <= j ->
  2 ^ j * D <= N -> 2 ^ j <= Rnd prec N D.
Proof using Hprec.
  intros HD Hj H.
  assert (E : Rnd prec (1 * 2 ^ j) 1 = 1 * 2 ^ j).
  { apply Rnd_exact; [|assumption]. split; [lia|].
    apply (Z.pow_lt_mono_r 2 0 prec); lia. }
  rewrite Z.mul_1_l in E. rewrite <- E.
  assert (0 < 2 ^ j) by (apply Z.pow_pos_nonneg; lia).
  apply Rnd_mono; lia.
Qed.

(** *** The encoding of a rounded value *)

Lemma Rnd_repr (N D : Z) : 0 <= N -> 0 < D ->
  exists m1 t, Rnd prec N D = m1 * 2 ^ t /\ 0 <= m1 <= 2 ^ prec /\ 0 <= t /\
               (0 < t -> 2 ^ (prec - 1) <= m1).
Proof using Hprec.
  intros HN HD. exists (Py.rne_div N (D * 2 ^ rexp prec N D)), (rexp prec N D).
  split; [reflexivity|]. split; [split|split].
  - apply rnd_mant_nonneg; assumption.
  - apply rnd_mant_upper; assumption.
  - unfold rexp. lia.
  - apply rnd_mant_lower; assumption.
Qed.

Lemma encode_cases (s : bool) (m1 t : Z) :
  0 <= m1 <= 2 ^ prec -> 0 <= t -> (0 < t -> 2 ^ (prec - 1) <= m1) ->
  (m1 = 0 /\ encode_float prec emax s (m1 * 2 ^ t) = S754_zero s) \/
  (exists (m : positive) (e : Z),
      encode_float prec emax s (m1 * 2 ^ t) =
        (if e <=? emax - prec then S754_finite s m e else S754_infinity s) /\
      Zpos m * 2 ^ (e - emin prec emax) = m1 * 2 ^ t /\
      emin prec emax <= e /\
      Zdigits2 (Zpos m) <= prec /\
      (emin prec emax < e -> Zdigits2 (Zpos m) = prec)).
Proof using Hprec.
  intros [Hm0 Hm1] Ht Hnorm. unfold encode_float.
  assert (Hpt : 0 < 2 ^ t) by (apply Z.pow_pos_nonneg; lia).
  assert (Hpp : 0 < 2 ^ (prec - 1)) by (apply Z.pow_pos_nonneg; lia).
  assert (Epp : 2 ^ prec = 2 * 2 ^ (prec - 1)).
  { replace prec with (1 + (prec - 1)) at 1 by lia. rewrite Z.pow_add_r by lia. reflexivity. }
  destruct (Z.eq_dec m1 0) as [E0|E0].
  { left. split; [assumption|]. subst m1. rewrite Z.mul_0_l. simpl Zdigits2.
    rewrite Z.div_0_l; [reflexivity|]. apply Z.pow_nonzero; lia. }
  right.
  destruct (Z.eq_dec m1 (2 ^ prec)) as [E1|E1].
  { subst m1. rewrite Zdigits2_mul_pow2 by lia. rewrite Zdigits2_pow2 by lia.
    replace (Z.max 0 (prec + 1 + t - prec)) with (t + 1) by lia.
    replace (2 ^ prec * 2 ^ t / 2 ^ (t + 1)) with (2 ^ (prec - 1)).
    2:{ rewrite Z.pow_add_r by lia. rewrite Epp. change (2 ^ 1) with 2.
        replace (2 * 2 ^ (prec - 1) * 2 ^ t) with (2 ^ (prec - 1) * (2 ^ t * 2)) by lia.
        rewrite Z.div_mul by lia. reflexivity. }
    destruct (2 ^ (prec - 1)) as [|m|m] eqn:Ex; [lia| |lia].
    exists m, (emin prec emax + (t + 1)). split; [reflexivity|].
    rewrite <- Ex.
    replace (emin prec emax + (t + 1) - emin prec emax) with (t + 1) by lia.
    rewrite Zdigits2_pow2 by lia.
    split; [|lia]. rewrite Z.pow_add_r by lia. change (2 ^ 1) with 2. lia. }
  assert (Hd : Zdigits2 m1 <= prec) by (apply Zdigits2_lt_pow2; lia).
  assert (Hd' : 0 < t -> Zdigits2 m1 = prec).
  { intros Htp. apply Z.le_antisymm; [assumption|].
    apply Zdigits2_ge_pow2; [auto|lia]. }
  rewrite Zdigits2_mul_pow2 by lia.
  replace (Z.max 0 (Zdigits2 m1 + t - prec)) with t by lia.
  rewrite Z.div_mul by lia.
  destruct m1 as [|m|m]; [lia| |lia].
  exists m, (emin prec emax + t). split; [reflexivity|].
  replace (emin prec emax + t - emin prec emax) with t by lia.
  split; [reflexivity|]. split; [lia|]. split; [assumption|]. intros; apply Hd'; lia.
Qed.

(** *** The operations *)

Lemma new_location_loc_of (N D : Z) : 0 < D -> new_location D (N mod D) = loc_of N D.
Proof using Hprec.
  intros HD. pose proof (Z.mod_pos_bound N D HD) as B.
  unfold new_location, new_location_even, new_location_odd, loc_of.
  destruct (Z.even D) eqn:Hev; [reflexivity|].
  destruct (Z.eqb_spec (N mod D) 0) as [E|E]; [reflexivity|].
  assert (Hodd : Z.odd D = true) by (rewrite <- Z.negb_even, Hev; reflexivity).
  apply Z.odd_spec in Hodd. destruct Hodd as [k Hk].
  f_equal.
  destruct (Z.compare_spec (2 * (N mod D) + 1) D) as [H|H|H];
    symmetry; [apply Z.compare_lt_iff|apply Z.compare_lt_iff|apply Z.compare_gt_iff]; lia.
Qed.

Lemma div_shift_spec (m1 s0 : Z) : 0 <= s0 ->
  match s0 with
  | Zpos _ => Z.shiftl m1 s0
  | Z0 => m1
  | Zneg _ => 0
  end = m1 * 2 ^ s0.
Proof using Hprec.
  intros H. destruct s0 as [|p|p]; [simpl; lia| |lia].
  apply Z.shiftl_mul_pow2. lia.
Qed.

Theorem SFdiv_finite_spec (s1 s2 : bool) (m1 m2 : positive) (e1 e2 : Z) :
  SFdiv prec emax (S754_finite s1 m1 e1) (S754_finite s2 m2 e2) =
  encode_float prec emax (xorb s1 s2)
    (Rnd prec (scaleN prec emax (Zpos m1) (e1 - e2)) (scaleD prec emax (Zpos m2) (e1 - e2))).
Proof using Hprec.
  unfold SFdiv, SFdiv_core_binary.
  set (d1 := Zdigits2 (Zpos m1)). set (d2 := Zdigits2 (Zpos m2)).
  set (e' := Z.min (fexp prec emax (d1 + e1 - (d2 + e2))) (e1 - e2)).
  assert (Hs : 0 <= e1 - e2 - e') by lia.
  rewrite (div_shift_spec (Zpos m1) (e1 - e2 - e') Hs).
  set (sh := e1 - e2 - e') in *.
  assert (Hps : 0 < 2 ^ sh) by (apply Z.pow_pos_nonneg; lia).
  set (N := Zpos m1 * 2 ^ sh).
  destruct (Z.div_eucl N (Zpos m2)) as [q r] eqn:Eqr.
  assert (Eq : q = N / Zpos m2) by (unfold Z.div; rewrite Eqr; reflexivity).
  assert (Er : r = N mod Zpos m2) by (unfold Z.modulo; rewrite Eqr; reflexivity).
  subst q r. rewrite new_location_loc_of by lia.
  assert (HN : 0 <= N) by (unfold N; nia).
  pose proof (Zdigits2_spec (Zpos m1) ltac:(lia)) as [L1 U1].
  pose proof (Zdigits2_spec (Zpos m2) ltac:(lia)) as [L2 U2].
  pose proof (Zdigits2_pos (Zpos m1) ltac:(lia)) as P1.
  pose proof (Zdigits2_pos (Zpos m2) ltac:(lia)) as P2.
  fold d1 in L1, U1, P1. fold d2 in L2, U2, P2.
  rewrite binary_round_aux_spec; [|assumption|lia|].
  - f_equal. unfold scaleN, scaleD, N.
    assert (Hfe : emin prec emax <= fexp prec emax (d1 + e1 - (d2 + e2))) by (unfold fexp; lia).
    destruct (Z.le_gt_cases (emin prec emax) (e1 - e2)) as [Hge|Hlt].
    + replace (Z.max 0 (emin prec emax - e')) with 0 by lia.
      replace (Z.max 0 (emin prec emax - (e1 - e2))) with 0 by lia.
      f_equal. rewrite <- Z.mul_assoc, <- Z.pow_add_r by lia. f_equal. f_equal. lia.
    + assert (e' = e1 - e2) by lia.
      assert (sh = 0) by lia.
      replace (2 ^ sh) with 1 by (replace sh with 0 by lia; reflexivity).
      rewrite Z.mul_1_r. replace e' with (e1 - e2) by lia. reflexivity.
  - destruct (Z.eq_dec e' (emin prec emax)) as [E|E]; [left; lia|].
    destruct (Z.le_gt_cases e' (emin prec emax)) as [Hle|Hgt]; [left; assumption|right].
    apply Zdigits2_ge_pow2; [|lia].
    apply Z.div_le_lower_bound; [lia|].
    assert (Hsh : prec - (d1 - d2) <= sh) by (unfold sh, e', fexp in *; lia).
    assert (Hpow : 2 ^ (prec - 1 + d2) <= 2 ^ (d1 - 1 + sh)) by (apply Z.pow_le_mono_r; lia).
    rewrite Z.pow_add_r in Hpow by lia.
    rewrite (Z.pow_add_r 2 (d1 - 1) sh) in Hpow by lia.
    assert (0 < 2 ^ (prec - 1)) by (apply Z.pow_pos_nonneg; lia).
    unfold N. nia.
Qed.

Theorem SFmul_finite_spec (s1 s2 : bool) (m1 m2 : positive) (e1 e2 : Z) :
  e1 + e2 <= emin prec emax \/ prec <= Zdigits2 (Zpos (m1 * m2)) ->
  SFmul prec emax (S754_finite s1 m1 e1) (S754_finite s2 m2 e2) =
  encode_float prec emax (xorb s1 s2)
    (Rnd prec (scaleN prec emax (Zpos (m1 * m2)) (e1 + e2)) (scaleD prec emax 1 (e1 + e2))).
Proof using Hprec.
  intros Hpre. unfold SFmul.
  assert (E : loc_Exact = loc_of (Zpos (m1 * m2)) 1).
  { unfold loc_of. rewrite Z.mod_1_r. reflexivity. }
  rewrite E. rewrite <- (Z.div_1_r (Zpos (m1 * m2))) at 1.
  apply binary_round_aux_spec; [lia|lia|].
  rewrite Z.div_1_r. assumption.
Qed.

Lemma iter_xO_spec (d m : positive) : Zpos (Pos.iter xO m d) = Zpos m * 2 ^ Zpos d.
Proof using Hprec.
  induction d as [|d IH] using Pos.peano_ind.
  - simpl. rewrite Pos2Z.inj_xO. change (2 ^ 1) with 2. lia.
  - rewrite Pos.iter_succ, Pos2Z.inj_xO, IH, Pos2Z.inj_succ, Z.pow_succ_r by lia. lia.
Qed.

Theorem binary_round_spec (s : bool) (m : positive) (e : Z) :
  binary_round prec emax s m e =
  encode_float prec emax s (Rnd prec (scaleN prec emax (Zpos m) e) (scaleD prec emax 1 e)).
Proof using Hprec.
  unfold binary_round, shl_align.
  pose proof (Zdigits2_pos (Zpos m) ltac:(lia)) as P1.
  change (Zpos (digits2_pos m)) with (Zdigits2 (Zpos m)).
  set (g := Zdigits2 (Zpos m)) in *.
  assert (E : forall N, loc_Exact = loc_of N 1).
  { intros N. unfold loc_of. rewrite Z.mod_1_r. reflexivity. }
  destruct (fexp prec emax (g + e) - e) as [|d|d] eqn:Ed.
  - rewrite (E (Zpos m)). rewrite <- (Z.div_1_r (Zpos m)) at 1.
    apply binary_round_aux_spec; [lia|lia|]. rewrite Z.div_1_r. fold g.
    unfold fexp in Ed. lia.
  - rewrite (E (Zpos m)). rewrite <- (Z.div_1_r (Zpos m)) at 1.
    apply binary_round_aux_spec; [lia|lia|]. rewrite Z.div_1_r. fold g.
    unfold fexp in Ed. lia.
  - rewrite (E (Zpos (Pos.iter xO m d))).
    rewrite <- (Z.div_1_r (Zpos (Pos.iter xO m d))) at 1.
    rewrite binary_round_aux_spec; [|lia|lia|].
    + f_equal. rewrite iter_xO_spec. unfold scaleN, scaleD.
      assert (Hfe : emin prec emax <= fexp prec emax (g + e)) by (unfold fexp; lia).
      replace (Z.max 0 (emin prec emax - fexp prec emax (g + e))) with 0 by lia.
      replace (Z.max 0 (emin prec emax - e)) with 0 by lia.
      f_equal. rewrite <- Z.mul_assoc, <- Z.pow_add_r by lia. f_equal. f_equal. lia.
    + rewrite Z.div_1_r, iter_xO_spec. rewrite Zdigits2_mul_pow2 by lia. fold g.
      unfold fexp in *. lia.
Qed.

End Rounding.

(** ** The order of floats by value *)

Section Order.
Variables prec emax : Z.
Hypothesis Hprec : 0 < prec.
Hypothesis Hemax : prec < emax.

Lemma valid_finite (s : bool) (m : positive) (e : Z) :
  valid_binary prec emax (S754_finite s m e) = true <->
  emin prec emax <= e <= emax - prec /\ Zdigits2 (Zpos m) <= prec /\
  (emin prec emax < e -> Zdigits2 (Zpos m) = prec).
Proof using Hprec Hemax.
  unfold valid_binary, bounded, canonical_mantissa, fexp.
  change (Zpos (digits2_pos m)) with (Zdigits2 (Zpos m)).
  rewrite andb_true_iff, Z.eqb_eq, Z.leb_le. lia.
Qed.

Lemma finite_lt_omega (m : positive) (e : Z) :
  valid_binary prec emax (S754_finite false m e) = true ->
  0 < Zpos m * 2 ^ (e - emin prec emax) < 2 ^ (emax - emin prec emax).
Proof using Hprec Hemax.
  intros Hv. apply valid_finite in Hv. destruct Hv as [He [Hd Hn]].
  pose proof (Zdigits2_spec (Zpos m) ltac:(lia)) as [L U].
  assert (Hp : 0 < 2 ^ (e - emin prec emax)) by (apply Z.pow_pos_nonneg; lia).
  split; [lia|].
  assert (H1 : 2 ^ Zdigits2 (Zpos m) <= 2 ^ prec) by (apply Z.pow_le_mono_r; lia).
  assert (H2 : 2 ^ (prec + (e - emin prec emax)) <= 2 ^ (emax - emin prec emax))
    by (apply Z.pow_le_mono_r; lia).
  rewrite Z.pow_add_r in H2 by lia. nia.
Qed.

Lemma finite_compare (m1 m2 : positive) (e1 e2 : Z) :
  valid_binary prec emax (S754_finite false m1 e1) = true ->
  valid_binary prec emax (S754_finite false m2 e2) = true ->
  match e1 ?= e2 with
  | Lt => Lt
  | Gt => Gt
  | Eq => Pos.compare_cont Eq m1 m2
  end = (Zpos m1 * 2 ^ (e1 - emin prec emax) ?= Zpos m2 * 2 ^ (e2 - emin prec emax)).
Proof using Hprec Hemax.
  intros Hv1 Hv2. apply valid_finite in Hv1, Hv2.
  destruct Hv1 as [He1 [Hd1 Hn1]]. destruct Hv2 as [He2 [Hd2 Hn2]].
  pose proof (Zdigits2_spec (Zpos m1) ltac:(lia)) as [L1 U1].
  pose proof (Zdigits2_spec (Zpos m2) ltac:(lia)) as [L2 U2].
  assert (Hlt : forall (a b : positive) (ea eb : Z),
             emin prec emax <= ea -> ea < eb ->
             Zdigits2 (Zpos a) <= prec -> Zdigits2 (Zpos b) = prec ->
             Zpos a * 2 ^ (ea - emin prec emax) < Zpos b * 2 ^ (eb - emin prec emax)).
  { intros a b ea eb Hea Hab Hda Hdb.
    pose proof (Zdigits2_spec (Zpos a) ltac:(lia)) as [La Ua].
    pose proof (Zdigits2_spec (Zpos b) ltac:(lia)) as [Lb Ub].
    rewrite Hdb in Lb.
    assert (H1 : 2 ^ Zdigits2 (Zpos a) <= 2 ^ prec) by (apply Z.pow_le_mono_r; lia).
    assert (Hp : 0 < 2 ^ (ea - emin prec emax)) by (apply Z.pow_pos_nonneg; lia).
    assert (Hq : 0 < 2 ^ (eb - emin prec emax)) by (apply Z.pow_pos_nonneg; lia).
    assert (H2 : 2 ^ (prec + (ea - emin prec emax)) <= 2 ^ (prec - 1 + (eb - emin prec emax)))
      by (apply Z.pow_le_mono_r; lia).
    rewrite !Z.pow_add_r in H2 by lia. nia. }
  destruct (Z.compare_spec e1 e2) as [E|E|E].
  - subst e2. change (Pos.compare_cont Eq m1 m2) with (Zpos m1 ?= Zpos m2).
    assert (Hp : 0 < 2 ^ (e1 - emin prec emax)) by (apply Z.pow_pos_nonneg; lia).
    destruct (Z.compare_spec (Zpos m1) (Zpos m2)) as [F|F|F]; symmetry.
    + apply Z.compare_eq_iff. rewrite F. reflexivity.
    + apply Z.compare_lt_iff. nia.
    + apply Z.compare_gt_iff. nia.
  - symmetry. apply Z.compare_lt_iff. apply Hlt; lia.
  - symmetry. apply Z.compare_gt_iff. apply Hlt; lia.
Qed.

(** On valid floats other than NaN, the comparison of [SpecFloat] is the
    comparison of the values. *)
Theorem SFcompare_ord (x y : spec_float) :
  valid_binary prec emax x = true -> valid_binary prec emax y = true ->
  not_nan x -> not_nan y ->
  SFcompare x y = Some (ord prec emax x ?= ord prec emax y).
Proof using Hprec Hemax.
  intros Hx Hy Nx Ny.
  assert (HO : 0 < 2 ^ (emax - emin prec emax)) by (apply Z.pow_pos_nonneg; unfold emin; lia).
  destruct x as [sx|sx| |sx mx ex]; [| |destruct Nx|];
    destruct y as [sy|sy| |sy my ey]; try destruct Ny; unfold SFcompare, ord.
  - reflexivity.
  - destruct sy; simpl cond_Zopp; f_equal; symmetry;
      [apply Z.compare_gt_iff|apply Z.compare_lt_iff]; lia.
  - pose proof (finite_lt_omega my ey Hy).
    destruct sy; simpl cond_Zopp; f_equal; symmetry;
      [apply Z.compare_gt_iff|apply Z.compare_lt_iff]; lia.
  - destruct sx; simpl cond_Zopp; f_equal; symmetry;
      [apply Z.compare_lt_iff|apply Z.compare_gt_iff]; lia.
  - destruct sx, sy; simpl cond_Zopp; f_equal; symmetry;
      first [apply Z.compare_eq_iff; lia|apply Z.compare_lt_iff; lia|apply Z.compare_gt_iff; lia].
  - pose proof (finite_lt_omega my ey Hy).
    destruct sx, sy; simpl cond_Zopp; f_equal; symmetry;
      first [apply Z.compare_lt_iff; lia|apply Z.compare_gt_iff; lia].
  - pose proof (finite_lt_omega mx ex Hx).
    destruct sx; simpl cond_Zopp; f_equal; symmetry;
      [apply Z.compare_lt_iff|apply Z.compare_gt_iff]; lia.
  - pose proof (finite_lt_omega mx ex Hx).
    destruct sx, sy; simpl cond_Zopp; f_equal; symmetry;
      first [apply Z.compare_lt_iff; lia|apply Z.compare_gt_iff; lia].
  - pose proof (finite_lt_omega mx ex Hx). pose proof (finite_lt_omega my ey Hy).
    pose proof (finite_compare mx my ex ey Hx Hy) as Hc.
    pose proof (finite_compare my mx ey ex Hy Hx) as Hc'.
    destruct sx, sy; simpl cond_Zopp; f_equal.
    + rewrite Z.compare_opp.
      rewrite (Z.compare_antisym (Zpos mx * 2 ^ (ex - emin prec emax))), <- Hc.
      destruct (ex ?= ey); reflexivity.
    + symmetry. apply Z.compare_lt_iff. lia.
    + symmetry. apply Z.compare_gt_iff. lia.
    + exact Hc.
Qed.

Theorem SFleb_ord (x y : spec_float) :
  valid_binary prec emax x = true -> valid_binary prec emax y = true ->
  not_nan x -> not_nan y ->
  SFleb x y = true <-> ord prec emax x <= ord prec emax y.
Proof using Hprec Hemax.
  intros Hx Hy Nx Ny. unfold SFleb. rewrite (SFcompare_ord x y Hx Hy Nx Ny).
  destruct (Z.compare_spec (ord prec emax x) (ord prec emax y)); split; intros; try lia; try reflexivity; try discriminate.
Qed.

(** The encoding of a rounded value is a valid float of that value, or the
    infinity when the value is past the finite floats. *)
Theorem encode_Rnd (s : bool) (N D : Z) : 0 <= N -> 0 < D ->
  let x := encode_float prec emax s (Rnd prec N D) in
  valid_binary prec emax x = true /\ not_nan x /\
  ord prec emax x = cond_Zopp s (Z.min (Rnd prec N D) (2 ^ (emax - emin prec emax))) /\
  match x with S754_zero s' | S754_finite s' _ _ | S754_infinity s' => s' = s | S754_nan => False end.
Proof using Hprec Hemax.
  intros HN HD. cbv zeta.
  assert (HO : 0 < 2 ^ (emax - emin prec emax)) by (apply Z.pow_pos_nonneg; unfold emin; lia).
  destruct (Rnd_repr prec Hprec N D HN HD) as (m1 & t & ER & Hm & Ht & Hn).
  rewrite ER.
  destruct (encode_cases prec emax Hprec s m1 t Hm Ht Hn) as [[E0 Ee]|(m & e & Ee & Ev & He & Hd & Hdn)].
  - rewrite Ee. subst m1. rewrite Z.mul_0_l. rewrite Z.min_l by lia.
    repeat split. destruct s; reflexivity.
  - rewrite Ee, <- Ev.
    pose proof (Zdigits2_spec (Zpos m) ltac:(lia)) as [L U].
    assert (Hp : 0 < 2 ^ (e - emin prec emax)) by (apply Z.pow_pos_nonneg; lia).
    destruct (Z.leb_spec e (emax - prec)) as [Hle|Hgt].
    + assert (Hv : valid_binary prec emax (S754_finite s m e) = true).
      { apply valid_finite. lia. }
      pose proof (finite_lt_omega m e Hv).
      split; [assumption|]. split; [exact I|]. split; [|reflexivity].
      unfold ord. rewrite Z.min_l by lia. reflexivity.
    + split; [reflexivity|]. split; [exact I|]. split; [|reflexivity].
      unfold ord. f_equal. rewrite Z.min_r; [reflexivity|].
      assert (Hem : emin prec emax <= emax - prec) by (unfold emin; lia).
      rewrite (Hdn ltac:(lia)) in L.
      assert (H2 : 2 ^ (emax - emin prec emax) <= 2 ^ (prec - 1 + (e - emin prec emax)))
        by (apply Z.pow_le_mono_r; lia).
      rewrite Z.pow_add_r in H2 by lia. nia.
Qed.

End Order.

(** ** Monotonicity of the operations *)

Lemma sgn_apply_mono (f : Z -> Z) :
  (forall a b, 0 <= a <= b -> f a <= f b) -> (forall a, 0 <= a -> 0 <= f a) ->
  forall v1 v2, v1 <= v2 -> sgn_apply f v1 <= sgn_apply f v2.
Proof.
  intros Hm Hp v1 v2 H. unfold sgn_apply.
  destruct (Z.leb_spec 0 v1), (Z.leb_spec 0 v2); try lia.
  - apply Hm; lia.
  - pose proof (Hp (- v1) ltac:(lia)). pose proof (Hp v2 ltac:(lia)). lia.
  - pose proof (Hm (- v2) (- v1) ltac:(lia)). lia.
Qed.

Lemma sgn_apply_cond_Zopp (f : Z -> Z) (s : bool) (v : Z) :
  0 <= v -> f 0 = 0 -> sgn_apply f (cond_Zopp s v) = cond_Zopp s (f v).
Proof.
  intros Hv H0. unfold sgn_apply. destruct s; simpl cond_Zopp.
  - destruct (Z.leb_spec 0 (- v)).
    + assert (v = 0) by lia. subst v. change (- 0) with 0. rewrite H0. reflexivity.
    + rewrite Z.opp_involutive. reflexivity.
  - destruct (Z.leb_spec 0 v); [reflexivity|lia].
Qed.

Section Monotone.
Variables prec emax : Z.
Hypothesis Hprec : 0 < prec.
Hypothesis Hemax : prec < emax.

Lemma Rnd_ext (N1 D1 N2 D2 : Z) : 0 <= N1 -> 0 < D1 -> 0 < D2 ->
  N1 * D2 = N2 * D1 -> Rnd prec N1 D1 = Rnd prec N2 D2.
Proof using Hprec Hemax.
  intros HN HD1 HD2 H. assert (0 <= N2) by nia.
  apply Z.le_antisymm; apply Rnd_mono; lia.
Qed.

Lemma Rnd_0 (D : Z) : 0 < D -> Rnd prec 0 D = 0.
Proof using Hprec Hemax.
  intros HD. rewrite (Rnd_ext 0 D (0 * 2 ^ 0) 1) by lia.
  apply Rnd_exact; try lia.
Qed.

Lemma funit_pos : 0 < (funit prec emax).
Proof using Hprec Hemax. unfold funit, fomega; apply Z.pow_pos_nonneg; unfold emin; lia. Qed.

Lemma fomega_pos : 0 < (fomega prec emax).
Proof using Hprec Hemax. unfold funit, fomega; apply Z.pow_pos_nonneg; unfold emin; lia. Qed.

Lemma F_div_mono (b : Z) : 0 < b ->
  forall a1 a2, 0 <= a1 <= a2 -> F_div prec emax b a1 <= F_div prec emax b a2.
Proof using Hprec Hemax.
  intros Hb a1 a2 H. unfold F_div. pose proof funit_pos.
  apply Z.min_le_compat_r. apply (Rnd_mono prec Hprec); [nia|assumption|assumption|].
  apply Z.mul_le_mono_nonneg_r; [lia|]. apply Z.mul_le_mono_nonneg_r; lia.
Qed.

Lemma F_div_nonneg (b a : Z) : 0 < b -> 0 <= a -> 0 <= F_div prec emax b a.
Proof using Hprec Hemax.
  intros Hb Ha. unfold F_div. pose proof funit_pos. pose proof fomega_pos.
  apply Z.min_glb; [|lia]. apply Rnd_nonneg; try assumption; nia.
Qed.

Lemma F_mul_mono (my ey : Z) : 0 < my ->
  forall v1 v2, 0 <= v1 <= v2 -> F_mul prec emax my ey v1 <= F_mul prec emax my ey v2.
Proof using Hprec Hemax.
  intros Hm v1 v2 H. unfold F_mul.
  assert (0 < 2 ^ Z.max 0 ey) by (apply Z.pow_pos_nonneg; lia).
  assert (0 < 2 ^ Z.max 0 (- ey)) by (apply Z.pow_pos_nonneg; lia).
  apply Z.min_le_compat_r. apply (Rnd_mono prec Hprec); [nia|assumption|assumption|].
  repeat (apply Z.mul_le_mono_nonneg_r; [lia|]). lia.
Qed.

Lemma F_mul_nonneg (my ey v : Z) : 0 < my -> 0 <= v -> 0 <= F_mul prec emax my ey v.
Proof using Hprec Hemax.
  intros Hm Hv. unfold F_mul. pose proof fomega_pos.
  assert (0 < 2 ^ Z.max 0 ey) by (apply Z.pow_pos_nonneg; lia).
  assert (0 < 2 ^ Z.max 0 (- ey)) by (apply Z.pow_pos_nonneg; lia).
  apply Z.min_glb; [|lia]. apply Rnd_nonneg; try assumption; nia.
Qed.

Lemma F_round_mono (p : Z) : 0 < p ->
  forall v1 v2, 0 <= v1 <= v2 -> F_round prec emax p v1 <= F_round prec emax p v2.
Proof using Hprec Hemax.
  intros Hp v1 v2 H. unfold F_round. pose proof funit_pos.
  assert (Hk : Py.rne_div (v1 * p) (funit prec emax) <= Py.rne_div (v2 * p) (funit prec emax))
    by (apply rne_div_mono; [lia|lia|]; repeat (apply Z.mul_le_mono_nonneg_r; [lia|]); lia).
  assert (0 <= Py.rne_div (v1 * p) (funit prec emax)) by (apply rne_div_lower; nia).
  apply Z.min_le_compat_r. apply (Rnd_mono prec Hprec); [nia|assumption|assumption|].
  repeat (apply Z.mul_le_mono_nonneg_r; [lia|]). lia.
Qed.

Lemma F_round_nonneg (p v : Z) : 0 < p -> 0 <= v -> 0 <= F_round prec emax p v.
Proof using Hprec Hemax.
  intros Hp Hv. unfold F_round. pose proof funit_pos. pose proof fomega_pos.
  assert (0 <= Py.rne_div (v * p) (funit prec emax)) by (apply rne_div_lower; nia).
  apply Z.min_glb; [|lia]. apply Rnd_nonneg; try assumption; nia.
Qed.

(** *** The operations on values *)

Lemma emin_nonpos : emin prec emax <= 0.
Proof using Hprec Hemax. unfold emin. lia. Qed.

Lemma scaleN_0 (N : Z) : scaleN prec emax N 0 = N * funit prec emax.
Proof using Hprec Hemax.
  unfold scaleN, funit. pose proof emin_nonpos. f_equal. f_equal. lia.
Qed.

Lemma scaleD_0 (D : Z) : scaleD prec emax D 0 = D.
Proof using Hprec Hemax.
  unfold scaleD. pose proof emin_nonpos.
  replace (Z.max 0 (emin prec emax - 0)) with 0 by lia. simpl. lia.
Qed.

Lemma F_div_0 (b : Z) : 0 < b -> F_div prec emax b 0 = 0.
Proof using Hprec Hemax.
  intros Hb. unfold F_div. rewrite Z.mul_0_l, Rnd_0 by assumption.
  pose proof fomega_pos. lia.
Qed.

Lemma F_mul_0 (my ey : Z) : F_mul prec emax my ey 0 = 0.
Proof using Hprec Hemax.
  unfold F_mul. rewrite !Z.mul_0_l, Rnd_0 by (apply Z.pow_pos_nonneg; lia).
  pose proof fomega_pos. lia.
Qed.

Lemma F_round_0 (p : Z) : 0 < p -> F_round prec emax p 0 = 0.
Proof using Hprec Hemax.
  intros Hp. unfold F_round. rewrite Z.mul_0_l.
  pose proof funit_pos.
  rewrite <- (Z.mul_0_l (funit prec emax)) at 1.
  rewrite rne_div_exact by assumption. rewrite Z.mul_0_l, Rnd_0 by assumption.
  pose proof fomega_pos. lia.
Qed.

(** The quotient of two ints, rounded: [SFdiv] on the exact operands. *)
Theorem SFdiv_int_ord (c d : Z) : 0 < d ->
  let q := SFdiv prec emax (Py.int_operand c) (Py.int_operand d) in
  valid_binary prec emax q = true /\ not_nan q /\
  ord prec emax q = sgn_apply (F_div prec emax d) c.
Proof using Hprec Hemax.
  intros Hd. cbv zeta. destruct d as [|d|d]; try lia.
  destruct c as [|c|c]; simpl Py.int_operand.
  - simpl. split; [reflexivity|]. split; [exact I|].
    unfold sgn_apply. simpl. rewrite F_div_0; lia.
  - rewrite SFdiv_finite_spec by assumption.
    rewrite Z.sub_diag, scaleN_0, scaleD_0.
    pose proof funit_pos.
    destruct (encode_Rnd prec emax Hprec Hemax (xorb false false)
                (Zpos c * funit prec emax) (Zpos d) ltac:(lia) ltac:(lia))
      as (Hv & Hn & Ho & _).
    split; [assumption|]. split; [assumption|]. rewrite Ho. reflexivity.
  - rewrite SFdiv_finite_spec by assumption.
    rewrite Z.sub_diag, scaleN_0, scaleD_0.
    pose proof funit_pos.
    destruct (encode_Rnd prec emax Hprec Hemax (xorb true false)
                (Zpos c * funit prec emax) (Zpos d) ltac:(lia) ltac:(lia))
      as (Hv & Hn & Ho & _).
    split; [assumption|]. split; [assumption|]. rewrite Ho. reflexivity.
Qed.

(** The product of a finite float by a normal float [my * 2 ^ ey]. *)
Theorem SFmul_ord (x : spec_float) (my : positive) (ey : Z) :
  valid_binary prec emax x = true ->
  match x with S754_zero _ | S754_finite _ _ _ => True | _ => False end ->
  Zdigits2 (Zpos my) = prec ->
  let p := SFmul prec emax x (S754_finite false my ey) in
  valid_binary prec emax p = true /\ not_nan p /\
  ord prec emax p = sgn_apply (F_mul prec emax (Zpos my) ey) (ord prec emax x).
Proof using Hprec Hemax.
  intros Hx Hfin Hmy. cbv zeta.
  destruct x as [s|s| |s m e]; try destruct Hfin.
  - simpl. split; [reflexivity|]. split; [exact I|].
    unfold sgn_apply. simpl. rewrite F_mul_0. reflexivity.
  - apply valid_finite in Hx; [|assumption|assumption]. destruct Hx as (He & Hd & Hn).
    pose proof (Zdigits2_spec (Zpos my) ltac:(lia)) as [Ly Uy]. rewrite Hmy in Ly.
    rewrite SFmul_finite_spec; [|assumption|].
    2:{ right. apply Zdigits2_ge_pow2; [|lia]. rewrite Pos2Z.inj_mul. nia. }
    assert (Hp1 : 0 < 2 ^ Z.max 0 ey) by (apply Z.pow_pos_nonneg; lia).
    assert (Hp2 : 0 < 2 ^ Z.max 0 (- ey)) by (apply Z.pow_pos_nonneg; lia).
    assert (Hp3 : 0 < 2 ^ (e - emin prec emax)) by (apply Z.pow_pos_nonneg; lia).
    assert (HN : 0 <= scaleN prec emax (Zpos (m * my)) (e + ey))
      by (apply scaleN_nonneg; [assumption|lia]).
    assert (HD : 0 < scaleD prec emax 1 (e + ey))
      by (apply scaleD_pos; [assumption|lia]).
    destruct (encode_Rnd prec emax Hprec Hemax (xorb s false) _ _ HN HD)
      as (Hv & Hnn & Ho & _).
    split; [assumption|]. split; [assumption|]. rewrite Ho.
    replace (xorb s false) with s by (destruct s; reflexivity).
    unfold ord. rewrite sgn_apply_cond_Zopp; [|nia|apply F_mul_0].
    f_equal. unfold F_mul. f_equal.
    apply Rnd_ext; [assumption|assumption|assumption|].
    unfold scaleN, scaleD. rewrite Pos2Z.inj_mul.
    set (A := Z.max 0 (e + ey - emin prec emax)).
    set (B := Z.max 0 (emin prec emax - (e + ey))).
    assert (E1 : 2 ^ A * 2 ^ Z.max 0 (- ey) = 2 ^ (A + Z.max 0 (- ey)))
      by (rewrite Z.pow_add_r by lia; reflexivity).
    assert (E2 : 2 ^ (e - emin prec emax) * 2 ^ Z.max 0 ey * 2 ^ B
                 = 2 ^ (e - emin prec emax + Z.max 0 ey + B))
      by (rewrite !Z.pow_add_r by lia; reflexivity).
    replace (A + Z.max 0 (- ey)) with (e - emin prec emax + Z.max 0 ey + B) in E1 by lia.
    rewrite <- E1 in E2. nia.
Qed.

Lemma fomega_funit : fomega prec emax = 2 ^ emax * funit prec emax.
Proof using Hprec Hemax.
  unfold fomega, funit. pose proof emin_nonpos.
  rewrite <- Z.pow_add_r by lia. reflexivity.
Qed.

Lemma F_round_omega (p : Z) : 0 < p ->
  F_round prec emax p (fomega prec emax) = fomega prec emax.
Proof using Hprec Hemax.
  intros Hp. unfold F_round. pose proof funit_pos. pose proof fomega_pos.
  assert (H2 : 0 < 2 ^ emax) by (apply Z.pow_pos_nonneg; lia).
  rewrite fomega_funit at 1.
  replace (2 ^ emax * funit prec emax * p) with (2 ^ emax * p * funit prec emax) by lia.
  rewrite rne_div_exact by assumption.
  rewrite (Rnd_ext (2 ^ emax * p * funit prec emax) p (1 * 2 ^ (emax - emin prec emax)) 1);
    [|nia|lia|lia|].
  - rewrite Rnd_exact; [unfold fomega; lia|assumption| |unfold emin; lia].
    split; [lia|]. apply (Z.pow_lt_mono_r 2 0 prec); lia.
  - fold (fomega prec emax). rewrite fomega_funit. lia.
Qed.

(** A float divided by itself is one. *)
Lemma SFdiv_self (s1 s2 : bool) (m : positive) (e : Z) :
  SFdiv prec emax (S754_finite s1 m e) (S754_finite s2 m e) =
  encode_float prec emax (xorb s1 s2) (funit prec emax).
Proof using Hprec Hemax.
  rewrite SFdiv_finite_spec by assumption.
  rewrite Z.sub_diag, scaleN_0, scaleD_0.
  pose proof funit_pos as Hu. pose proof emin_nonpos as Hm.
  rewrite (Rnd_ext (Zpos m * funit prec emax) (Zpos m) (1 * 2 ^ (- emin prec emax)) 1);
    [|lia|lia|lia|unfold funit; lia].
  rewrite Rnd_exact; [unfold funit; f_equal; lia|assumption| |lia].
  split; [lia|]. apply (Z.pow_lt_mono_r 2 0 prec); lia.
Qed.

(** The conversion of a positive int below [2 ^ (emax - 1)] is a finite
    positive float. *)
Lemma binary_normalize_finite (z : Z) : 0 < z < 2 ^ (emax - 1) ->
  exists m e, binary_normalize prec emax z 0 false = S754_finite false m e.
Proof using Hprec Hemax.
  intros [Hz Hlt]. destruct z as [|p|p]; try lia. simpl binary_normalize.
  rewrite binary_round_spec by assumption. rewrite scaleN_0, scaleD_0.
  pose proof funit_pos as Hu. pose proof fomega_pos as Ho. pose proof emin_nonpos as Hm.
  assert (HN : 0 <= Zpos p * funit prec emax) by nia.
  destruct (encode_Rnd prec emax Hprec Hemax false _ 1 HN ltac:(lia)) as (Hv & Hn & Hord & Hs).
  assert (Hlow : 2 ^ (- emin prec emax) <= Rnd prec (Zpos p * funit prec emax) 1).
  { apply (Rnd_ge_pow2 prec Hprec); [lia|lia|]. unfold funit. nia. }
  assert (Hup : Rnd prec (Zpos p * funit prec emax) 1 <= 2 ^ (emax - 1 - emin prec emax)).
  { apply (Rnd_le_pow2 prec Hprec); [assumption|lia|lia|].
    replace (emax - 1 - emin prec emax) with (emax - 1 + - emin prec emax) by lia.
    rewrite Z.pow_add_r by lia. unfold funit. nia. }
  assert (Hlt2 : 2 ^ (emax - 1 - emin prec emax) < 2 ^ (emax - emin prec emax)).
  { apply Z.pow_lt_mono_r; lia. }
  assert (0 < 2 ^ (- emin prec emax)) by (apply Z.pow_pos_nonneg; lia).
  rewrite Z.min_l in Hord by lia. simpl cond_Zopp in Hord.
  destruct (encode_float prec emax false (Rnd prec (Zpos p * funit prec emax) 1))
    as [s|s| |s m e]; simpl in Hord, Hs.
  - lia.
  - subst s. simpl in Hord. lia.
  - destruct Hs.
  - subst s. exists m, e. reflexivity.
Qed.

End Monotone.

(** ** binary64: the Python operations *)

Section Binary64.

Abbreviation ord64 := (ord Py.prec64 Py.emax64).
Abbreviation valid64 := (valid_binary Py.prec64 Py.emax64).

Lemma prec64_pos : 0 < Py.prec64.
Proof. reflexivity. Qed.

Lemma prec64_emax64 : Py.prec64 < Py.emax64.
Proof. reflexivity. Qed.

Lemma float_of_int_100 :
  Py.float_of_int 100 = Ok (S754_finite false 7036874417766400 (-46)).
Proof. reflexivity. Qed.

(** [round(x, ndigits)] on values. *)
Theorem round_ord (x : Py.f64) (nd : Z) :
  valid64 x = true -> not_nan x -> 0 <= nd ->
  let r := Py.round x nd in
  valid64 r = true /\ not_nan r /\
  ord64 r = sgn_apply (F_round Py.prec64 Py.emax64 (10 ^ nd)) (ord64 x).
Proof.
  intros Hx Nx Hnd. cbv zeta.
  pose proof prec64_pos as Hp. pose proof prec64_emax64 as He.
  assert (HP : 0 < 10 ^ nd) by (apply Z.pow_pos_nonneg; lia).
  pose proof (funit_pos _ _ Hp He) as Hu.
  destruct x as [s|s| |s m e]; try destruct Nx.
  - simpl. split; [reflexivity|]. split; [exact I|].
    unfold sgn_apply. simpl. rewrite F_round_0; auto.
  - simpl Py.round. split; [reflexivity|]. split; [exact I|].
    unfold ord. fold (fomega Py.prec64 Py.emax64).
    pose proof (fomega_pos _ _ Hp He).
    rewrite sgn_apply_cond_Zopp; [|lia|apply F_round_0; assumption].
    rewrite F_round_omega by assumption. reflexivity.
  - apply valid_finite in Hx; [|assumption|assumption]. destruct Hx as (Hem & Hd & Hn).
    unfold Py.round.
    set (V := Zpos m * 2 ^ (e - emin Py.prec64 Py.emax64)).
    assert (HV : 0 <= V).
    { unfold V. assert (0 < 2 ^ (e - emin Py.prec64 Py.emax64)) by (apply Z.pow_pos_nonneg; lia). nia. }
    assert (Ek : (if 0 <=? e then Zpos m * 2 ^ e * 10 ^ nd
                  else Py.rne_div (Zpos m * 10 ^ nd) (2 ^ (- e)))
                 = Py.rne_div (V * 10 ^ nd) (funit Py.prec64 Py.emax64)).
    { unfold V, funit. pose proof (emin_nonpos _ _ Hp He) as Hmin.
      destruct (Z.leb_spec 0 e) as [He0|He0].
      - replace (e - emin Py.prec64 Py.emax64) with (e + - emin Py.prec64 Py.emax64) by lia.
        rewrite Z.pow_add_r by lia.
        replace (Zpos m * (2 ^ e * 2 ^ (- emin Py.prec64 Py.emax64)) * 10 ^ nd)
          with (Zpos m * 2 ^ e * 10 ^ nd * 2 ^ (- emin Py.prec64 Py.emax64)) by lia.
        rewrite rne_div_exact by assumption. reflexivity.
      - assert (Eu : 2 ^ (- emin Py.prec64 Py.emax64)
                     = 2 ^ (- e) * 2 ^ (e - emin Py.prec64 Py.emax64)).
        { rewrite <- Z.pow_add_r by lia. f_equal. lia. }
        rewrite Eu.
        replace (Zpos m * 2 ^ (e - emin Py.prec64 Py.emax64) * 10 ^ nd)
          with (Zpos m * 10 ^ nd * 2 ^ (e - emin Py.prec64 Py.emax64)) by lia.
        rewrite rne_div_scale; [reflexivity| |]; apply Z.pow_pos_nonneg; lia. }
    cbv zeta. rewrite Ek.
    assert (Hk : 0 <= Py.rne_div (V * 10 ^ nd) (funit Py.prec64 Py.emax64))
      by (apply rne_div_lower; [assumption|nia]).
    unfold ord at 2. fold V.
    rewrite sgn_apply_cond_Zopp; [|assumption|apply F_round_0; assumption].
    unfold F_round.
    set (k := Py.rne_div (V * 10 ^ nd) (funit Py.prec64 Py.emax64)) in *.
    destruct (10 ^ nd) as [|P|P] eqn:EP; try lia. simpl Py.int_operand.
    destruct k as [|n|n]; try lia.
    + simpl. split; [reflexivity|]. split; [exact I|].
      rewrite (Rnd_0 _ _ Hp He) by lia.
      pose proof (fomega_pos _ _ Hp He). rewrite Z.min_l by lia. destruct s; reflexivity.
    + rewrite SFdiv_finite_spec by assumption.
      rewrite Z.sub_diag, scaleN_0, scaleD_0 by assumption.
      destruct (encode_Rnd Py.prec64 Py.emax64 Hp He (xorb s false)
                  (Zpos n * funit Py.prec64 Py.emax64) (Zpos P) ltac:(lia) ltac:(lia))
        as (Hv & Hnn & Ho & _).
      split; [assumption|]. split; [assumption|]. rewrite Ho.
      replace (xorb s false) with s by (destruct s; reflexivity). reflexivity.
Qed.

Lemma percentage_unfold (b n c : Z) : n / b <> 0 ->
  percentage b n c =
  match SFdiv Py.prec64 Py.emax64 (Py.int_operand c) (Py.int_operand (n / b)) with
  | S754_infinity _ => Raise OverflowError
  | q => Ok (Py.round (SFmul Py.prec64 Py.emax64 q
                         (S754_finite false 7036874417766400 (-46))) 2)
  end.
Proof.
  intros Hd. unfold percentage, Py.floordiv, Py.truediv, Py.mul_int.
  destruct (Z.eqb_spec b 0) as [->|Hb].
  { exfalso. apply Hd. apply Z.div_0_r. }
  unfold mbind, result_bind.
  destruct (Z.eqb_spec (n / b) 0) as [E|E]; [contradiction|].
  rewrite float_of_int_100.
  destruct (SFdiv Py.prec64 Py.emax64 (Py.int_operand c) (Py.int_operand (n / b)));
    reflexivity.
Qed.

(** What [percentage] returns is a valid float of value
    [percentage_value]. *)
Theorem percentage_ord (b n c : Z) (v : Py.f64) : 1 <= n / b ->
  percentage b n c = Ok v ->
  valid64 v = true /\ not_nan v /\ ord64 v = percentage_value (n / b) c.
Proof.
  intros Hd Hv. rewrite percentage_unfold in Hv by lia.
  pose proof prec64_pos as Hp. pose proof prec64_emax64 as He.
  destruct (SFdiv_int_ord _ _ Hp He c (n / b) ltac:(lia)) as (Vq & Nq & Oq).
  cbv zeta in Vq, Nq, Oq.
  set (q := SFdiv Py.prec64 Py.emax64 (Py.int_operand c) (Py.int_operand (n / b))) in *.
  assert (Hq : match q with S754_zero _ | S754_finite _ _ _ => True | _ => False end).
  { destruct q; try exact I; [discriminate|destruct Nq]. }
  assert (Ev : v = Py.round (SFmul Py.prec64 Py.emax64 q
                               (S754_finite false 7036874417766400 (-46))) 2).
  { destruct q; try destruct Hq; injection Hv as <-; reflexivity. }
  destruct (SFmul_ord _ _ Hp He q 7036874417766400 (-46) Vq Hq eq_refl) as (Vp & Np & Op).
  cbv zeta in Vp, Np, Op.
  destruct (round_ord _ 2 Vp Np ltac:(lia)) as (Vr & Nr & Or).
  cbv zeta in Vr, Nr, Or. rewrite <- Ev in Vr, Nr, Or.
  split; [assumption|]. split; [assumption|].
  rewrite Or, Op, Oq. reflexivity.
Qed.

Lemma percentage_value_mono (d c1 c2 : Z) : 0 < d -> c1 <= c2 ->
  percentage_value d c1 <= percentage_value d c2.
Proof.
  intros Hd H. unfold percentage_value.
  pose proof prec64_pos as Hp. pose proof prec64_emax64 as He.
  apply sgn_apply_mono.
  - apply F_round_mono; [assumption|assumption|lia].
  - intros a Ha. apply F_round_nonneg; [assumption|assumption|lia|assumption].
  - apply sgn_apply_mono.
    + apply F_mul_mono; [assumption|assumption|lia].
    + intros a Ha. apply F_mul_nonneg; [assumption|assumption|lia|assumption].
    + apply sgn_apply_mono.
      * apply F_div_mono; assumption.
      * intros a Ha. apply F_div_nonneg; assumption.
      * assumption.
Qed.

(** [percentage] returns a value for every index below [2 ^ 1023] in
    absolute value. *)
Theorem percentage_returns (b n c : Z) : 1 <= n / b -> Z.abs c < 2 ^ 1023 ->
  exists v, percentage b n c = Ok v.
Proof.
  intros Hd Hc. rewrite percentage_unfold by lia.
  pose proof prec64_pos as Hp. pose proof prec64_emax64 as He.
  destruct (SFdiv_int_ord _ _ Hp He c (n / b) ltac:(lia)) as (Vq & Nq & Oq).
  cbv zeta in Vq, Nq, Oq.
  set (q := SFdiv Py.prec64 Py.emax64 (Py.int_operand c) (Py.int_operand (n / b))) in *.
  destruct q as [s|s| |s m e]; try (eexists; reflexivity).
  exfalso.
  assert (Hb : forall a, 0 <= a < 2 ^ 1023 ->
            F_div Py.prec64 Py.emax64 (n / b) a < fomega Py.prec64 Py.emax64).
  { intros a Ha. unfold F_div.
    pose proof (funit_pos _ _ Hp He) as Hu.
    assert (Rnd Py.prec64 (a * funit Py.prec64 Py.emax64) (n / b) <= 2 ^ 2097).
    { apply (Rnd_le_pow2 _ Hp); [nia|lia|lia|].
      unfold funit. change (- emin Py.prec64 Py.emax64) with 1074.
      replace (2 ^ 2097) with (2 ^ 1023 * 2 ^ 1074) by (rewrite <- Z.pow_add_r by lia; reflexivity).
      set (u := 2 ^ 1074) in *. set (w := 2 ^ 1023) in *. nia. }
    assert (2 ^ 2097 < fomega Py.prec64 Py.emax64).
    { unfold fomega. change (Py.emax64 - emin Py.prec64 Py.emax64) with 2098.
      apply Z.pow_lt_mono_r; lia. }
    lia. }
  unfold ord in Oq. fold (fomega Py.prec64 Py.emax64) in Oq.
  unfold sgn_apply in Oq.
  destruct (Z.leb_spec 0 c).
  - pose proof (Hb c ltac:(lia)). destruct s; simpl cond_Zopp in Oq; [|lia].
    pose proof (F_div_nonneg _ _ Hp He (n / b) c ltac:(lia) ltac:(lia)).
    pose proof (fomega_pos _ _ Hp He). lia.
  - pose proof (Hb (- c) ltac:(lia)). destruct s; simpl cond_Zopp in Oq; [lia|].
    pose proof (F_div_nonneg _ _ Hp He (n / b) (- c) ltac:(lia) ltac:(lia)).
    pose proof (fomega_pos _ _ Hp He). lia.
Qed.

Lemma SFdiv_int_self (d : positive) :
  SFdiv Py.prec64 Py.emax64 (Py.int_operand (Zpos d)) (Py.int_operand (Zpos d))
  = S754_finite false 4503599627370496 (-52).
Proof.
  pose proof prec64_pos as Hp. pose proof prec64_emax64 as He.
  simpl Py.int_operand. rewrite SFdiv_finite_spec by assumption.
  rewrite Z.sub_diag, scaleN_0, scaleD_0 by assumption.
  pose proof (funit_pos _ _ Hp He) as Hu.
  rewrite (Rnd_ext _ _ Hp He (Zpos d * funit Py.prec64 Py.emax64) (Zpos d)
             (1 * 2 ^ 1074) 1); [|lia|lia|lia|].
  - rewrite Rnd_exact; [|assumption| |lia].
    + vm_compute. reflexivity.
    + split; [lia|]. reflexivity.
  - unfold funit. change (- emin Py.prec64 Py.emax64) with 1074. lia.
Qed.

Theorem percentage_full (b n : Z) : 1 <= n / b ->
  percentage b n (n / b) = Ok (S754_finite false 7036874417766400 (-46)).
Proof.
  intros Hd. rewrite percentage_unfold by lia.
  destruct (n / b) as [|d|d] eqn:E; try lia.
  rewrite SFdiv_int_self. vm_compute. reflexivity.
Qed.

End Binary64.

(** ** binary32: the torch scalars *)

Section Binary32.

Lemma prec32_pos : 0 < Py.prec32.
Proof. reflexivity. Qed.

Lemma prec32_emax32 : Py.prec32 < Py.emax32.
Proof. reflexivity. Qed.

(** A positive count divided by itself is [1.0]. *)
Theorem int_truediv_self (n : Z) : 0 < n < 2 ^ 127 ->
  Torch.int_truediv n n = S754_finite false 8388608 (-23).
Proof.
  intros Hn. unfold Torch.int_truediv, Torch.f32_of_int.
  destruct (binary_normalize_finite _ _ prec32_pos prec32_emax32 n Hn) as (m & e & E).
  rewrite E, SFdiv_self by reflexivity. reflexivity.
Qed.

(** Zero divided by a positive count is [0.0]. *)
Theorem int_truediv_zero (n : Z) : 0 < n < 2 ^ 127 ->
  Torch.int_truediv 0 n = S754_zero false.
Proof.
  intros Hn. unfold Torch.int_truediv, Torch.f32_of_int.
  destruct (binary_normalize_finite _ _ prec32_pos prec32_emax32 n Hn) as (m & e & E).
  rewrite E. reflexivity.
Qed.

End Binary32.

End IEEEFacts.

(** * Facts about the accuracies *)

Module AccuracyFacts.
Import Torch.

Lemma bsize_same (n : nat) : bsize n n = Some n.
Proof. unfold bsize. rewrite Nat.eqb_refl. reflexivity. Qed.

Lemma bidx_lt (d i : nat) : (i < d)%nat -> bidx d i = i.
Proof.
  intros Hi. unfold bidx. destruct (Nat.eqb_spec d 1); [lia|reflexivity].
Qed.

Lemma sum_bool_map {A : Type} (g : A -> bool) (l : list A) :
  sum_bool (map g l) = Z.of_nat (length (List.filter g l)).
Proof.
  unfold sum_bool. f_equal. induction l as [|a l IH]; [reflexivity|].
  simpl. destruct (g a); simpl; congruence.
Qed.

Lemma eq1_map {A : Type} (f g : A -> Z) (l : list A) :
  eq1 (map f l) (map g l) = Ok (map (fun a => f a =? g a) l).
Proof.
  unfold eq1. rewrite !length_map, bsize_same. f_equal.
  apply nth_ext with (d := false) (d' := false).
  - rewrite !length_map, length_seq. reflexivity.
  - intros n. rewrite length_map, length_seq. intros Hn.
    rewrite (nth_indep _ false (nth (bidx (length l) 0) (map f l) 0
                              =? nth (bidx (length l) 0) (map g l) 0))
      by (rewrite length_map, length_seq; assumption).
    rewrite (map_nth (fun i => nth (bidx (length l) i) (map f l) 0
                               =? nth (bidx (length l) i) (map g l) 0) (seq 0 (length l)) 0%nat n).
    rewrite seq_nth by assumption. simpl. rewrite bidx_lt by assumption.
    destruct l as [|a0 l0]; [simpl in Hn; lia|].
    rewrite (nth_indep _ false ((fun a => f a =? g a) a0)) by (rewrite length_map; assumption).
    rewrite (map_nth (fun a => f a =? g a) (a0 :: l0) a0 n).
    rewrite (nth_indep (map f (a0 :: l0)) 0 (f a0)) by (rewrite length_map; assumption).
    rewrite (nth_indep (map g (a0 :: l0)) 0 (g a0)) by (rewrite length_map; assumption).
    rewrite !map_nth. reflexivity.
Qed.

Lemma flat_map_ext_seq {A : Type} (f g : nat -> list A) (n : nat) :
  (forall i, (i < n)%nat -> f i = g i) -> flat_map f (seq 0 n) = flat_map g (seq 0 n).
Proof.
  intros Hfg. rewrite !flat_map_concat_map. f_equal. apply map_ext_in.
  intros i Hi. apply in_seq in Hi. apply Hfg. lia.
Qed.

Lemma map_flat_map {A B C : Type} (g : B -> C) (h : A -> list B) (l : list A) :
  map g (flat_map h l) = flat_map (fun a => map g (h a)) l.
Proof.
  induction l as [|a l IH]; [reflexivity|]. simpl. rewrite map_app, IH. reflexivity.
Qed.

(** Selecting with the negated mask reads the positions of [unmasked]. *)
Lemma masked_select_unmasked {A : Type} (t : tensor2 A) (mask : tensor2 bool) :
  rows t = rows mask -> cols t = cols mask ->
  masked_select t (lognot mask)
  = Ok (map (fun p => at2 t (fst p) (snd p)) (unmasked mask)).
Proof.
  intros Hr Hc. unfold masked_select. simpl rows. simpl cols.
  rewrite Hr, Hc, !bsize_same. f_equal. unfold unmasked.
  rewrite map_flat_map. apply flat_map_ext_seq. intros i Hi.
  rewrite map_flat_map. apply flat_map_ext_seq. intros j Hj.
  simpl at2. rewrite !bidx_lt by assumption.
  destruct (at2 mask i j); reflexivity.
Qed.

(** [nsp_accuracy] on tensors of a common number of rows. *)
Theorem nsp_accuracy_formula (result_ target : tensor2 Py.f32) :
  rows result_ = rows target -> cols result_ <> 0%nat -> cols target <> 0%nat ->
  nsp_accuracy result_ target =
  Ok (Py.round
        (Py.float_of_f32
           (int_truediv (matching_rows result_ target) (Z.of_nat (rows result_)))) 2).
Proof.
  intros Hr Hc1 Hc2. unfold nsp_accuracy, argmax1.
  destruct (Nat.eqb_spec (cols result_) 0); [contradiction|].
  destruct (Nat.eqb_spec (cols target) 0); [contradiction|].
  unfold mbind, result_bind. rewrite <- Hr, eq1_map, sum_bool_map. reflexivity.
Qed.

(** [token_accuracy] on tensors of a common shape. *)
Theorem token_accuracy_formula (result_ : tensor3 Py.f32) (target : tensor2 Z)
    (mask : tensor2 bool) :
  dim0 result_ = rows mask -> dim1 result_ = cols mask ->
  rows target = rows mask -> cols target = cols mask ->
  dim2 result_ <> 0%nat ->
  token_accuracy result_ target mask =
  Ok (Py.round
        (Py.float_of_f32
           (int_truediv (matching_tokens result_ target mask)
              (Z.of_nat (dim0 result_) * Z.of_nat (dim1 result_)))) 2).
Proof.
  intros H0 H1 Hr Hc Hv. unfold token_accuracy, argmax_last.
  destruct (Nat.eqb_spec (dim2 result_) 0); [contradiction|].
  unfold mbind, result_bind.
  rewrite masked_select_unmasked by assumption.
  rewrite masked_select_unmasked by assumption.
  rewrite eq1_map, sum_bool_map. reflexivity.
Qed.

Lemma unmasked_all_true (mask : tensor2 bool) :
  (forall i j, (i < rows mask)%nat -> (j < cols mask)%nat -> at2 mask i j = true) ->
  unmasked mask = [].
Proof.
  intros Hall. unfold unmasked.
  rewrite (flat_map_ext_seq _ (fun _ => []) (rows mask)).
  - induction (seq 0 (rows mask)); [reflexivity|assumption].
  - intros i Hi. rewrite (flat_map_ext_seq _ (fun _ => []) (cols mask)).
    + induction (seq 0 (cols mask)); [reflexivity|assumption].
    + intros j Hj. rewrite Hall by assumption. reflexivity.
Qed.

Lemma length_flat_map_const {A B : Type} (f : A -> list B) (l : list A) (c : nat) :
  (forall a, In a l -> length (f a) = c) -> length (flat_map f l) = (length l * c)%nat.
Proof.
  intros Hf. induction l as [|a l IH]; [reflexivity|].
  simpl. rewrite length_app, IH, Hf; [lia|left; reflexivity|].
  intros a' Ha'. apply Hf. right. assumption.
Qed.

Lemma unmasked_bounds (mask : tensor2 bool) (p : nat * nat) :
  In p (unmasked mask) ->
  (fst p < rows mask)%nat /\ (snd p < cols mask)%nat /\ at2 mask (fst p) (snd p) = false.
Proof.
  unfold unmasked. rewrite in_flat_map. intros (i & Hi & Hp).
  rewrite in_flat_map in Hp. destruct Hp as (j & Hj & Hp).
  apply in_seq in Hi, Hj. destruct (at2 mask i j) eqn:E; [destruct Hp|].
  destruct Hp as [<-|[]]. simpl. repeat split; try lia. assumption.
Qed.

Lemma unmasked_all_false (mask : tensor2 bool) :
  (forall i j, (i < rows mask)%nat -> (j < cols mask)%nat -> at2 mask i j = false) ->
  length (unmasked mask) = (rows mask * cols mask)%nat.
Proof.
  intros Hall. unfold unmasked.
  rewrite (length_flat_map_const _ _ (cols mask)); [rewrite length_seq; reflexivity|].
  intros i Hi. apply in_seq in Hi.
  rewrite (length_flat_map_const _ _ 1); [rewrite length_seq; lia|].
  intros j Hj. apply in_seq in Hj. rewrite Hall by lia. reflexivity.
Qed.

Lemma filter_all {A : Type} (g : A -> bool) (l : list A) :
  (forall a, In a l -> g a = true) -> List.filter g l = l.
Proof.
  intros Hg. induction l as [|a l IH]; [reflexivity|].
  simpl. rewrite Hg by (left; reflexivity). f_equal. apply IH.
  intros a' Ha'. apply Hg. right. assumption.
Qed.

Lemma filter_none {A : Type} (g : A -> bool) (l : list A) :
  (forall a, In a l -> g a = false) -> List.filter g l = [].
Proof.
  intros Hg. induction l as [|a l IH]; [reflexivity|].
  simpl. rewrite Hg by (left; reflexivity). apply IH.
  intros a' Ha'. apply Hg. right. assumption.
Qed.

End AccuracyFacts.

(** * Facts about the trainer *)

Section TrainerFacts.
Context `{Environment}.

Lemma config_eq_refl (t : BertTrainer) : config_eq t t.
Proof. unfold config_eq. repeat split. Qed.

Lemma config_eq_trans (t1 t2 t3 : BertTrainer) :
  config_eq t1 t2 -> config_eq t2 t3 -> config_eq t1 t3.
Proof. unfold config_eq. intuition congruence. Qed.

Lemma extends_refl (P : event -> Prop) (w : World) : extends P w w.
Proof. exists []. rewrite app_nil_r. split; [reflexivity|constructor]. Qed.

Lemma extends_same (P : event -> Prop) (w w' : World) :
  trace w' = trace w -> extends P w w'.
Proof. intros E. exists []. rewrite app_nil_r. split; [assumption|constructor]. Qed.

Lemma extends_trans (P : event -> Prop) (w1 w2 w3 : World) :
  extends P w1 w2 -> extends P w2 w3 -> extends P w1 w3.
Proof.
  intros (e1 & E1 & F1) (e2 & E2 & F2). exists (e1 ++ e2).
  rewrite E2, E1, app_assoc. split; [reflexivity|]. apply Forall_app; split; assumption.
Qed.

Lemma keeps_bind (P : event -> Prop) {A B : Type} (m : M A) (k : A -> M B) :
  keeps P m -> (forall a, keeps P (k a)) -> keeps P (m ≫= k).
Proof.
  intros Hm Hk w. unfold mbind, M_bind. specialize (Hm w).
  destruct (m w) as [[a|e] w1]; simpl in *.
  - specialize (Hk a w1). destruct Hm as [C1 E1]. destruct Hk as [C2 E2].
    split; [eapply config_eq_trans; eassumption|eapply extends_trans; eassumption].
  - assumption.
Qed.

Lemma keeps_ret (P : event -> Prop) {A : Type} (a : A) : keeps P (mret a).
Proof. intros w. split; [apply config_eq_refl|apply extends_refl]. Qed.

Lemma keeps_raise (P : event -> Prop) {A : Type} (e : exn) : keeps P (raise e : M A).
Proof. intros w. split; [apply config_eq_refl|apply extends_refl]. Qed.

Lemma keeps_lift (P : event -> Prop) {A : Type} (r : result A) : keeps P (lift r).
Proof. intros w. split; [apply config_eq_refl|apply extends_refl]. Qed.

Lemma keeps_get_self (P : event -> Prop) : keeps P get_self.
Proof. intros w. split; [apply config_eq_refl|apply extends_refl]. Qed.

Lemma keeps_emit (P : event -> Prop) (ev : event) : P ev -> keeps P (emit ev).
Proof.
  intros HP w. split; [apply config_eq_refl|]. exists [ev]. split; [reflexivity|].
  constructor; [assumption|constructor].
Qed.

Lemma keeps_set_model (P : event -> Prop) (m : Model) : keeps P (set_model m).
Proof. intros w. split; [repeat split|apply extends_same; reflexivity]. Qed.

Lemma keeps_set_optimizer (P : event -> Prop) (o : Optim) : keeps P (set_optimizer o).
Proof. intros w. split; [repeat split|apply extends_same; reflexivity]. Qed.

Lemma keeps_iter_loader (P : event -> Prop) : keeps P iter_loader.
Proof. intros w. split; [apply config_eq_refl|apply extends_same; reflexivity]. Qed.

Lemma keeps_utcnow (P : event -> Prop) : keeps P utcnow_timestamp.
Proof. intros w. split; [apply config_eq_refl|apply extends_same; reflexivity]. Qed.

Lemma keeps_torch_load (P : event -> Prop) (path : string) : keeps P (torch_load path).
Proof.
  intros w. unfold torch_load. destruct (fs w !! path);
    (split; [apply config_eq_refl|apply extends_refl]).
Qed.

Lemma keeps_torch_save (P : event -> Prop) (obj : Checkpoint) (path : string) :
  P (TorchSave path obj) -> keeps P (torch_save obj path).
Proof.
  intros HP w. split; [apply config_eq_refl|]. exists [TorchSave path obj].
  split; [reflexivity|]. constructor; [assumption|constructor].
Qed.

Ltac keeps_step :=
  first
    [ apply keeps_ret | apply keeps_raise | apply keeps_lift | apply keeps_get_self
    | apply keeps_set_model | apply keeps_set_optimizer | apply keeps_iter_loader
    | apply keeps_utcnow | apply keeps_torch_load
    | apply keeps_bind; [|intros ?] ].

Lemma keeps_progress (P : event -> Prop) epoch nbatches index a b token nsp value :
  (forall e1 i bl p nl ml ac, P (Print (LProgress e1 i bl p nl ml ac))) ->
  (forall tag v g, P (AddScalar tag v g)) ->
  keeps P (progress epoch nbatches index a b token nsp value).
Proof.
  intros HPl HPs. unfold progress.
  repeat keeps_step; try (apply keeps_emit; auto).
  destruct (_ =? 0); repeat keeps_step; try (apply keeps_emit; auto).
Qed.

Lemma keeps_train_batch (P : event -> Prop) epoch nbatches i value l :
  (forall e1 i bl p nl ml ac, P (Print (LProgress e1 i bl p nl ml ac))) ->
  (forall tag v g, P (AddScalar tag v g)) ->
  keeps P (train_batch epoch nbatches i value l).
Proof.
  intros HPl HPs. unfold train_batch.
  repeat keeps_step.
  destruct (optimizer_step _ _) as [m o].
  repeat keeps_step.
  destruct (_ =? 0); repeat (first [apply keeps_progress; assumption|keeps_step]).
Qed.

Lemma keeps_train_loop (P : event -> Prop) epoch nbatches values :
  (forall e1 i bl p nl ml ac, P (Print (LProgress e1 i bl p nl ml ac))) ->
  (forall tag v g, P (AddScalar tag v g)) ->
  forall i l, keeps P (train_loop epoch nbatches i values l).
Proof.
  intros HPl HPs. induction values as [|v vs IH]; intros i l; simpl.
  - apply keeps_ret.
  - apply keeps_bind; [apply keeps_train_batch; assumption|]. intros l'. apply IH.
Qed.

(** *** save_checkpoint, load_checkpoint, __call__ *)

Lemma save_checkpoint_spec (epoch step : Z) (loss : Py.f32) (w : World) :
  save_checkpoint epoch step loss w =
  match checkpoint_dir (self w) with
  | None => (Ok tt, w)
  | Some dir =>
      let name := checkpoint_name epoch step (clock (clock_reads w)) in
      let obj := {| ck_epoch := epoch;
                    ck_model_state_dict := model_state_dict (model (self w));
                    ck_optimizer_state_dict := optimizer_state_dict (optimizer (self w));
                    ck_loss := loss |} in
      (Ok tt,
       {| self := self w; loader_passes := loader_passes w;
          clock_reads := S (clock_reads w);
          fs := <[joinpath dir name := obj]> (fs w);
          trace := trace w ++
                   [TorchSave (joinpath dir name) obj; Print LBlank;
                    Print (LSplitter (_splitter_size (self w)));
                    Print (LSaved name);
                    Print (LSplitter (_splitter_size (self w)));
                    Print LBlank] |})
  end.
Proof.
  unfold save_checkpoint, mbind, M_bind, get_self, utcnow_timestamp, torch_save, emit.
  simpl. destruct (checkpoint_dir (self w)) as [dir|]; [|reflexivity].
  simpl. rewrite <- !app_assoc. reflexivity.
Qed.

Lemma omap_no_marks (evs : list event) :
  Forall (fun ev => mark_of ev = None) evs -> omap mark_of evs = [].
Proof.
  induction 1 as [|ev evs Hev _ IH]; [reflexivity|].
  cbn. rewrite Hev. exact IH.
Qed.

Lemma omap_begin (e : Z) (evs rest : list event) :
  Forall (fun ev => mark_of ev = None) evs ->
  omap mark_of ((Print (LBegin e) :: evs) ++ rest) = Trained e :: omap mark_of rest.
Proof.
  intros F. rewrite omap_app.
  change (omap mark_of (Print (LBegin e) :: evs)) with (Trained e :: omap mark_of evs).
  rewrite (omap_no_marks evs F). reflexivity.
Qed.

Lemma train_marks (epoch : Z) (w : World) :
  config_eq (self w) (self (snd (train epoch w))) /\
  exists evs, trace (snd (train epoch w)) = trace w ++ Print (LBegin epoch) :: evs /\
              Forall (fun ev => mark_of ev = None) evs.
Proof.
  unfold train.
  set (rest := (values ← iter_loader; _ : M Py.f32)).
  assert (Hk : keeps (fun ev => mark_of ev = None) rest).
  { unfold rest. apply keeps_bind; [apply keeps_iter_loader|]. intros values.
    apply keeps_bind; [apply keeps_train_loop; intros; reflexivity|].
    intros l. destruct (loss l); [apply keeps_ret|apply keeps_raise]. }
  assert (Es : (emit (Print (LBegin epoch)) ≫= λ _ : (), rest) w
               = rest (emit (Print (LBegin epoch)) w).2) by reflexivity.
  rewrite Es.
  destruct (Hk (emit (Print (LBegin epoch)) w).2) as [C (evs & E & F)].
  split; [exact C|]. exists evs. split; [|assumption].
  rewrite E. simpl. rewrite <- app_assoc. reflexivity.
Qed.

Lemma call_loop_cons (e : Z) (es : list Z) (w : World) :
  call_loop (e :: es) w =
  match train e (snd (set_current_epoch e w)) with
  | (Ok l, w2) => call_loop es (snd (save_checkpoint (current_epoch (self w2)) (-1) l w2))
  | (Raise x, w2) => (Raise x, w2)
  end.
Proof.
  simpl call_loop. unfold mbind, M_bind. simpl.
  destruct (train e _) as [[l|x] w2]; [|reflexivity].
  rewrite save_checkpoint_spec. destruct (checkpoint_dir (self w2)); reflexivity.
Qed.

Lemma call_loop_marks (es : list Z) : forall w : World,
  fst (call_loop es w) = Ok tt ->
  checkpoint_dir (self (snd (call_loop es w))) = checkpoint_dir (self w) /\
  epochs (self (snd (call_loop es w))) = epochs (self w) /\
  exists evs, trace (snd (call_loop es w)) = trace w ++ evs /\
              omap mark_of evs = marks_of_epochs (checkpoint_dir (self w)) es.
Proof.
  induction es as [|e es IH]; intros w Hok.
  - simpl. repeat split. exists []. rewrite app_nil_r. split; reflexivity.
  - rewrite call_loop_cons in *.
    set (w1 := snd (set_current_epoch e w)) in *.
    destruct (train_marks e w1) as [C (evs1 & E1 & F1)].
    destruct (train e w1) as [[l|x] w2]; simpl in C, E1; [|discriminate].
    assert (Ce : current_epoch (self w2) = e) by (destruct C as (_ & _ & _ & <- & _); reflexivity).
    assert (Cd : checkpoint_dir (self w2) = checkpoint_dir (self w))
      by (destruct C as (_ & <- & _); reflexivity).
    assert (Cp : epochs (self w2) = epochs (self w))
      by (destruct C as (_ & _ & <- & _); reflexivity).
    rewrite Ce in *. rewrite save_checkpoint_spec in *. rewrite Cd in *.
    destruct (checkpoint_dir (self w)) as [dir|] eqn:Ed; simpl snd in *.
    + match type of Hok with context [call_loop es ?x] => set (w3 := x) in * end.
      destruct (IH w3 Hok) as (D3 & P3 & evs3 & E3 & M3).
      rewrite D3, P3. simpl. split; [assumption|]. split; [assumption|].
      eexists. rewrite E3. simpl. rewrite E1. simpl.
      rewrite <- !app_assoc. split; [reflexivity|].
      rewrite (omap_begin e evs1 _ F1), omap_app, M3.
      change (checkpoint_dir (self w3)) with (checkpoint_dir (self w2)).
      rewrite Cd. reflexivity.
    + destruct (IH w2 Hok) as (D3 & P3 & evs3 & E3 & M3).
      rewrite D3, P3. split; [assumption|]. split; [assumption|].
      eexists. rewrite E3, E1. rewrite <- !app_assoc. split; [reflexivity|].
      rewrite (omap_begin e evs1 _ F1), M3, Cd. reflexivity.
Qed.

Lemma run_save_mono (dir : option string) (es es' : list Z) (ev : event) :
  (forall e, In e es -> In e es') -> run_save dir es ev -> run_save dir es' ev.
Proof.
  intros Hin. destruct ev; simpl; auto.
  intros (d & ts & E1 & E2 & E3). exists d, ts. auto.
Qed.

Lemma call_loop_saves (es : list Z) : forall w : World,
  checkpoint_dir (self (snd (call_loop es w))) = checkpoint_dir (self w) /\
  exists evs, trace (snd (call_loop es w)) = trace w ++ evs /\
              Forall (run_save (checkpoint_dir (self w)) es) evs.
Proof.
  induction es as [|e es IH]; intros w.
  - simpl. split; [reflexivity|]. exists []. rewrite app_nil_r. split; [reflexivity|constructor].
  - rewrite call_loop_cons.
    set (w1 := snd (set_current_epoch e w)) in *.
    destruct (train_marks e w1) as [C (evs1 & E1 & F1)].
    assert (F1' : Forall (run_save (checkpoint_dir (self w)) (e :: es))
                    (Print (LBegin e) :: evs1)).
    { constructor; [exact I|]. eapply Forall_impl; [exact F1|].
      intros [l| |p o]; simpl; intros Hm; try exact I. discriminate. }
    destruct (train e w1) as [[l|x] w2]; simpl in C, E1.
    2:{ simpl. split; [destruct C as (_ & <- & _); reflexivity|].
        eexists. split; [exact E1|exact F1']. }
    assert (Ce : current_epoch (self w2) = e) by (destruct C as (_ & _ & _ & <- & _); reflexivity).
    assert (Cd : checkpoint_dir (self w2) = checkpoint_dir (self w))
      by (destruct C as (_ & <- & _); reflexivity).
    rewrite Ce. rewrite save_checkpoint_spec. rewrite Cd.
    destruct (checkpoint_dir (self w)) as [dir|] eqn:Ed; simpl snd.
    + match goal with |- context [call_loop es ?x] => set (w3 := x) end.
      destruct (IH w3) as (D3 & evs3 & E3 & F3).
      rewrite D3. simpl. split; [assumption|].
      eexists. rewrite E3. simpl. rewrite E1. simpl.
      rewrite <- !app_assoc. split; [reflexivity|].
      change (checkpoint_dir (self w3)) with (checkpoint_dir (self w2)) in F3.
      rewrite Cd in F3.
      apply Forall_app. split; [exact F1'|].
      constructor.
      { simpl. exists dir, (clock (clock_reads w2)). simpl. auto. }
      repeat (constructor; [exact I|]).
      eapply Forall_impl; [exact F3|]. intros ev. apply run_save_mono. simpl; auto.
    + destruct (IH w2) as (D3 & evs3 & E3 & F3).
      rewrite D3. split; [assumption|].
      eexists. rewrite E3, E1. rewrite <- !app_assoc. split; [reflexivity|].
      rewrite Cd in F3.
      apply Forall_app. split; [exact F1'|].
      eapply Forall_impl; [exact F3|]. intros ev. apply run_save_mono. simpl; auto.
Qed.

Lemma load_checkpoint_epoch (path : string) (ck : Checkpoint) (w : World) :
  fs w !! path = Some ck ->
  current_epoch (self (snd (load_checkpoint path w))) = ck_epoch ck /\
  epochs (self (snd (load_checkpoint path w))) = epochs (self w) /\
  checkpoint_dir (self (snd (load_checkpoint path w))) = checkpoint_dir (self w).
Proof.
  intros Hf. unfold load_checkpoint, mbind, M_bind, get_self, emit, torch_load,
    set_current_epoch, set_model, set_optimizer, set_self, lift. simpl.
  rewrite Hf. simpl.
  destruct (model_load_state_dict _ _) as [m|x]; simpl; [|repeat split].
  destruct (optimizer_load_state_dict _ _) as [o|x]; simpl; repeat split.
Qed.

(** *** train *)

Lemma progress_ok epoch nbatches index (a b : Py.f32) token nsp value (w w' : World) :
  progress epoch nbatches index a b token nsp value w = (Ok tt, w') ->
  self w' = self w /\
  exists evs, trace w' = trace w ++ evs /\
    omap progress_of evs =
      [(epoch + 1, index, Torch.div_int a (_print_every (self w)),
        Torch.div_int b (_print_every (self w)))] /\
    omap loss_scalar_of evs =
      [("NSP loss", Torch.div_int a (_print_every (self w)), epoch * nbatches + index);
       ("MLM loss", Torch.div_int b (_print_every (self w)), epoch * nbatches + index)].
Proof.
  unfold progress, mbind, M_bind, get_self, lift, emit. simpl.
  destruct (percentage _ _ _) as [passed|x]; [|discriminate].
  destruct (Py.mod_ _ _) as [r|x]; [|discriminate].
  destruct (r =? 0).
  - destruct (nsp_accuracy _ _) as [na|x]; [|discriminate].
    destruct (token_accuracy _ _ _) as [ta|x]; [|discriminate].
    simpl. intros [= <-]. simpl. split; [reflexivity|].
    eexists. rewrite <- !app_assoc. split; [reflexivity|]. split; reflexivity.
  - simpl. intros [= <-]. simpl. split; [reflexivity|].
    eexists. rewrite <- !app_assoc. split; [reflexivity|]. split; reflexivity.
Qed.

Lemma train_batch_ok epoch nbatches i value (l l' : locals) (w w' : World) :
  train_batch epoch nbatches i value l w = (Ok l', w') ->
  let m1 := backward (zero_grad (model (self w))) value in
  let pe := _print_every (self w) in
  exists out, forward_losses (zero_grad (model (self w))) value = Ok out /\
    model (self w') = fst (optimizer_step m1 (optimizer (self w))) /\
    optimizer (self w') = snd (optimizer_step m1 (optimizer (self w))) /\
    config_eq (self w) (self w') /\
    loss l' = Some (total_loss out) /\
    pe <> 0 /\
    if (i + 1) mod pe =? 0 then
      average_nsp_loss l' = PInt 0 /\ average_mlm_loss l' = PInt 0 /\
      exists evs, trace w' = trace w ++ evs /\
        omap progress_of evs =
          [(epoch + 1, i + 1,
            Torch.div_int (pynum_add (average_nsp_loss l) (loss_nsp out)) pe,
            Torch.div_int (pynum_add (average_mlm_loss l) (loss_token out)) pe)] /\
        omap loss_scalar_of evs =
          [("NSP loss", Torch.div_int (pynum_add (average_nsp_loss l) (loss_nsp out)) pe,
            epoch * nbatches + (i + 1));
           ("MLM loss", Torch.div_int (pynum_add (average_mlm_loss l) (loss_token out)) pe,
            epoch * nbatches + (i + 1))]
    else
      average_nsp_loss l' = PTensor (pynum_add (average_nsp_loss l) (loss_nsp out)) /\
      average_mlm_loss l' = PTensor (pynum_add (average_mlm_loss l) (loss_token out)) /\
      trace w' = trace w.
Proof.
  unfold train_batch, mbind, M_bind, get_self, set_model, set_optimizer, set_self, lift.
  simpl.
  destruct (forward_losses _ _) as [out|x]; [|discriminate]. simpl.
  destruct (optimizer_step _ _) as [m o] eqn:Eo. simpl.
  unfold Py.mod_. destruct (Z.eqb_spec (_print_every (self w)) 0) as [E0|E0]; [discriminate|].
  simpl.
  destruct ((i + 1) mod _print_every (self w) =? 0) eqn:Em.
  - match goal with
    | |- context [progress ?e ?n ?ix ?a ?b ?t ?ns ?v ?w0] =>
        destruct (progress e n ix a b t ns v w0) as [[[]|x] w1] eqn:Ep; [|discriminate];
        apply progress_ok in Ep
    end.
    destruct Ep as (Es & evs & Et & Ep1 & Ep2). simpl in Es, Et, Ep1, Ep2.
    unfold mret, M_ret. intros [= <- <-].
    exists out. split; [reflexivity|]. rewrite Es. simpl.
    split; [reflexivity|]. split; [reflexivity|]. split; [repeat split|].
    split; [reflexivity|]. split; [assumption|].
    split; [reflexivity|]. split; [reflexivity|].
    exists evs. auto.
  - unfold mret, M_ret. intros [= <- <-]. exists out. simpl.
    split; [reflexivity|]. split; [reflexivity|]. split; [reflexivity|].
    split; [repeat split|]. split; [reflexivity|]. split; [assumption|].
    split; [reflexivity|]. split; reflexivity.
Qed.

Lemma mod_abs_zero (a b : Z) : a mod b = 0 <-> a mod Z.abs b = 0.
Proof.
  destruct (Z.eq_dec b 0) as [->|Hb]; [reflexivity|].
  destruct (Z.abs_spec b) as [[_ ->]|[_ ->]]; [reflexivity|].
  split; intros Hm.
  - apply Z.mod_opp_r_z; first [assumption|lia].
  - rewrite <- (Z.opp_involutive b). apply Z.mod_opp_r_z; first [assumption|lia].
Qed.

Lemma succ_mod (p i : Z) : 0 < p -> 0 <= i ->
  ((i + 1) mod p = 0 /\ i mod p = p - 1) \/
  ((i + 1) mod p <> 0 /\ (i + 1) mod p = i mod p + 1).
Proof.
  intros Hp Hi.
  pose proof (Z.div_mod i p ltac:(lia)) as E.
  pose proof (Z.mod_pos_bound i p Hp) as B.
  destruct (Z.eq_dec (i mod p) (p - 1)) as [Em|Em].
  - left. split; [|assumption].
    symmetry. apply (Z.mod_unique_pos (i + 1) p (i / p + 1) 0); lia.
  - right. assert (Es : (i + 1) mod p = i mod p + 1).
    { symmetry. apply (Z.mod_unique_pos (i + 1) p (i / p) (i mod p + 1)); lia. }
    split; lia.
Qed.

Lemma pynum_add_val (a : pynum) (x : Py.f32) : pynum_add a x = Torch.add (pynum_val a) x.
Proof. destruct a; reflexivity. Qed.

Lemma loss_sum_snoc (f : Out -> Py.f32) (l : list Out) (o : Out) :
  loss_sum f (l ++ [o]) = Torch.add (loss_sum f l) (f o).
Proof. unfold loss_sum. rewrite map_app, fold_left_app. reflexivity. Qed.

Lemma ticks_from_S (pe : Z) (a n : nat) :
  ticks_from pe a (S n) =
  (if Z.of_nat (S a) mod pe =? 0 then [Z.of_nat (S a)] else []) ++ ticks_from pe (S a) n.
Proof.
  unfold ticks_from. simpl seq. simpl map. simpl List.filter.
  destruct (Z.of_nat (S a) mod pe =? 0); reflexivity.
Qed.

Lemma since_tick_at_tick (pe : Z) (l : list Out) :
  Z.of_nat (length l) mod pe = 0 -> since_tick pe l = [].
Proof.
  intros Hm. unfold since_tick. apply mod_abs_zero in Hm. rewrite Hm, Z.sub_0_r, Nat2Z.id.
  apply skipn_all.
Qed.

Lemma since_tick_snoc (pe : Z) (done : list Out) (o : Out) : pe <> 0 ->
  Z.of_nat (S (length done)) mod pe <> 0 ->
  since_tick pe (done ++ [o]) = since_tick pe done ++ [o].
Proof.
  intros Hpe Hm. unfold since_tick. rewrite length_app. simpl length.
  replace (length done + 1)%nat with (S (length done)) by lia.
  assert (Hm' : Z.of_nat (S (length done)) mod Z.abs pe <> 0).
  { intros E. apply Hm. apply mod_abs_zero. assumption. }
  rewrite Nat2Z.inj_succ in *. unfold Z.succ in *.
  destruct (succ_mod (Z.abs pe) (Z.of_nat (length done)) ltac:(lia) ltac:(lia))
    as [[E _]|[_ E]]; [contradiction|].
  rewrite E.
  replace (Z.of_nat (length done) + 1 - (Z.of_nat (length done) mod Z.abs pe + 1))
    with (Z.of_nat (length done) - Z.of_nat (length done) mod Z.abs pe) by lia.
  pose proof (Z.mod_pos_bound (Z.of_nat (length done)) (Z.abs pe) ltac:(lia)).
  rewrite skipn_app.
  set (b := Z.to_nat (Z.of_nat (length done) - Z.of_nat (length done) mod Z.abs pe)).
  assert (Hb : (b <= length done)%nat) by lia.
  replace (b - length done)%nat with 0%nat by lia. reflexivity.
Qed.

Lemma window_at_tick (pe : Z) (done rest : list Out) (o : Out) : pe <> 0 ->
  Z.of_nat (S (length done)) mod pe = 0 ->
  window pe (Z.of_nat (S (length done))) ((done ++ [o]) ++ rest)
  = since_tick pe done ++ [o].
Proof.
  intros Hpe Hm. unfold window, since_tick. rewrite Nat2Z.id.
  assert (Ef : firstn (S (length done)) ((done ++ [o]) ++ rest) = done ++ [o]).
  { rewrite firstn_app. rewrite length_app. simpl length.
    replace (S (length done) - (length done + 1))%nat with 0%nat by lia.
    rewrite firstn_all2 by (rewrite length_app; simpl; lia).
    simpl. apply app_nil_r. }
  rewrite Ef. apply mod_abs_zero in Hm.
  rewrite Nat2Z.inj_succ in *. unfold Z.succ in *.
  destruct (succ_mod (Z.abs pe) (Z.of_nat (length done)) ltac:(lia) ltac:(lia))
    as [[_ E]|[E _]]; [|contradiction].
  rewrite E.
  replace (Z.of_nat (length done) + 1 - Z.abs pe)
    with (Z.of_nat (length done) - (Z.abs pe - 1)) by lia.
  pose proof (Z.mod_pos_bound (Z.of_nat (length done)) (Z.abs pe) ltac:(lia)).
  rewrite skipn_app.
  set (b := Z.to_nat (Z.of_nat (length done) - (Z.abs pe - 1))).
  assert (Hb : (b <= length done)%nat) by lia.
  replace (b - length done)%nat with 0%nat by lia. reflexivity.
Qed.

Lemma window_app (pe k : Z) (l1 l2 : list Out) :
  k <= Z.of_nat (length l1) -> window pe k (l1 ++ l2) = window pe k l1.
Proof.
  intros Hk. unfold window. rewrite firstn_app.
  replace (Z.to_nat k - length l1)%nat with 0%nat by lia.
  simpl. rewrite app_nil_r. reflexivity.
Qed.

Lemma reported_at_tick (f : Out -> Py.f32) (pe : Z) (done rest : list Out) (o : Out)
    (a : pynum) : pe <> 0 ->
  Z.of_nat (S (length done)) mod pe = 0 ->
  pynum_val a = loss_sum f (since_tick pe done) ->
  reported f pe (Z.of_nat (S (length done))) ((done ++ [o]) ++ rest)
  = Torch.div_int (pynum_add a (f o)) pe.
Proof.
  intros Hpe Hm Ha. unfold reported.
  rewrite window_at_tick by assumption.
  rewrite loss_sum_snoc, <- Ha, pynum_add_val. reflexivity.
Qed.

Lemma train_loop_spec (epoch nbatches : Z) (vs : list (Batch Input AttnMask)) :
  forall (done : list Out) (l l' : locals) (w w' : World),
  train_loop epoch nbatches (Z.of_nat (length done)) vs l w = (Ok l', w') ->
  let pe := _print_every (self w) in
  pynum_val (average_nsp_loss l) = loss_sum loss_nsp (since_tick pe done) ->
  pynum_val (average_mlm_loss l) = loss_sum loss_token (since_tick pe done) ->
  exists outs,
    epoch_outs (model (self w)) (optimizer (self w)) vs = Ok outs /\
    length outs = length vs /\
    config_eq (self w) (self w') /\
    loss l' = match last outs with Some o => Some (total_loss o) | None => loss l end /\
    pynum_val (average_nsp_loss l') = loss_sum loss_nsp (since_tick pe (done ++ outs)) /\
    pynum_val (average_mlm_loss l') = loss_sum loss_token (since_tick pe (done ++ outs)) /\
    (vs <> [] -> pe <> 0) /\
    exists evs, trace w' = trace w ++ evs /\
      omap progress_of evs =
        progress_lines epoch pe (done ++ outs)
          (ticks_from pe (length done) (length outs)) /\
      omap loss_scalar_of evs =
        loss_scalars epoch nbatches pe (done ++ outs)
          (ticks_from pe (length done) (length outs)).
Proof.
  induction vs as [|v vs IH]; intros done l l' w w' Hrun pe Hn Hm.
  - simpl in Hrun. injection Hrun as <- <-. exists []. simpl.
    rewrite app_nil_r. repeat split; try assumption; try apply config_eq_refl.
    + congruence.
    + exists []. rewrite app_nil_r. repeat split.
  - simpl train_loop in Hrun. unfold mbind, M_bind in Hrun.
    destruct (train_batch epoch nbatches (Z.of_nat (length done)) v l w)
      as [[l1|x] w1] eqn:Eb; [|discriminate].
    apply train_batch_ok in Eb. cbv zeta in Eb. fold pe in Eb.
    destruct Eb as (out & Ef & Em1 & Eo1 & C1 & El1 & Hpe & Etick).
    assert (Epe : _print_every (self w1) = pe) by (destruct C1 as (_&_&_&_&_&_&_&<-&_); reflexivity).
    assert (Elen : Z.of_nat (length (done ++ [out])) = Z.of_nat (length done) + 1).
    { rewrite length_app. simpl. lia. }
    assert (Ek : Z.of_nat (S (length done)) = Z.of_nat (length done) + 1) by lia.
    rewrite <- Elen in Hrun.
    assert (Hacc : pynum_val (average_nsp_loss l1) = loss_sum loss_nsp (since_tick pe (done ++ [out])) /\
                   pynum_val (average_mlm_loss l1) = loss_sum loss_token (since_tick pe (done ++ [out]))).
    { destruct (Z.eqb_spec ((Z.of_nat (length done) + 1) mod pe) 0) as [Et|Et].
      - destruct Etick as (-> & -> & _).
        rewrite since_tick_at_tick by (rewrite Elen; assumption). split; reflexivity.
      - destruct Etick as (-> & -> & _). simpl pynum_val.
        rewrite since_tick_snoc by (try assumption; rewrite Ek; assumption).
        rewrite !loss_sum_snoc, !pynum_add_val, Hn, Hm. split; reflexivity. }
    destruct Hacc as [Hn1 Hm1].
    specialize (IH (done ++ [out]) l1 l' w1 w' Hrun). cbv zeta in IH. rewrite Epe in IH.
    destruct (IH Hn1 Hm1) as (outs & Eouts & Elo & C2 & El' & Hn' & Hm' & _ & evs2 & Et2 & Ep2 & Es2).
    exists (out :: outs).
    assert (Eapp : (done ++ [out]) ++ outs = done ++ out :: outs)
      by (rewrite <- app_assoc; reflexivity).
    rewrite Eapp in *.
    split.
    { simpl epoch_outs. rewrite Ef. unfold mbind, result_bind.
      destruct (optimizer_step _ _) as [m' o'] eqn:Eos. simpl in Em1, Eo1.
      rewrite <- Em1, <- Eo1, Eouts. reflexivity. }
    split; [simpl; congruence|].
    split; [eapply config_eq_trans; eassumption|].
    split.
    { rewrite El'. rewrite El1. destruct outs as [|o2 outs2]; [reflexivity|].
      change (last (out :: o2 :: outs2)) with (last (o2 :: outs2)).
      destruct (last (o2 :: outs2)) eqn:E; [reflexivity|].
      apply last_None in E. discriminate. }
    split; [assumption|]. split; [assumption|]. split; [intros _; assumption|].
    assert (Elen' : length (done ++ [out]) = S (length done))
      by (rewrite length_app; simpl; lia).
    rewrite Elen' in Ep2, Es2.
    simpl length. rewrite ticks_from_S.
    unfold progress_lines, loss_scalars. rewrite map_app, flat_map_app.
    fold (progress_lines epoch pe (done ++ out :: outs) (ticks_from pe (S (length done)) (length outs))).
    fold (loss_scalars epoch nbatches pe (done ++ out :: outs) (ticks_from pe (S (length done)) (length outs))).
    rewrite <- Ep2, <- Es2. rewrite Ek.
    destruct (Z.eqb_spec ((Z.of_nat (length done) + 1) mod pe) 0) as [Et|Et].
    + destruct Etick as (_ & _ & evs1 & Et1 & Ep1 & Es1).
      exists (evs1 ++ evs2). rewrite Et2, Et1, <- app_assoc.
      split; [reflexivity|]. rewrite !omap_app, Ep1, Es1.
      simpl map. simpl flat_map. rewrite <- Ek, <- Eapp.
      assert (Hmod : Z.of_nat (S (length done)) mod pe = 0) by (rewrite Ek; assumption).
      rewrite (reported_at_tick loss_nsp pe done outs out (average_nsp_loss l) Hpe Hmod Hn).
      rewrite (reported_at_tick loss_token pe done outs out (average_mlm_loss l) Hpe Hmod Hm).
      split; reflexivity.
    + destruct Etick as (_ & _ & Et1).
      exists evs2. rewrite Et2, Et1. split; [reflexivity|]. split; reflexivity.
Qed.

Lemma train_unfold (epoch : Z) (w : World) :
  train epoch w =
  let values := loader (loader_passes w) in
  match train_loop epoch (Z.of_nat (length values)) 0 values locals0 (loop_start epoch w) with
  | (Ok l, w2) =>
      match loss l with
      | Some x => (Ok x, w2)
      | None => (Raise UnboundLocalError, w2)
      end
  | (Raise e, w2) => (Raise e, w2)
  end.
Proof.
  unfold train, mbind, M_bind. simpl. unfold loop_start. simpl.
  destruct (train_loop _ _ _ _ _ _) as [[l|e] w2]; [|reflexivity].
  destruct (loss l); reflexivity.
Qed.

Lemma progress_of_no_begin (e : Z) (evs : list event) :
  omap progress_of (Print (LBegin e) :: evs) = omap progress_of evs.
Proof. reflexivity. Qed.

Lemma loss_scalar_of_no_begin (e : Z) (evs : list event) :
  omap loss_scalar_of (Print (LBegin e) :: evs) = omap loss_scalar_of evs.
Proof. reflexivity. Qed.

(** What a completed loop of [train] leaves. *)
Lemma train_loop_complete (epoch : Z) (w : World) (l : locals) (w2 : World) :
  let values := loader (loader_passes w) in
  let pe := _print_every (self w) in
  train_loop epoch (Z.of_nat (length values)) 0 values locals0 (loop_start epoch w)
    = (Ok l, w2) ->
  exists outs,
    epoch_outs (model (self w)) (optimizer (self w)) values = Ok outs /\
    length outs = length values /\
    config_eq (self w) (self w2) /\
    loss l = option_map total_loss (last outs) /\
    (values <> [] -> pe <> 0) /\
    exists evs, trace w2 = trace w ++ evs /\
      omap progress_of evs = progress_lines epoch pe outs (ticks pe (length values)) /\
      omap loss_scalar_of evs =
        loss_scalars epoch (Z.of_nat (length values)) pe outs (ticks pe (length values)).
Proof.
  intros values pe Hrun.
  pose proof (train_loop_spec epoch (Z.of_nat (length values)) values [] locals0 l
                (loop_start epoch w) w2 Hrun) as Hs.
  cbv zeta in Hs. specialize (Hs eq_refl eq_refl).
  destruct Hs as (outs & Eo & El & C & Elo & _ & _ & Hpe & evs & Et & Ep & Es).
  exists outs. simpl in Eo, C, Hpe, Et, Ep, Es. fold pe in Hpe, Ep, Es.
  split; [assumption|]. split; [assumption|]. split; [assumption|].
  split; [rewrite Elo; destruct (last outs); reflexivity|]. split; [assumption|].
  exists (Print (LBegin epoch) :: evs). rewrite Et, <- app_assoc.
  split; [reflexivity|]. rewrite progress_of_no_begin, loss_scalar_of_no_begin.
  rewrite El in Ep, Es. split; assumption.
Qed.

End TrainerFacts.

Import IEEE IEEEFacts AccuracyFacts.

(** *** The exceptions of the loop of train *)

Section Unbound.
Context `{Environment}.

Lemma bound_bind {A B : Type} (m : M A) (k : A -> M B) :
  bound m -> (forall a, bound (k a)) -> bound (m ≫= k).
Proof.
  intros Hm Hk w. unfold mbind, M_bind. specialize (Hm w).
  destruct (m w) as [[a|e] w1]; simpl in *; [apply Hk|].
  intros E. apply Hm. injection E as ->. reflexivity.
Qed.

Lemma bound_ret {A : Type} (a : A) : bound (mret a).
Proof. intros w. discriminate. Qed.

Lemma bound_lift {A : Type} (r : result A) : r <> Raise UnboundLocalError -> bound (lift r).
Proof. intros Hr w. exact Hr. Qed.

Lemma result_bound_bind {A B : Type} (r : result A) (k : A -> result B) :
  r <> Raise UnboundLocalError -> (forall a, k a <> Raise UnboundLocalError) ->
  (r ≫= k) <> Raise UnboundLocalError.
Proof.
  intros Hr Hk. destruct r as [a|e]; simpl; [apply Hk|].
  intros E. apply Hr. injection E as ->. reflexivity.
Qed.

Ltac break_matches :=
  repeat match goal with
         | |- (match ?x with _ => _ end) <> _ => destruct x
         | |- (if ?x then _ else _) <> _ => destruct x
         end.

Ltac result_bound :=
  repeat (first [ apply result_bound_bind; [|intros ?]
                | progress break_matches
                | discriminate ]).

Lemma floordiv_bound a b : Py.floordiv a b <> Raise UnboundLocalError.
Proof. unfold Py.floordiv. result_bound. Qed.

Lemma mod_bound a b : Py.mod_ a b <> Raise UnboundLocalError.
Proof. unfold Py.mod_. result_bound. Qed.

Lemma truediv_bound a b : Py.truediv a b <> Raise UnboundLocalError.
Proof. unfold Py.truediv. result_bound. Qed.

Lemma mul_int_bound x k : Py.mul_int x k <> Raise UnboundLocalError.
Proof. unfold Py.mul_int, Py.float_of_int. result_bound. Qed.

Lemma argmax1_bound t : Torch.argmax1 t <> Raise UnboundLocalError.
Proof. unfold Torch.argmax1. result_bound. Qed.

Lemma argmax_last_bound t : Torch.argmax_last t <> Raise UnboundLocalError.
Proof. unfold Torch.argmax_last. result_bound. Qed.

Lemma masked_select_bound {A : Type} (t : Torch.tensor2 A) m :
  Torch.masked_select t m <> Raise UnboundLocalError.
Proof. unfold Torch.masked_select. result_bound. Qed.

Lemma eq1_bound a b : Torch.eq1 a b <> Raise UnboundLocalError.
Proof. unfold Torch.eq1. result_bound. Qed.

Lemma percentage_bound (b n c : Z) : percentage b n c <> Raise UnboundLocalError.
Proof.
  unfold percentage.
  repeat (first [ apply floordiv_bound | apply truediv_bound | apply mul_int_bound
                | apply result_bound_bind; [|intros ?] | discriminate ]).
Qed.

Lemma nsp_accuracy_bound r t : nsp_accuracy r t <> Raise UnboundLocalError.
Proof.
  unfold nsp_accuracy.
  repeat (first [ apply argmax1_bound | apply eq1_bound
                | apply result_bound_bind; [|intros ?] | discriminate ]).
Qed.

Lemma token_accuracy_bound r t m : token_accuracy r t m <> Raise UnboundLocalError.
Proof.
  unfold token_accuracy.
  repeat (first [ apply argmax_last_bound | apply masked_select_bound | apply eq1_bound
                | apply result_bound_bind; [|intros ?] | discriminate ]).
Qed.

Lemma forward_losses_bound m v : forward_losses m v <> Raise UnboundLocalError.
Proof.
  unfold forward_losses, Torch.unsqueeze_expand_as.
  destruct (forward _ _ _) as [token nsp]. result_bound.
Qed.

Ltac bound_step :=
  first
    [ apply bound_ret
    | apply bound_lift;
      first [apply percentage_bound | apply nsp_accuracy_bound
            | apply token_accuracy_bound | apply forward_losses_bound | apply mod_bound]
    | intros w; discriminate
    | apply bound_bind; [|intros ?] ].

Lemma progress_bound epoch nbatches index a b token nsp value :
  bound (progress epoch nbatches index a b token nsp value).
Proof.
  unfold progress. repeat bound_step.
  destruct (_ =? 0); repeat bound_step.
Qed.

Lemma train_batch_bound epoch nbatches i value l :
  bound (train_batch epoch nbatches i value l).
Proof.
  unfold train_batch. repeat bound_step.
  destruct (optimizer_step _ _) as [m o]. repeat bound_step.
  destruct (_ =? 0); repeat (first [apply progress_bound|bound_step]).
Qed.

Lemma train_loop_bound epoch nbatches values :
  forall i l, bound (train_loop epoch nbatches i values l).
Proof.
  induction values as [|v vs IH]; intros i l; simpl.
  - apply bound_ret.
  - apply bound_bind; [apply train_batch_bound|]. intros l'. apply IH.
Qed.

End Unbound.

(** * The claims *)

Section Claims.
Context `{Environment}.

(** C1: [__call__] iterates the epochs from [current_epoch] up to [epochs]
    (exclusive), training and then saving a checkpoint once an epoch, and
    [load_checkpoint] sets [current_epoch] to the stored epoch, so that the
    next call begins at that very epoch.  Stated on the marks the calls
    leave in the trace, for calls that complete. *)
Theorem resume_semantics (w : World) (path : string) (ck : Checkpoint) :
  fs w !! path = Some ck ->
  fst (__call__ w) = Ok tt ->
  fst (__call__ (snd (load_checkpoint path w))) = Ok tt ->
  (exists evs, trace (snd (__call__ w)) = trace w ++ evs /\
     omap mark_of evs =
       marks_of_epochs (checkpoint_dir (self w))
         (range (current_epoch (self w)) (epochs (self w)))) /\
  current_epoch (self (snd (load_checkpoint path w))) = ck_epoch ck /\
  (exists evs,
     trace (snd (__call__ (snd (load_checkpoint path w))))
       = trace (snd (load_checkpoint path w)) ++ evs /\
     omap mark_of evs =
       marks_of_epochs (checkpoint_dir (self w))
         (range (ck_epoch ck) (epochs (self w))) /\
     (ck_epoch ck < epochs (self w) ->
      exists rest, omap mark_of evs = Trained (ck_epoch ck) :: rest)).
Proof.
  intros Hf Hrun Hrun'.
  destruct (load_checkpoint_epoch path ck w Hf) as (Ec & Ee & Ed).
  split; [|split; [exact Ec|]].
  - unfold __call__ in *. unfold mbind, M_bind, get_self in *. simpl in *.
    destruct (call_loop_marks _ w Hrun) as (_ & _ & evs & Et & Em).
    exists evs. split; assumption.
  - set (w1 := snd (load_checkpoint path w)) in *.
    unfold __call__ in *. unfold mbind, M_bind, get_self in *. simpl in *.
    destruct (call_loop_marks _ w1 Hrun') as (_ & _ & evs & Et & Em).
    rewrite Ec, Ee, Ed in Em. rewrite Ec, Ee in Et.
    exists evs. split; [rewrite Ec, Ee; exact Et|]. split; [exact Em|].
    intros Hlt. rewrite Em. unfold range.
    destruct (Z.to_nat (epochs (self w) - ck_epoch ck)) as [|k] eqn:Ek; [lia|].
    simpl. rewrite Z.add_0_r. eexists. reflexivity.
Qed.

(** C6, as amended: [save_checkpoint] does nothing when no checkpoint
    directory is configured; otherwise it writes the record of epoch, model
    state, optimizer state and loss to the file
    [bert_epoch<E>_step<S>_<timestamp>.pt] of that directory and leaves the
    trainer and every file of another name as they were: no file is removed,
    and only a file of that very name (same epoch, step and timestamp) is
    replaced. *)
Theorem save_checkpoint_frame (epoch step : Z) (loss_ : Py.f32) (w : World) :
  match checkpoint_dir (self w) with
  | None => save_checkpoint epoch step loss_ w = (Ok tt, w)
  | Some dir =>
      let path := dir +:+ "/bert_epoch" +:+ pretty epoch +:+ "_step" +:+ pretty step
                    +:+ "_" +:+ pretty (clock (clock_reads w)) +:+ ".pt" in
      let obj := {| ck_epoch := epoch;
                    ck_model_state_dict := model_state_dict (model (self w));
                    ck_optimizer_state_dict := optimizer_state_dict (optimizer (self w));
                    ck_loss := loss_ |} in
      let w' := snd (save_checkpoint epoch step loss_ w) in
      fst (save_checkpoint epoch step loss_ w) = Ok tt /\
      self w' = self w /\
      fs w' = <[path := obj]> (fs w) /\
      fs w' !! path = Some obj /\
      (forall q, q <> path -> fs w' !! q = fs w !! q) /\
      (forall q, is_Some (fs w !! q) -> is_Some (fs w' !! q))
  end.
Proof.
  rewrite save_checkpoint_spec.
  destruct (checkpoint_dir (self w)) as [dir|]; [|reflexivity].
  cbv zeta. simpl fst. simpl snd. simpl self. simpl fs.
  change (joinpath dir (checkpoint_name epoch step (clock (clock_reads w))))
    with (dir +:+ "/bert_epoch" +:+ pretty epoch +:+ "_step" +:+ pretty step
            +:+ "_" +:+ pretty (clock (clock_reads w)) +:+ ".pt").
  set (path := dir +:+ _).
  split; [reflexivity|]. split; [reflexivity|]. split; [reflexivity|].
  split; [apply lookup_insert_eq|]. split.
  - intros q Hq. apply lookup_insert_ne. congruence.
  - intros q Hq. destruct (decide (path = q)) as [<-|Hne].
    + rewrite lookup_insert_eq. eexists. reflexivity.
    + rewrite lookup_insert_ne by assumption. assumption.
Qed.

(** C9, as amended: with no batch, [train] fails with the unbound-variable
    error at its return statement; with at least one batch it never fails
    with that error, and whenever the loop over the batches completes (no
    iteration raises) it returns the total loss, token loss plus pair loss,
    of the last batch. *)
Theorem train_returns_last_loss (epoch : Z) (w : World) :
  let values := loader (loader_passes w) in
  (values = [] -> fst (train epoch w) = Raise UnboundLocalError) /\
  (values <> [] ->
   fst (train epoch w) <> Raise UnboundLocalError /\
   forall l w2,
     train_loop epoch (Z.of_nat (length values)) 0 values locals0 (loop_start epoch w)
       = (Ok l, w2) ->
     exists outs o,
       epoch_outs (model (self w)) (optimizer (self w)) values = Ok outs /\
       last outs = Some o /\
       train epoch w = (Ok (Torch.add (loss_token o) (loss_nsp o)), w2)).
Proof.
  cbv zeta. split.
  - intros Hv. rewrite train_unfold. cbv zeta. rewrite Hv. reflexivity.
  - intros Hv.
    assert (Hc : forall l w2,
      train_loop epoch (Z.of_nat (length (loader (loader_passes w)))) 0
        (loader (loader_passes w)) locals0 (loop_start epoch w) = (Ok l, w2) ->
      exists outs o,
        epoch_outs (model (self w)) (optimizer (self w)) (loader (loader_passes w)) = Ok outs /\
        last outs = Some o /\ loss l = Some (total_loss o)).
    { intros l w2 Hrun.
      destruct (train_loop_complete epoch w l w2 Hrun)
        as (outs & Eo & El & _ & Elo & _).
      destruct (last outs) as [o|] eqn:Ela.
      - exists outs, o. auto.
      - apply last_None in Ela. subst outs. simpl in El.
        destruct (loader (loader_passes w)); [contradiction|discriminate]. }
    split.
    + rewrite train_unfold. cbv zeta.
      pose proof (train_loop_bound epoch (Z.of_nat (length (loader (loader_passes w))))
                    (loader (loader_passes w)) 0 locals0 (loop_start epoch w)) as Hb.
      destruct (train_loop _ _ _ _ _ _) as [[l|e] w2] eqn:Hrun; simpl in *.
      * destruct (Hc l w2 eq_refl) as (outs & o & _ & _ & ->). discriminate.
      * intros E. apply Hb. injection E as ->. reflexivity.
    + intros l w2 Hrun. destruct (Hc l w2 Hrun) as (outs & o & Eo & Ela & Elo).
      exists outs, o. split; [assumption|]. split; [assumption|].
      rewrite train_unfold. cbv zeta. rewrite Hrun, Elo. reflexivity.
Qed.

(** C3: when [train epoch] completes, its progress lines are exactly one per
    batch index that is a multiple of the reporting period, in order; the
    line at index [k] shows the sums of the pair losses and of the token
    losses of the batches since the previous tick, each divided by the
    period, and the two loss scalars of the tick carry the global step
    [epoch * batches + k]; an iteration that reports leaves both running
    sums at the int zero; over four batches with period 2 there are two
    progress lines, at indices 2 and 4, with global steps [epoch * 4 + 2]
    and [epoch * 4 + 4]. *)
Theorem progress_every_period (epoch : Z) (w w' : World) (x : Py.f32) :
  train epoch w = (Ok x, w') ->
  let values := loader (loader_passes w) in
  let n := length values in
  let pe := _print_every (self w) in
  exists outs evs,
    epoch_outs (model (self w)) (optimizer (self w)) values = Ok outs /\
    trace w' = trace w ++ evs /\
    omap progress_of evs =
      map (fun k => (epoch + 1, k,
                     Torch.div_int (loss_sum loss_nsp (window pe k outs)) pe,
                     Torch.div_int (loss_sum loss_token (window pe k outs)) pe))
          (ticks pe n) /\
    omap loss_scalar_of evs =
      flat_map (fun k =>
                  [("NSP loss", Torch.div_int (loss_sum loss_nsp (window pe k outs)) pe,
                    epoch * Z.of_nat n + k);
                   ("MLM loss", Torch.div_int (loss_sum loss_token (window pe k outs)) pe,
                    epoch * Z.of_nat n + k)])
               (ticks pe n) /\
    (forall nbatches i value l l' w1 w1',
       train_batch epoch nbatches i value l w1 = (Ok l', w1') ->
       (i + 1) mod _print_every (self w1) = 0 ->
       average_nsp_loss l' = PInt 0 /\ average_mlm_loss l' = PInt 0) /\
    (n = 4%nat -> pe = 2 ->
     map (fun p => snd (fst (fst p))) (omap progress_of evs) = [2; 4] /\
     map snd (omap loss_scalar_of evs)
       = [epoch * 4 + 2; epoch * 4 + 2; epoch * 4 + 4; epoch * 4 + 4]).
Proof.
  intros Ht values n pe. rewrite train_unfold in Ht. cbv zeta in Ht.
  fold values in Ht.
  destruct (train_loop _ _ _ _ _ _) as [[l|e] w2] eqn:Hrun; [|discriminate].
  assert (Ew : w2 = w') by (destruct (loss l); congruence). subst w2.
  destruct (train_loop_complete epoch w l w' Hrun)
    as (outs & Eo & El & _ & _ & _ & evs & Et & Ep & Es).
  fold values in Eo, El, Ep, Es. fold n in Ep, Es. fold pe in Ep, Es.
  exists outs, evs.
  split; [exact Eo|]. split; [exact Et|].
  split; [exact Ep|]. split; [exact Es|].
  split.
  { intros nbatches i value l0 l' w1 w1' Hb Hmod.
    destruct (train_batch_ok _ _ _ _ _ _ _ _ Hb)
      as (out & _ & _ & _ & _ & _ & _ & Hif).
    apply Z.eqb_eq in Hmod. rewrite Hmod in Hif.
    destruct Hif as (A1 & A2 & _). split; assumption. }
  intros Hn Hpe. rewrite Ep, Es, Hn, Hpe.
  unfold progress_lines, loss_scalars. split; reflexivity.
Qed.

End Claims.

Lemma train_returns_last_loss_witness :
  fst (@train _ Toy.environment 0 (Toy.world 8 2)) = Ok (Toy.f32 4) /\
  fst (@train _ Toy.empty_environment 0 (Toy.world 8 2)) = Raise UnboundLocalError.
Proof.
  destruct (@train_returns_last_loss _ Toy.environment 0 (Toy.world 8 2))
    as [_ Hne].
  destruct (@train_returns_last_loss _ Toy.empty_environment 0 (Toy.world 8 2))
    as [He _].
  split; [|apply He; reflexivity].
  destruct (Hne ltac:(discriminate)) as [_ Hl].
  destruct (Hl _ _ ltac:(vm_compute; reflexivity)) as (outs & o & Eo & Ela & Et).
  rewrite Et. simpl fst. f_equal.
  vm_compute in Eo. injection Eo as <-. vm_compute in Ela. injection Ela as <-.
  vm_compute. reflexivity.
Defined.

(** C9, as stated, fails: one batch of a dataset shorter than a batch, with
    progress reported at every batch, makes [percentage] divide by zero. *)
Lemma train_one_batch_raises :
  @loader _ Toy.small_environment 0 <> [] /\
  fst (@train _ Toy.small_environment 0 (Toy.world 1 1)) = Raise ZeroDivisionError.
Proof. split; [discriminate|vm_compute; reflexivity]. Qed.

(** C6, as stated, fails: a second checkpoint of the same epoch and step,
    saved within the same second, replaces the first one; no new file
    appears. *)
Lemma save_checkpoint_overwrites :
  let w0 := Toy.world 8 2 in
  let w1 := snd (@save_checkpoint _ Toy.small_environment 0 (-1) (Toy.f32 1) w0) in
  let w2 := snd (@save_checkpoint _ Toy.small_environment 0 (-1) (Toy.f32 2) w1) in
  let path := "ckpt/bert_epoch0_step-1_1700000000.pt" in
  (exists old, fs w1 !! path = Some old /\ ck_loss old = Toy.f32 1 /\
     exists new, fs w2 !! path = Some new /\ ck_loss new = Toy.f32 2 /\ new <> old) /\
  dom (fs w2) = dom (fs w1).
Proof.
  cbv zeta. rewrite !save_checkpoint_spec. simpl.
  split.
  - eexists. split; [apply lookup_insert_eq|]. split; [reflexivity|].
    eexists. split; [apply lookup_insert_eq|]. split; [reflexivity|].
    intros E. inversion E.
  - rewrite insert_insert_eq. reflexivity.
Qed.

Lemma resume_semantics_witness :
  let w := Toy.world_with_checkpoint in
  fst (@__call__ _ Toy.environment w) = Ok tt /\
  current_epoch (self (snd (@load_checkpoint _ "ckpt/old.pt" w))) = 1 /\
  exists evs,
    trace (snd (@__call__ _ Toy.environment
                  (snd (@load_checkpoint _ "ckpt/old.pt" w))))
      = trace (snd (@load_checkpoint _ "ckpt/old.pt" w)) ++ evs /\
    omap mark_of evs = [Trained 1; Saved 1].
Proof.
  intros w.
  assert (Hf : fs w !! "ckpt/old.pt" = Some Toy.saved) by reflexivity.
  assert (H1 : fst (@__call__ _ Toy.environment w) = Ok tt) by (vm_compute; reflexivity).
  assert (H2 : fst (@__call__ _ Toy.environment
                      (snd (@load_checkpoint _ "ckpt/old.pt" w))) = Ok tt)
    by (vm_compute; reflexivity).
  destruct (@resume_semantics _ Toy.environment w "ckpt/old.pt" Toy.saved Hf H1 H2)
    as (_ & Hc & evs & Et & Em & _).
  split; [exact H1|]. split; [exact Hc|]. exists evs. split; [exact Et|exact Em].
Defined.

Lemma progress_every_period_witness :
  exists evs,
    trace (snd (@train _ Toy.environment 1 (Toy.world 8 2)))
      = trace (Toy.world 8 2) ++ evs /\
    map (fun p => snd (fst (fst p))) (omap progress_of evs) = [2; 4] /\
    map snd (omap loss_scalar_of evs) = [6; 6; 8; 8].
Proof.
  destruct (@progress_every_period _ Toy.environment 1 (Toy.world 8 2)
              (snd (@train _ Toy.environment 1 (Toy.world 8 2)))
              (Toy.f32 4) ltac:(vm_compute; reflexivity))
    as (outs & evs & _ & Et & _ & _ & _ & Hs).
  exists evs. split; [exact Et|].
  apply Hs; reflexivity.
Defined.

(** * The claims on [percentage] *)

(** C4: when [dataset_size // batch_size] is at least 1, [percentage] is
    the formula [round(current / (dataset_size // batch_size) * 100, 2)]:
    it fails where the formula fails and returns what the formula returns;
    a returned value is the quotient rounded to a double, times [100.0]
    rounded to a double, rounded to two decimals and to a double again;
    [percentage 2 10 3] is [60.0]. *)
Theorem percentage_is_formula (b n c : Z) :
  1 <= n / b ->
  percentage b n c = percentage_spec (n / b) c /\
  (forall v, percentage b n c = Ok v ->
             ord Py.prec64 Py.emax64 v = percentage_value (n / b) c) /\
  percentage 2 10 3 = Ok f64_60.
Proof.
  intros Hd. split; [|split].
  - unfold percentage, percentage_spec, Py.floordiv.
    destruct (b =? 0) eqn:Eb.
    + apply Z.eqb_eq in Eb. subst b. rewrite Z.div_0_r in Hd. lia.
    + reflexivity.
  - intros v Hv. destruct (percentage_ord b n c v Hd Hv) as (_ & _ & Ho). exact Ho.
  - vm_compute. reflexivity.
Qed.

Lemma percentage_is_formula_witness :
  percentage 2 10 3 = percentage_spec 5 3 /\
  ord Py.prec64 Py.emax64 f64_60 = percentage_value 5 3.
Proof.
  destruct (percentage_is_formula 2 10 3 ltac:(vm_compute; discriminate))
    as (Hf & Hv & H60).
  split; [exact Hf|]. apply (Hv f64_60 H60).
Defined.

(** C7: for a batch size and a dataset size with
    [dataset_size // batch_size >= 1], the value [percentage] returns does
    not decrease when the current index grows, and at the index
    [dataset_size // batch_size] it is exactly [100.0]. *)
Theorem percentage_monotone (b n c1 c2 : Z) (v1 v2 : Py.f64) :
  1 <= n / b -> c1 <= c2 ->
  percentage b n c1 = Ok v1 -> percentage b n c2 = Ok v2 ->
  SFleb v1 v2 = true /\ percentage b n (n / b) = Ok f64_100.
Proof.
  intros Hd Hc H1 H2. split; [|apply percentage_full; assumption].
  destruct (percentage_ord b n c1 v1 Hd H1) as (V1 & N1 & O1).
  destruct (percentage_ord b n c2 v2 Hd H2) as (V2 & N2 & O2).
  apply (SFleb_ord _ _ prec64_pos prec64_emax64 v1 v2 V1 V2 N1 N2).
  rewrite O1, O2. apply percentage_value_mono; [lia|assumption].
Qed.

Lemma percentage_monotone_witness :
  SFleb f64_60 (S754_finite false 5629499534213120 (-46)) = true /\
  percentage 2 10 5 = Ok f64_100.
Proof.
  apply (percentage_monotone 2 10 3 4);
    [vm_compute; discriminate | lia | vm_compute; reflexivity | vm_compute; reflexivity].
Defined.

(** C8: [percentage] fails with [ZeroDivisionError] whenever
    [dataset_size // batch_size] is zero, so for every dataset size from 0
    up to the batch size excluded; for a zero batch size the floor division
    itself fails; and when [dataset_size >= batch_size > 0] it does not
    fail with [ZeroDivisionError]. *)
Theorem percentage_zero_division (b n c : Z) :
  (b = 0 -> Py.floordiv n b = Raise ZeroDivisionError /\
            percentage b n c = Raise ZeroDivisionError) /\
  (n / b = 0 -> percentage b n c = Raise ZeroDivisionError) /\
  (0 <= n < b -> percentage b n c = Raise ZeroDivisionError) /\
  (0 < b <= n -> percentage b n c <> Raise ZeroDivisionError).
Proof.
  assert (Hz : n / b = 0 -> percentage b n c = Raise ZeroDivisionError).
  { intros Hq. unfold percentage, Py.floordiv.
    destruct (b =? 0); [reflexivity|]. simpl. rewrite Hq. reflexivity. }
  split; [|split; [|split]].
  - intros ->. split; [reflexivity|]. apply Hz, Z.div_0_r.
  - exact Hz.
  - intros Hn. apply Hz, Z.div_small. assumption.
  - intros Hb.
    assert (Hd : 1 <= n / b).
    { apply Z.div_le_lower_bound; lia. }
    rewrite percentage_unfold by lia.
    destruct (SFdiv _ _ _ _); discriminate.
Qed.

Lemma percentage_zero_division_witness :
  percentage 2 1 1 = Raise ZeroDivisionError /\
  percentage 0 10 1 = Raise ZeroDivisionError /\
  percentage 2 10 3 <> Raise ZeroDivisionError.
Proof.
  destruct (percentage_zero_division 2 1 1) as (_ & _ & Hsmall & _).
  destruct (percentage_zero_division 0 10 1) as (Hzero & _).
  destruct (percentage_zero_division 2 10 3) as (_ & _ & _ & Hgood).
  split; [apply Hsmall; lia|].
  split; [apply Hzero; reflexivity|apply Hgood; lia].
Defined.

(** * Further facts *)

(** ** File names *)

Lemma avoids_app (c : ascii) (s1 s2 : string) :
  avoids c s1 -> avoids c s2 -> avoids c (s1 +:+ s2).
Proof.
  induction s1 as [|a s1 IH]; simpl; [auto|].
  intros [Ha H1] H2. split; [assumption|]. apply IH; assumption.
Qed.

Lemma pretty_N_char_avoids (c : ascii) (x : N) :
  c = "_"%char \/ c = "."%char \/ c = "-"%char -> pretty_N_char x <> c.
Proof.
  intros [->|[->| ->]]; unfold pretty_N_char;
    repeat case_match; discriminate.
Qed.

Lemma pretty_N_go_avoids (c : ascii) (x : N) :
  c = "_"%char \/ c = "."%char \/ c = "-"%char ->
  forall s, avoids c s -> avoids c (pretty_N_go x s).
Proof.
  intros Hc. induction (N.lt_wf_0 x) as [x _ IH]. intros s Hs.
  destruct (N.eq_dec x 0%N) as [->|Hx].
  - rewrite pretty_N_go_0. assumption.
  - rewrite pretty_N_go_step by lia. apply IH.
    + apply N.div_lt; lia.
    + simpl. split; [apply pretty_N_char_avoids; assumption|assumption].
Qed.

Lemma pretty_N_avoids (c : ascii) (x : N) :
  c = "_"%char \/ c = "."%char \/ c = "-"%char -> avoids c (pretty x).
Proof.
  intros Hc. unfold pretty, pretty_N. case_decide.
  - simpl. split; [|exact I]. destruct Hc as [->|[->| ->]]; discriminate.
  - apply pretty_N_go_avoids; [assumption|exact I].
Qed.

Lemma pretty_Z_avoids (c : ascii) (z : Z) :
  c = "_"%char \/ c = "."%char -> avoids c (pretty z).
Proof.
  intros Hc.
  assert (Hc' : c = "_"%char \/ c = "."%char \/ c = "-"%char) by tauto.
  destruct z as [|p|p]; unfold pretty, pretty_Z.
  - simpl. split; [|exact I]. destruct Hc as [->| ->]; discriminate.
  - apply (pretty_N_avoids c (Npos p) Hc').
  - simpl. split; [destruct Hc as [->| ->]; discriminate|].
    apply (pretty_N_avoids c (Npos p) Hc').
Qed.

(** Two strings that agree up to the first occurrence of a separator in
    each agree before and after it. *)
Lemma split_at_separator (c : ascii) (a a' r r' : string) :
  avoids c a -> avoids c a' ->
  a +:+ String c r = a' +:+ String c r' -> a = a' /\ r = r'.
Proof.
  revert a'. induction a as [|x a IH]; intros [|x' a']; simpl.
  - intros _ _ [= ->]. split; reflexivity.
  - intros _ [Hx _] [= E _]. congruence.
  - intros [Hx _] _ [= E _]. congruence.
  - intros [_ Ha] [_ Ha'] [= -> E]. destruct (IH a' Ha Ha' E) as [-> ->].
    split; reflexivity.
Qed.

Lemma append_inj_r (p s1 s2 : string) : p +:+ s1 = p +:+ s2 -> s1 = s2.
Proof. induction p as [|a p IH]; simpl; [auto|]. intros [= E]. auto. Qed.

Lemma checkpoint_name_inj (e s t e' s' t' : Z) :
  checkpoint_name e s t = checkpoint_name e' s' t' -> e = e' /\ s = s' /\ t = t'.
Proof.
  unfold checkpoint_name. intros E. apply append_inj_r in E.
  change ("_step" +:+ ?x) with (String "_" ("step" +:+ x)) in E.
  apply split_at_separator in E; try (apply pretty_Z_avoids; tauto).
  destruct E as [Ee E]. apply append_inj_r in E.
  change ("_" +:+ ?x) with (String "_" x) in E.
  apply split_at_separator in E; try (apply pretty_Z_avoids; tauto).
  destruct E as [Es E].
  change (".pt") with (String "." "pt") in E.
  apply split_at_separator in E; try (apply pretty_Z_avoids; tauto).
  destruct E as [Et _].
  split; [|split]; apply (inj pretty); assumption.
Qed.

(** ** The loop of train, once more *)

Section MoreTrainerFacts.
Context `{Environment}.

Lemma outside_eq_refl (w : World) : outside_eq w w.
Proof. repeat split. Qed.

Lemma outside_eq_trans (w1 w2 w3 : World) :
  outside_eq w1 w2 -> outside_eq w2 w3 -> outside_eq w1 w3.
Proof. unfold outside_eq. intuition congruence. Qed.

Lemma quiet_bind {A B : Type} (m : M A) (k : A -> M B) :
  quiet m -> (forall a, quiet (k a)) -> quiet (m ≫= k).
Proof.
  intros Hm Hk w. unfold mbind, M_bind. specialize (Hm w).
  destruct (m w) as [[a|e] w1]; simpl in *; [|assumption].
  eapply outside_eq_trans; [eassumption|apply Hk].
Qed.

Lemma quiet_ret {A : Type} (a : A) : quiet (mret a).
Proof. intros w. apply outside_eq_refl. Qed.

Lemma quiet_raise {A : Type} (e : exn) : quiet (raise e : M A).
Proof. intros w. apply outside_eq_refl. Qed.

Lemma quiet_lift {A : Type} (r : result A) : quiet (lift r).
Proof. intros w. apply outside_eq_refl. Qed.

Lemma quiet_get_self : quiet get_self.
Proof. intros w. apply outside_eq_refl. Qed.

Lemma quiet_set_self (t : BertTrainer) : quiet (set_self t).
Proof. intros w. repeat split. Qed.

Lemma quiet_emit (ev : event) : quiet (emit ev).
Proof. intros w. repeat split. Qed.

Ltac quiet_step :=
  first
    [ apply quiet_ret | apply quiet_raise | apply quiet_lift | apply quiet_get_self
    | apply quiet_set_self | apply quiet_emit
    | apply quiet_bind; [|intros ?] ].

Lemma quiet_progress epoch nbatches index a b token nsp value :
  quiet (progress epoch nbatches index a b token nsp value).
Proof.
  unfold progress. repeat quiet_step.
  destruct (_ =? 0); repeat quiet_step.
Qed.

Lemma quiet_train_batch epoch nbatches i value l :
  quiet (train_batch epoch nbatches i value l).
Proof.
  unfold train_batch, set_model, set_optimizer. repeat quiet_step.
  destruct (optimizer_step _ _) as [m o]. repeat quiet_step.
  destruct (_ =? 0); repeat (first [apply quiet_progress|quiet_step]).
Qed.

Lemma quiet_train_loop epoch nbatches values :
  forall i l, quiet (train_loop epoch nbatches i values l).
Proof.
  induction values as [|v vs IH]; intros i l; simpl.
  - apply quiet_ret.
  - apply quiet_bind; [apply quiet_train_batch|]. intros l'. apply IH.
Qed.

(** Whatever its outcome, [train] iterates the loader once and touches
    neither the clock of the checkpoints nor the files. *)
Lemma train_outside (epoch : Z) (w : World) :
  loader_passes (snd (train epoch w)) = S (loader_passes w) /\
  clock_reads (snd (train epoch w)) = clock_reads w /\
  fs (snd (train epoch w)) = fs w.
Proof.
  rewrite train_unfold. cbv zeta.
  pose proof (quiet_train_loop epoch
                (Z.of_nat (length (loader (loader_passes w))))
                (loader (loader_passes w)) 0 locals0 (loop_start epoch w)) as Hq.
  destruct (train_loop _ _ _ _ _ _) as [[l|e] w2]; simpl in Hq.
  - destruct (loss l); simpl; exact Hq.
  - exact Hq.
Qed.

(** What a progress report emits when it completes. *)
Lemma progress_trace epoch nbatches index (a b : Py.f32) token nsp value (w w' : World) :
  progress epoch nbatches index a b token nsp value w = (Ok tt, w') ->
  let t := self w in
  let g := epoch * nbatches + index in
  exists passed accuracy,
    percentage (batch_size t) (_ds_len t) index = Ok passed /\
    _accuracy_every t <> 0 /\
    (if index mod _accuracy_every t =? 0
     then exists na ta,
            nsp_accuracy nsp (nsp_target value) = Ok na /\
            token_accuracy token (mask_target value) (token_mask value) = Ok ta /\
            accuracy = Some (na, ta)
     else accuracy = None) /\
    trace w' = trace w ++
      match accuracy with
      | Some (na, ta) => [AddScalar "NSP train accuracy" na g;
                          AddScalar "Token train accuracy" ta g]
      | None => []
      end ++
      [Print (LProgress (epoch + 1) index (_batched_len t) passed
                (Torch.div_int a (_print_every t)) (Torch.div_int b (_print_every t))
                accuracy);
       AddScalar "NSP loss" (Torch.div_int a (_print_every t)) g;
       AddScalar "MLM loss" (Torch.div_int b (_print_every t)) g].
Proof.
  unfold progress, mbind, M_bind, get_self, lift, emit. simpl.
  destruct (percentage _ _ _) as [passed|x]; [|discriminate].
  unfold Py.mod_.
  destruct (Z.eqb_spec (_accuracy_every (self w)) 0) as [E0|E0]; [discriminate|].
  simpl.
  destruct (index mod _accuracy_every (self w) =? 0).
  - destruct (nsp_accuracy _ _) as [na|x]; [|discriminate].
    destruct (token_accuracy _ _ _) as [ta|x]; [|discriminate].
    simpl. intros [= <-]. simpl.
    exists passed, (Some (na, ta)). split; [reflexivity|]. split; [assumption|].
    split; [exists na, ta; auto|]. rewrite <- !app_assoc. reflexivity.
  - simpl. intros [= <-]. simpl.
    exists passed, None. split; [reflexivity|]. split; [assumption|].
    split; [reflexivity|]. rewrite <- !app_assoc. reflexivity.
Qed.

Lemma line_shows_config (t t' : BertTrainer) (epoch : Z) (ev : event) :
  config_eq t t' -> line_shows t epoch ev -> line_shows t' epoch ev.
Proof.
  intros (Eb & _ & _ & _ & _ & Ed & Ebl & _ & Ea).
  destruct ev as [[]| |]; simpl; try exact (fun x => x).
  rewrite Eb, Ed, Ebl, Ea. exact (fun x => x).
Qed.

(** One iteration that completes: the update of the model and of the
    optimizer, and the events. *)
Lemma train_batch_run epoch nbatches i value (l l' : locals) (w w' : World) :
  train_batch epoch nbatches i value l w = (Ok l', w') ->
  let t := self w in
  let g := epoch * nbatches + (i + 1) in
  config_eq t (self w') /\
  (model (self w'), optimizer (self w'))
    = optimizer_step (backward (zero_grad (model t)) value) (optimizer t) /\
  exists evs, trace w' = trace w ++ evs /\
    Forall (line_shows t epoch) evs /\
    omap accuracy_scalar_of evs
      = (if ((i + 1) mod _print_every t =? 0) && ((i + 1) mod _accuracy_every t =? 0)
         then [("NSP train accuracy", g); ("Token train accuracy", g)] else []) /\
    ((i + 1) mod _print_every t = 0 ->
     _accuracy_every t <> 0 /\
     exists passed, percentage (batch_size t) (_ds_len t) (i + 1) = Ok passed).
Proof.
  unfold train_batch, mbind, M_bind, get_self, set_model, set_optimizer, set_self, lift.
  simpl.
  destruct (forward_losses _ _) as [out|x]; [|discriminate]. simpl.
  destruct (optimizer_step _ _) as [m o] eqn:Eo. simpl.
  unfold Py.mod_. destruct (Z.eqb_spec (_print_every (self w)) 0) as [E0|E0]; [discriminate|].
  simpl.
  destruct (Z.eqb_spec ((i + 1) mod _print_every (self w)) 0) as [Em|Em].
  - match goal with
    | |- context [progress ?e ?n ?ix ?a ?b ?t ?ns ?v ?w0] =>
        destruct (progress e n ix a b t ns v w0) as [[[]|x] w1] eqn:Ep; [|discriminate];
        pose proof (progress_ok _ _ _ _ _ _ _ _ _ _ Ep) as [Es _];
        apply progress_trace in Ep
    end.
    cbv zeta in Ep. simpl in Ep, Es.
    destruct Ep as (passed & accuracy & Epc & Hae & Hacc & Et).
    unfold mret, M_ret. intros [= <- <-]. rewrite Es. simpl.
    split; [repeat split|]. split; [reflexivity|].
    eexists. split; [exact Et|].
    split; [|split].
    + apply Forall_app. split.
      * destruct accuracy as [[na ta]|]; repeat constructor.
      * constructor; [|repeat constructor]. simpl.
        split; [reflexivity|]. split; [reflexivity|]. split; [assumption|].
        destruct (Z.eqb_spec ((i + 1) mod _accuracy_every (self w)) 0) as [Ea|Ea].
        -- destruct Hacc as (na & ta & _ & _ & ->). split; [auto|eauto].
        -- subst accuracy. split; [intros [? [=]]|contradiction].
    + rewrite omap_app.
      destruct (Z.eqb_spec ((i + 1) mod _accuracy_every (self w)) 0) as [Ea|Ea].
      * destruct Hacc as (na & ta & _ & _ & ->). reflexivity.
      * subst accuracy. reflexivity.
    + intros _. split; [exact Hae|]. exists passed. exact Epc.
  - unfold mret, M_ret. intros [= <- <-]. simpl.
    split; [repeat split|]. split; [reflexivity|].
    exists []. rewrite app_nil_r. split; [reflexivity|].
    split; [constructor|]. split; [reflexivity|]. contradiction.
Qed.

(** The loop that completes, from the [a]-th value on. *)
Lemma train_loop_run (epoch nbatches : Z) (vs : list (Batch Input AttnMask)) :
  forall (a : nat) (l l' : locals) (w w' : World),
  train_loop epoch nbatches (Z.of_nat a) vs l w = (Ok l', w') ->
  let t := self w in
  (model (self w'), optimizer (self w')) = epoch_updates (model t) (optimizer t) vs /\
  exists evs, trace w' = trace w ++ evs /\
    Forall (line_shows t epoch) evs /\
    omap accuracy_scalar_of evs
      = flat_map (fun k => [("NSP train accuracy", epoch * nbatches + k);
                            ("Token train accuracy", epoch * nbatches + k)])
          (List.filter (fun k => k mod _accuracy_every t =? 0)
             (ticks_from (_print_every t) a (length vs))) /\
    (forall k, In k (ticks_from (_print_every t) a (length vs)) ->
               _accuracy_every t <> 0 /\
               exists passed, percentage (batch_size t) (_ds_len t) k = Ok passed).
Proof.
  induction vs as [|v vs IH]; intros a l l' w w' Hrun.
  - simpl in Hrun. injection Hrun as <- <-. cbv zeta. split; [reflexivity|].
    exists []. rewrite app_nil_r. split; [reflexivity|]. split; [constructor|].
    split; [reflexivity|]. intros k [].
  - simpl train_loop in Hrun. unfold mbind, M_bind in Hrun.
    destruct (train_batch epoch nbatches (Z.of_nat a) v l w) as [[l1|x] w1] eqn:Eb;
      [|discriminate].
    apply train_batch_run in Eb. cbv zeta in Eb.
    destruct Eb as (C1 & Eu & evs1 & Et1 & F1 & A1 & P1).
    assert (Ek : Z.of_nat (S a) = Z.of_nat a + 1) by lia.
    rewrite <- Ek in Hrun, A1, P1.
    specialize (IH (S a) l1 l' w1 w' Hrun). cbv zeta in IH.
    destruct IH as (Eu2 & evs2 & Et2 & F2 & A2 & P2).
    assert (C1' : config_eq (self w1) (self w)).
    { destruct C1 as (?&?&?&?&?&?&?&?&?). repeat split; congruence. }
    pose proof C1 as (Eb_ & _ & _ & _ & _ & Ed_ & _ & Ep_ & Ea_).
    rewrite <- Ep_, <- Ea_ in A2. rewrite <- Eb_, <- Ed_, <- Ep_, <- Ea_ in P2.
    cbv zeta. split.
    { simpl epoch_updates. rewrite <- Eu. exact Eu2. }
    exists (evs1 ++ evs2). rewrite Et2, Et1, <- app_assoc. split; [reflexivity|].
    simpl length. rewrite ticks_from_S.
    split; [|split].
    + apply Forall_app. split; [assumption|].
      eapply List.Forall_impl; [|exact F2]. intros ev. apply line_shows_config.
      exact C1'.
    + rewrite omap_app, A1, A2. rewrite List.filter_app, flat_map_app. f_equal.
      destruct (Z.of_nat (S a) mod _print_every (self w) =? 0); simpl; [|reflexivity].
      destruct (Z.of_nat (S a) mod _accuracy_every (self w) =? 0); reflexivity.
    + intros k Hk. apply in_app_or in Hk. destruct Hk as [Hk|Hk]; [|apply P2; exact Hk].
      destruct (Z.eqb_spec (Z.of_nat (S a) mod _print_every (self w)) 0) as [Em|Em];
        [|destruct Hk].
      destruct Hk as [<-|[]]. apply P1. exact Em.
Qed.

(** *** The progress ticks *)

Lemma ticks_snoc (pe : Z) (n : nat) :
  ticks pe (S n) = ticks pe n ++ (if Z.of_nat (S n) mod pe =? 0 then [Z.of_nat (S n)] else []).
Proof.
  unfold ticks. rewrite seq_S, map_app, List.filter_app. simpl.
  destruct (_ =? 0); reflexivity.
Qed.

Lemma div_succ (p n : Z) : 0 < p -> 0 <= n ->
  (n + 1) / p = n / p + (if (n + 1) mod p =? 0 then 1 else 0).
Proof.
  intros Hp Hn. destruct (succ_mod p n Hp Hn) as [[E1 E2]|[E1 E2]].
  - rewrite E1. simpl.
    pose proof (Z.div_mod n p ltac:(lia)) as Hd.
    symmetry. apply Z.div_unique with 0; [lia|]. nia.
  - destruct (Z.eqb_spec ((n + 1) mod p) 0) as [E|E]; [contradiction|].
    pose proof (Z.div_mod n p ltac:(lia)) as Hd.
    pose proof (Z.mod_pos_bound (n + 1) p Hp) as Hb.
    symmetry. rewrite Z.add_0_r. apply Z.div_unique with (n mod p + 1); [lia|]. nia.
Qed.

Lemma ticks_length (pe : Z) (n : nat) : pe <> 0 ->
  Z.of_nat (length (ticks pe n)) = Z.of_nat n / Z.abs pe.
Proof.
  intros Hpe. induction n as [|n IH].
  - reflexivity.
  - rewrite ticks_snoc, length_app, Nat2Z.inj_add, IH.
    replace (Z.of_nat (S n)) with (Z.of_nat n + 1) by lia.
    rewrite (div_succ (Z.abs pe) (Z.of_nat n)) by lia. f_equal.
    destruct (Z.eqb_spec ((Z.of_nat n + 1) mod pe) 0) as [E|E];
      destruct (Z.eqb_spec ((Z.of_nat n + 1) mod Z.abs pe) 0) as [E'|E'];
      try reflexivity; exfalso; apply mod_abs_zero in E || apply E; try contradiction.
    apply mod_abs_zero. exact E'.
Qed.

Lemma ticks_In (pe : Z) (n : nat) (k : Z) :
  In k (ticks pe n) <-> 1 <= k <= Z.of_nat n /\ k mod pe = 0.
Proof.
  unfold ticks. rewrite filter_In, in_map_iff. split.
  - intros [(j & <- & Hj) Hm]. apply in_seq in Hj. apply Z.eqb_eq in Hm. lia.
  - intros [Hk Hm]. split; [|apply Z.eqb_eq; exact Hm].
    exists (Z.to_nat k). split; [lia|]. apply in_seq. lia.
Qed.

Lemma first_tick (pe : Z) (n : nat) : pe <> 0 -> Z.abs pe <= Z.of_nat n ->
  In (Z.abs pe) (ticks pe n).
Proof.
  intros Hpe Hn. apply ticks_In. split; [lia|].
  apply mod_abs_zero. apply Z.mod_same. lia.
Qed.

(** A completed [train] is a completed loop. *)
Lemma train_complete (epoch : Z) (w w' : World) (x : Py.f32) :
  train epoch w = (Ok x, w') ->
  exists l,
    train_loop epoch (Z.of_nat (length (loader (loader_passes w)))) 0
      (loader (loader_passes w)) locals0 (loop_start epoch w) = (Ok l, w') /\
    loss l = Some x.
Proof.
  rewrite train_unfold. cbv zeta.
  destruct (train_loop _ _ _ _ _ _) as [[l|e] w2]; [|discriminate].
  destruct (loss l) as [y|] eqn:El; [|discriminate].
  intros [= -> ->]. exists l. split; [reflexivity|exact El].
Qed.

End MoreTrainerFacts.

(** * Further properties of the trainer *)

Section TrainProperties.
Context `{Environment}.

Lemma train_run_state (epoch : Z) (w w' : World) (x : Py.f32) :
  train epoch w = (Ok x, w') ->
  (model (self w'), optimizer (self w'))
    = epoch_updates (model (self w)) (optimizer (self w)) (loader (loader_passes w)).
Proof.
  intros Ht. destruct (train_complete epoch w w' x Ht) as (l & Hrun & _).
  apply (train_loop_run epoch _ _ 0%nat) in Hrun. cbv zeta in Hrun.
  destruct Hrun as (Eu & _). exact Eu.
Qed.

(** X1: a [train] that completes has zeroed the gradients, back-propagated
    and stepped the optimizer exactly once a batch, in the order of the
    loader; it has iterated the loader once, has left the configuration,
    the clock and every file alone. *)
Theorem train_updates_once_per_batch (epoch : Z) (w w' : World) (x : Py.f32) :
  train epoch w = (Ok x, w') ->
  (model (self w'), optimizer (self w'))
    = epoch_updates (model (self w)) (optimizer (self w)) (loader (loader_passes w)) /\
  config_eq (self w) (self w') /\
  loader_passes w' = S (loader_passes w) /\
  clock_reads w' = clock_reads w /\
  fs w' = fs w.
Proof.
  intros Ht. pose proof (train_outside epoch w) as Ho. rewrite Ht in Ho. simpl in Ho.
  destruct (train_complete epoch w w' x Ht) as (l & Hrun & _).
  destruct (train_loop_complete epoch w l w' Hrun) as (_ & _ & _ & C & _).
  split; [exact (train_run_state epoch w w' x Ht)|]. split; [exact C|]. exact Ho.
Qed.

(** X2: a [train] that completes over [n] batches with the reporting period
    [p] prints exactly [n // |p|] progress lines. *)
Theorem progress_line_count (epoch : Z) (w w' : World) (x : Py.f32) :
  train epoch w = (Ok x, w') ->
  exists evs, trace w' = trace w ++ evs /\
    Z.of_nat (length (omap progress_of evs))
    = Z.of_nat (length (loader (loader_passes w))) / Z.abs (_print_every (self w)).
Proof.
  intros Ht. destruct (train_complete epoch w w' x Ht) as (l & Hrun & Hl).
  destruct (train_loop_complete epoch w l w' Hrun)
    as (outs & _ & El & _ & Elo & Hpe & evs & Et & Ep & _).
  exists evs. split; [exact Et|]. rewrite Ep. unfold progress_lines.
  rewrite length_map. apply ticks_length. apply Hpe.
  intros Hv. rewrite Hv in El. destruct outs; [|discriminate].
  rewrite Hl in Elo. discriminate.
Qed.

(** X3: in a [train] that completes, the two accuracy scalars are logged at
    the batch indices that are multiples of the reporting period and of the
    accuracy period, both, and at no other index; their global step is
    [epoch * batches + index]. *)
Theorem accuracy_at_common_multiples (epoch : Z) (w w' : World) (x : Py.f32) :
  train epoch w = (Ok x, w') ->
  let n := length (loader (loader_passes w)) in
  exists evs, trace w' = trace w ++ evs /\
    omap accuracy_scalar_of evs
    = flat_map (fun k => [("NSP train accuracy", epoch * Z.of_nat n + k);
                          ("Token train accuracy", epoch * Z.of_nat n + k)])
        (List.filter (fun k => (k mod _print_every (self w) =? 0)
                               && (k mod _accuracy_every (self w) =? 0))
           (map Z.of_nat (seq 1 n))).
Proof.
  intros Ht n. destruct (train_complete epoch w w' x Ht) as (l & Hrun & _).
  apply (train_loop_run epoch _ _ 0%nat) in Hrun. cbv zeta in Hrun.
  destruct Hrun as (_ & evs & Et & _ & Ea & _).
  exists (Print (LBegin epoch) :: evs). split.
  { rewrite Et. unfold loop_start, iter_loader, emit. simpl.
    rewrite <- app_assoc. reflexivity. }
  change (omap accuracy_scalar_of (Print (LBegin epoch) :: evs))
    with (omap accuracy_scalar_of evs).
  rewrite Ea. unfold ticks_from. f_equal.
  change (self (loop_start epoch w)) with (self w). fold n.
  generalize (map Z.of_nat (seq 1 n)). intros ks.
  induction ks as [|k ks IH]; [reflexivity|]. simpl.
  destruct (k mod _print_every (self w) =? 0); simpl; [|exact IH].
  destruct (k mod _accuracy_every (self w) =? 0); [f_equal|]; exact IH.
Qed.

(** X4: every progress line of a [train] that completes shows the epoch
    counted from one, the batch count [_batched_len] of the trainer and the
    value [percentage] returns for the batch size, the dataset length and
    the index of the line; it shows accuracies exactly when the index is a
    multiple of the accuracy period. *)
Theorem progress_line_contents (epoch : Z) (w w' : World) (x : Py.f32) :
  train epoch w = (Ok x, w') ->
  exists evs, trace w' = trace w ++ evs /\
    forall epoch1 index batched_len passed nsp_loss mlm_loss accuracy,
      In (Print (LProgress epoch1 index batched_len passed nsp_loss mlm_loss accuracy)) evs ->
      epoch1 = epoch + 1 /\ batched_len = _batched_len (self w) /\
      percentage (batch_size (self w)) (_ds_len (self w)) index = Ok passed /\
      (is_Some accuracy <-> index mod _accuracy_every (self w) = 0).
Proof.
  intros Ht. destruct (train_complete epoch w w' x Ht) as (l & Hrun & _).
  apply (train_loop_run epoch _ _ 0%nat) in Hrun. cbv zeta in Hrun.
  destruct Hrun as (_ & evs & Et & Hf & _).
  exists (Print (LBegin epoch) :: evs). split.
  { rewrite Et. unfold loop_start, iter_loader, emit. simpl.
    rewrite <- app_assoc. reflexivity. }
  intros e1 index bl passed nl ml acc [Hin|Hin]; [discriminate|].
  rewrite List.Forall_forall in Hf. exact (Hf _ Hin).
Qed.

(** X5: when the dataset is shorter than a batch
    ([_ds_len // batch_size = 0]) or the accuracy period is zero, and the
    loader yields at least as many batches as the reporting period,
    [train] does not return: an empty loader leaves the loss unbound, a
    zero reporting period fails at the first batch, and otherwise the first
    progress report fails. *)
Theorem train_fails_at_first_report (epoch : Z) (w : World) :
  _ds_len (self w) / batch_size (self w) = 0 \/ _accuracy_every (self w) = 0 ->
  Z.abs (_print_every (self w)) <= Z.of_nat (length (loader (loader_passes w))) ->
  forall x, fst (train epoch w) <> Ok x.
Proof.
  intros Hbad Hn x Hx.
  destruct (train epoch w) as [r w'] eqn:Ht. simpl in Hx. subst r.
  destruct (train_complete epoch w w' x Ht) as (l & Hrun & Hl).
  destruct (train_loop_complete epoch w l w' Hrun)
    as (outs & _ & El & _ & Elo & Hpe & _).
  assert (Hv : loader (loader_passes w) <> []).
  { intros Hv. rewrite Hv in El. destruct outs; [|discriminate].
    rewrite Hl in Elo. discriminate. }
  specialize (Hpe Hv).
  apply (train_loop_run epoch _ _ 0%nat) in Hrun. cbv zeta in Hrun.
  destruct Hrun as (_ & evs & _ & _ & _ & Hp).
  destruct (Hp (Z.abs (_print_every (self w)))) as (Hae & passed & Epc).
  { apply (first_tick _ _ Hpe Hn). }
  change (self (loop_start epoch w)) with (self w) in Hae, Epc.
  destruct Hbad as [Hd|Ha]; [|contradiction].
  unfold percentage, Py.floordiv in Epc.
  destruct (batch_size (self w) =? 0); [discriminate|]. simpl in Epc.
  rewrite Hd in Epc. discriminate.
Qed.

(** X6: with a zero reporting period and a first batch whose forward pass
    succeeds, [train] raises [ZeroDivisionError] at that batch, after the
    optimizer has made its step: the model and the optimizer are those
    after one update, and nothing but the first line has been printed. *)
Theorem train_zero_period (epoch : Z) (w : World) (value : Batch Input AttnMask)
    (values : list (Batch Input AttnMask)) (out : Out) :
  _print_every (self w) = 0 ->
  loader (loader_passes w) = value :: values ->
  forward_losses (zero_grad (model (self w))) value = Ok out ->
  let w' := snd (train epoch w) in
  fst (train epoch w) = Raise ZeroDivisionError /\
  (model (self w'), optimizer (self w'))
    = optimizer_step (backward (zero_grad (model (self w))) value) (optimizer (self w)) /\
  trace w' = trace w ++ [Print (LBegin epoch)].
Proof.
  intros Hpe Hv Hf. cbv zeta. rewrite train_unfold. cbv zeta. rewrite Hv.
  simpl train_loop. unfold mbind, M_bind.
  assert (Eb : forall n,
    train_batch epoch n 0 value locals0 (loop_start epoch w)
    = (Raise ZeroDivisionError,
       snd (train_batch epoch n 0 value locals0 (loop_start epoch w))) /\
    (model (self (snd (train_batch epoch n 0 value locals0 (loop_start epoch w)))),
     optimizer (self (snd (train_batch epoch n 0 value locals0 (loop_start epoch w)))))
    = optimizer_step (backward (zero_grad (model (self w))) value) (optimizer (self w)) /\
    trace (snd (train_batch epoch n 0 value locals0 (loop_start epoch w)))
    = trace w ++ [Print (LBegin epoch)]).
  { intros n.
    unfold train_batch, mbind, M_bind, get_self, set_model, set_optimizer, set_self, lift.
    simpl. rewrite Hf. simpl.
    destruct (optimizer_step _ _) as [m o] eqn:Eo. simpl.
    unfold Py.mod_. rewrite Hpe. simpl. auto. }
  match goal with
  | |- context [train_batch epoch ?n 0 value locals0 _] =>
      destruct (Eb n) as (E1 & E2 & E3)
  end.
  rewrite E1. simpl. auto.
Qed.

End TrainProperties.

Lemma train_updates_once_per_batch_witness :
  model (self (snd (@train _ Toy.environment 0 (Toy.world 8 2)))) = 4 /\
  optimizer (self (snd (@train _ Toy.environment 0 (Toy.world 8 2)))) = 4.
Proof.
  destruct (@train_updates_once_per_batch _ Toy.environment 0 (Toy.world 8 2)
              (snd (@train _ Toy.environment 0 (Toy.world 8 2)))
              (Toy.f32 4) ltac:(vm_compute; reflexivity)) as (Eu & _).
  split.
  - etransitivity; [exact (f_equal fst Eu)|vm_compute; reflexivity].
  - etransitivity; [exact (f_equal snd Eu)|vm_compute; reflexivity].
Defined.

Lemma progress_line_count_witness :
  exists evs,
    trace (snd (@train _ Toy.environment 0 (Toy.world 8 2))) = trace (Toy.world 8 2) ++ evs /\
    Z.of_nat (length (omap progress_of evs)) = 2.
Proof.
  exact (@progress_line_count _ Toy.environment 0 (Toy.world 8 2)
           (snd (@train _ Toy.environment 0 (Toy.world 8 2)))
           (Toy.f32 4) ltac:(vm_compute; reflexivity)).
Defined.

Lemma accuracy_at_common_multiples_witness :
  exists evs,
    trace (snd (@train _ Toy.environment 1 (Toy.world 8 2))) = trace (Toy.world 8 2) ++ evs /\
    omap accuracy_scalar_of evs = [("NSP train accuracy", 8); ("Token train accuracy", 8)].
Proof.
  exact (@accuracy_at_common_multiples _ Toy.environment 1 (Toy.world 8 2)
           (snd (@train _ Toy.environment 1 (Toy.world 8 2)))
           (Toy.f32 4) ltac:(vm_compute; reflexivity)).
Defined.

Lemma progress_line_contents_witness :
  exists evs,
    trace (snd (@train _ Toy.environment 0 (Toy.world 8 2))) = trace (Toy.world 8 2) ++ evs /\
    forall epoch1 index batched_len passed nsp_loss mlm_loss accuracy,
      In (Print (LProgress epoch1 index batched_len passed nsp_loss mlm_loss accuracy)) evs ->
      epoch1 = 1 /\ batched_len = 4 /\ percentage 2 8 index = Ok passed /\
      (is_Some accuracy <-> index mod 4 = 0).
Proof.
  exact (@progress_line_contents _ Toy.environment 0 (Toy.world 8 2)
           (snd (@train _ Toy.environment 0 (Toy.world 8 2)))
           (Toy.f32 4) ltac:(vm_compute; reflexivity)).
Defined.

Lemma train_fails_at_first_report_witness :
  fst (@train _ Toy.small_environment 0 (Toy.world 1 1)) <> Ok (Toy.f32 4) /\
  fst (@train _ Toy.small_environment 0 (Toy.world 1 1)) <> Ok (Toy.f32 0).
Proof.
  split;
    apply (@train_fails_at_first_report _ Toy.small_environment 0 (Toy.world 1 1));
    solve [left; reflexivity | vm_compute; discriminate].
Defined.

Lemma train_zero_period_witness :
  fst (@train _ Toy.environment 0 (Toy.world 8 0)) = Raise ZeroDivisionError /\
  model (self (snd (@train _ Toy.environment 0 (Toy.world 8 0)))) = 1.
Proof.
  destruct (@train_zero_period _ Toy.environment 0 (Toy.world 8 0) Toy.batch_
              [Toy.batch_; Toy.batch_; Toy.batch_]
              (match @forward_losses Toy.collaborators 0 Toy.batch_ with
               | Ok o => o
               | Raise _ => {| out_token := Toy.token_; out_nsp := Toy.nsp_;
                               loss_token := Toy.f32 0; loss_nsp := Toy.f32 0 |}
               end)
              eq_refl eq_refl ltac:(vm_compute; reflexivity)) as (Hr & Eu & _).
  split; [exact Hr|].
  etransitivity; [exact (f_equal fst Eu)|vm_compute; reflexivity].
Defined.

(** ** Checkpoints and runs *)

Section RunFacts.
Context `{Environment}.

Lemma set_current_epoch_same (w : World) :
  set_current_epoch (current_epoch (self w)) w = (Ok tt, w).
Proof. destruct w as [[] ? ? ? ?]. reflexivity. Qed.

Lemma range_nil (a b : Z) : b <= a -> range a b = [].
Proof. intros Hab. unfold range. replace (Z.to_nat (b - a)) with 0%nat by lia. reflexivity. Qed.

Lemma range_cons (a b : Z) : a < b -> range a b = a :: range (a + 1) b.
Proof.
  intros Hab. unfold range.
  replace (Z.to_nat (b - a)) with (S (Z.to_nat (b - (a + 1)))) by lia.
  simpl. rewrite Z.add_0_r. f_equal. rewrite <- seq_shift, map_map.
  apply map_ext. intros k. lia.
Qed.

Lemma range_length (a b : Z) : length (range a b) = Z.to_nat (b - a).
Proof. unfold range. rewrite length_map, length_seq. reflexivity. Qed.

Lemma range_last (a b : Z) : a < b -> last (range a b) = Some (b - 1).
Proof.
  intros Hab. unfold range.
  replace (Z.to_nat (b - a)) with (S (Z.to_nat (b - a - 1))) by lia.
  rewrite seq_S, map_app. simpl (map _ [_]). rewrite last_snoc. f_equal. lia.
Qed.

(** [save_checkpoint] on the trainer, the loader and the clock. *)
Lemma save_checkpoint_self (epoch step : Z) (loss_ : Py.f32) (w : World) :
  let w' := snd (save_checkpoint epoch step loss_ w) in
  self w' = self w /\
  loader_passes w' = loader_passes w /\
  clock_reads w'
  = (clock_reads w + match checkpoint_dir (self w) with Some _ => 1 | None => 0 end)%nat /\
  (checkpoint_dir (self w) = None -> fs w' = fs w).
Proof.
  cbv zeta. rewrite save_checkpoint_spec.
  destruct (checkpoint_dir (self w)); simpl; repeat split; try lia. discriminate.
Qed.

Lemma save_checkpoint_record (epoch step : Z) (loss_ : Py.f32) (w : World) :
  exists evs, trace (snd (save_checkpoint epoch step loss_ w)) = trace w ++ evs /\
    omap saved_record evs
    = match checkpoint_dir (self w) with
      | Some _ => [{| ck_epoch := epoch;
                      ck_model_state_dict := model_state_dict (model (self w));
                      ck_optimizer_state_dict := optimizer_state_dict (optimizer (self w));
                      ck_loss := loss_ |}]
      | None => []
      end.
Proof.
  rewrite save_checkpoint_spec. destruct (checkpoint_dir (self w)).
  - eexists. split; reflexivity.
  - exists []. rewrite app_nil_r. split; reflexivity.
Qed.

(** One epoch of [__call__] that completes. *)
Lemma call_loop_step (e : Z) (es : list Z) (w : World) :
  fst (call_loop (e :: es) w) = Ok tt ->
  exists x w2,
    train e (snd (set_current_epoch e w)) = (Ok x, w2) /\
    call_loop (e :: es) w = call_loop es (snd (save_checkpoint e (-1) x w2)) /\
    current_epoch (self w2) = e.
Proof.
  rewrite call_loop_cons.
  pose proof (train_marks e (snd (set_current_epoch e w))) as [C _].
  destruct (train e _) as [[x|err] w2] eqn:Ht; [|discriminate]. simpl in C.
  assert (Ee : current_epoch (self w2) = e).
  { destruct C as (_ & _ & _ & <- & _). reflexivity. }
  intros _. exists x, w2. rewrite Ee. auto.
Qed.

Lemma call_loop_last (es : list Z) : forall (w : World) (e : Z),
  fst (call_loop es w) = Ok tt -> last es = Some e ->
  current_epoch (self (snd (call_loop es w))) = e.
Proof.
  induction es as [|e0 es IH]; intros w e Hrun Hl; [discriminate|].
  destruct (call_loop_step e0 es w Hrun) as (x & w2 & Ht & Ec & Ee).
  rewrite Ec in Hrun |- *.
  destruct es as [|e1 es'].
  - simpl. injection Hl as <-.
    destruct (save_checkpoint_self e0 (-1) x w2) as (-> & _). exact Ee.
  - apply IH; [exact Hrun|exact Hl].
Qed.

(** How often a run that completes iterates the loader and reads the
    clock, and what it writes with no directory. *)
Lemma call_loop_outside (es : list Z) : forall w : World,
  fst (call_loop es w) = Ok tt ->
  let w' := snd (call_loop es w) in
  loader_passes w' = (loader_passes w + length es)%nat /\
  clock_reads w'
  = (clock_reads w + match checkpoint_dir (self w) with
                     | Some _ => length es
                     | None => 0
                     end)%nat /\
  (checkpoint_dir (self w) = None -> fs w' = fs w).
Proof.
  induction es as [|e es IH]; intros w Hrun; cbv zeta.
  - simpl. destruct (checkpoint_dir (self w)); repeat split; lia.
  - destruct (call_loop_step e es w Hrun) as (x & w2 & Ht & Ec & Ee).
    rewrite Ec in Hrun |- *. specialize (IH _ Hrun). cbv zeta in IH.
    destruct IH as (Il & Ic & If).
    pose proof (train_outside e (snd (set_current_epoch e w))) as Ho.
    pose proof (train_marks e (snd (set_current_epoch e w))) as [C _].
    rewrite Ht in Ho, C. simpl snd in Ho, C. destruct Ho as (Ol & Oc & Of).
    change (loader_passes (snd (set_current_epoch e w))) with (loader_passes w) in Ol.
    change (clock_reads (snd (set_current_epoch e w))) with (clock_reads w) in Oc.
    change (fs (snd (set_current_epoch e w))) with (fs w) in Of.
    assert (Ed : checkpoint_dir (self w2) = checkpoint_dir (self w)).
    { destruct C as (_ & <- & _). reflexivity. }
    destruct (save_checkpoint_self e (-1) x w2) as (Ss & Sl & Sc & Sf).
    rewrite Il, Ic, Sl, Sc, Ol, Oc, Ss, Ed. rewrite Ss, Ed in If. rewrite Ed in Sf.
    simpl length.
    destruct (checkpoint_dir (self w)) as [dir|].
    + simpl. split; [lia|]. split; [lia|]. discriminate.
    + simpl. split; [lia|]. split; [lia|]. intros _.
      rewrite (If eq_refl), (Sf eq_refl). exact Of.
Qed.

Lemma omap_saved_no_marks (evs : list event) :
  Forall (fun ev => mark_of ev = None) evs -> omap saved_record evs = [].
Proof.
  induction 1 as [|ev evs Hev _ IH]; [reflexivity|].
  destruct ev as [l| |]; try discriminate; exact IH.
Qed.

(** The records of a run that completes. *)
Lemma call_loop_records (es : list Z) : forall w : World,
  fst (call_loop es w) = Ok tt ->
  exists evs, trace (snd (call_loop es w)) = trace w ++ evs /\
    omap saved_record evs
    = match checkpoint_dir (self w) with
      | Some _ => run_records (model (self w)) (optimizer (self w)) (loader_passes w) es
      | None => []
      end.
Proof.
  induction es as [|e es IH]; intros w Hrun.
  - exists []. rewrite app_nil_r. split; [reflexivity|].
    destruct (checkpoint_dir (self w)); reflexivity.
  - destruct (call_loop_step e es w Hrun) as (x & w2 & Ht & Ec & Ee).
    rewrite Ec in Hrun |- *. destruct (IH _ Hrun) as (evs2 & Et2 & Er2).
    pose proof (train_marks e (snd (set_current_epoch e w))) as [C (evs1 & Et1 & F1)].
    rewrite Ht in C, Et1. simpl in C, Et1.
    assert (Ed : checkpoint_dir (self w2) = checkpoint_dir (self w)).
    { destruct C as (_ & <- & _). reflexivity. }
    pose proof (train_run_state e _ _ _ Ht) as Eu.
    pose proof (train_outside e (snd (set_current_epoch e w))) as [Ol _].
    rewrite Ht in Ol. simpl in Eu, Ol.
    destruct (train_complete e _ _ _ Ht) as (l & Hloop & Hl).
    destruct (train_loop_complete e _ l w2 Hloop) as (outs & Eo & _ & _ & Elo & _).
    simpl in Eo. rewrite Hl in Elo.
    destruct (save_checkpoint_self e (-1) x w2) as (Ss & Sl & _).
    destruct (save_checkpoint_record e (-1) x w2) as (evs3 & Et3 & Er3).
    rewrite Ss, Sl, Ed in Er2. rewrite Ed in Er3.
    exists ((Print (LBegin e) :: evs1) ++ evs3 ++ evs2).
    split; [rewrite Et2, Et3, Et1, <- !app_assoc; reflexivity|].
    rewrite !omap_app, Er2, Er3.
    change (omap saved_record (Print (LBegin e) :: evs1)) with (omap saved_record evs1).
    rewrite (omap_saved_no_marks _ F1).
    destruct (checkpoint_dir (self w)) as [dir|]; [|reflexivity].
    simpl. rewrite Eo.
    destruct (epoch_updates _ _ _) as [m' o'] eqn:Eup.
    injection Eu as -> ->.
    destruct (last outs) as [out|]; [|discriminate].
    injection Elo as ->. rewrite Ol. reflexivity.
Qed.

Lemma save_checkpoint_marks (epoch step : Z) (loss_ : Py.f32) (w : World) :
  exists evs, trace (snd (save_checkpoint epoch step loss_ w)) = trace w ++ evs /\
    omap mark_of evs
    = match checkpoint_dir (self w) with Some _ => [Saved epoch] | None => [] end.
Proof.
  rewrite save_checkpoint_spec. destruct (checkpoint_dir (self w)).
  - eexists. split; reflexivity.
  - exists []. rewrite app_nil_r. split; reflexivity.
Qed.

Lemma call_unfold (w : World) :
  __call__ w = call_loop (range (current_epoch (self w)) (epochs (self w))) w.
Proof. reflexivity. Qed.

(** A run that raises: the epochs before the failing one are trained and
    saved, the failing one is begun and not saved, and it is the current
    epoch the exception leaves. *)
Lemma call_loop_raises (es : list Z) : forall (w : World) (x : exn),
  fst (call_loop es w) = Raise x ->
  exists done e rest evs,
    es = done ++ e :: rest /\
    trace (snd (call_loop es w)) = trace w ++ evs /\
    omap mark_of evs = marks_of_epochs (checkpoint_dir (self w)) done ++ [Trained e] /\
    current_epoch (self (snd (call_loop es w))) = e.
Proof.
  induction es as [|e es IH]; intros w x Hr; [discriminate|].
  rewrite call_loop_cons in Hr |- *.
  pose proof (train_marks e (snd (set_current_epoch e w))) as [C (evs1 & Et1 & F1)].
  change (trace (snd (set_current_epoch e w))) with (trace w) in Et1.
  assert (Ee : current_epoch (self (snd (train e (snd (set_current_epoch e w))))) = e).
  { destruct C as (_ & _ & _ & <- & _). reflexivity. }
  assert (Ed : checkpoint_dir (self (snd (train e (snd (set_current_epoch e w)))))
               = checkpoint_dir (self w)).
  { destruct C as (_ & <- & _). reflexivity. }
  destruct (train e _) as [[l|err] w2] eqn:Ht; simpl in Ee, Ed, Et1.
  - destruct (IH _ x Hr) as (done & e' & rest & evs2 & Es & Et2 & Em2 & Ec2).
    destruct (save_checkpoint_self (current_epoch (self w2)) (-1) l w2) as (Ss & _).
    destruct (save_checkpoint_marks (current_epoch (self w2)) (-1) l w2)
      as (evs3 & Et3 & Em3).
    rewrite Ss, Ed in Em2. rewrite Ed, Ee in Em3.
    exists (e :: done), e', rest, ((Print (LBegin e) :: evs1) ++ evs3 ++ evs2).
    split; [rewrite Es; reflexivity|].
    split; [rewrite Et2, Et3, Et1, <- !app_assoc; reflexivity|].
    split; [|exact Ec2].
    rewrite (omap_begin e evs1 _ F1), omap_app, Em3, Em2. simpl.
    destruct (checkpoint_dir (self w)); reflexivity.
  - exists [], e, es, (Print (LBegin e) :: evs1).
    split; [reflexivity|]. split; [exact Et1|]. split; [|exact Ee].
    change (omap mark_of (Print (LBegin e) :: evs1))
      with (Trained e :: omap mark_of evs1).
    rewrite (omap_no_marks _ F1). reflexivity.
Qed.

End RunFacts.

(** * Further properties of checkpoints and runs *)

Section RunProperties.
Context `{Environment}.

(** X7: a run that completes leaves [current_epoch] at the last epoch it
    trained, [epochs - 1], not at [epochs]: running again trains and saves
    that one epoch once more.  A run that starts with
    [current_epoch >= epochs] changes nothing. *)
Theorem run_ends_on_last_epoch (w : World) :
  fst (__call__ w) = Ok tt ->
  let w' := snd (__call__ w) in
  (epochs (self w) <= current_epoch (self w) -> w' = w) /\
  (current_epoch (self w) < epochs (self w) ->
   current_epoch (self w') = epochs (self w) - 1 /\
   (fst (__call__ w') = Ok tt ->
    exists evs, trace (snd (__call__ w')) = trace w' ++ evs /\
      omap mark_of evs
      = marks_of_epochs (checkpoint_dir (self w)) [epochs (self w) - 1])).
Proof.
  intros Hrun. cbv zeta. split.
  - intros Hle. rewrite call_unfold, range_nil by assumption. reflexivity.
  - intros Hlt. rewrite call_unfold in Hrun.
    destruct (call_loop_marks _ w Hrun) as (Ed & Ep & _).
    pose proof (call_loop_last _ w _ Hrun (range_last _ _ Hlt)) as Ec.
    rewrite <- call_unfold in Ed, Ep, Ec.
    split; [exact Ec|]. intros Hrun2.
    rewrite call_unfold in Hrun2 |- *. rewrite Ec, Ep in Hrun2 |- *.
    destruct (call_loop_marks _ _ Hrun2) as (_ & _ & evs & Et & Em).
    exists evs. split; [exact Et|]. rewrite Em, Ed.
    rewrite range_cons, range_nil by lia. reflexivity.
Qed.

(** X8: when a run raises, every epoch before the failing one was trained
    and saved, the failing epoch was begun and no checkpoint was written for
    it or for a later one, and [current_epoch] is left at the failing
    epoch. *)
Theorem run_failure_leaves_failed_epoch (w : World) (x : exn) :
  fst (__call__ w) = Raise x ->
  let w' := snd (__call__ w) in
  exists done e rest evs,
    range (current_epoch (self w)) (epochs (self w)) = done ++ e :: rest /\
    trace w' = trace w ++ evs /\
    omap mark_of evs = marks_of_epochs (checkpoint_dir (self w)) done ++ [Trained e] /\
    current_epoch (self w') = e.
Proof.
  intros Hr. cbv zeta. rewrite call_unfold in Hr |- *.
  exact (call_loop_raises _ w x Hr).
Qed.

(** X9: a run whose loader yields no batch in its first epoch raises
    [UnboundLocalError] in that epoch: the first line is all it prints, it
    writes no file and leaves the trainer as it was. *)
Theorem run_with_empty_loader (w : World) :
  current_epoch (self w) < epochs (self w) ->
  loader (loader_passes w) = [] ->
  let w' := snd (__call__ w) in
  fst (__call__ w) = Raise UnboundLocalError /\
  self w' = self w /\ fs w' = fs w /\
  trace w' = trace w ++ [Print (LBegin (current_epoch (self w)))].
Proof.
  intros Hlt Hv. cbv zeta. rewrite call_unfold, range_cons by assumption.
  rewrite call_loop_cons, set_current_epoch_same. simpl snd.
  rewrite train_unfold. cbv zeta. rewrite Hv. simpl.
  repeat split.
Qed.

(** X10: a run that completes iterates the loader once for each epoch of
    [range(current_epoch, epochs)]; it reads the clock once for each
    checkpoint, and with no checkpoint directory it reads no clock and
    leaves every file as it was. *)
Theorem run_iterates_loader_once_per_epoch (w : World) :
  fst (__call__ w) = Ok tt ->
  let w' := snd (__call__ w) in
  let k := Z.to_nat (epochs (self w) - current_epoch (self w)) in
  loader_passes w' = (loader_passes w + k)%nat /\
  clock_reads w'
  = (clock_reads w + match checkpoint_dir (self w) with Some _ => k | None => 0 end)%nat /\
  (checkpoint_dir (self w) = None -> fs w' = fs w).
Proof.
  intros Hrun. cbv zeta. rewrite call_unfold in Hrun |- *.
  pose proof (call_loop_outside _ w Hrun) as Ho. cbv zeta in Ho.
  rewrite range_length in Ho. exact Ho.
Qed.

(** X11: in a run that completes with a checkpoint directory, the record
    written for an epoch holds the epoch, the state of the model and of the
    optimizer after the last optimizer step of that epoch, and the total
    loss of the last batch of that epoch; the records are written in the
    order of the epochs. *)
Theorem run_checkpoint_contents (w : World) (dir : string) :
  checkpoint_dir (self w) = Some dir ->
  fst (__call__ w) = Ok tt ->
  exists evs, trace (snd (__call__ w)) = trace w ++ evs /\
    omap saved_record evs
    = run_records (model (self w)) (optimizer (self w)) (loader_passes w)
        (range (current_epoch (self w)) (epochs (self w))).
Proof.
  intros Hd Hrun. rewrite call_unfold in Hrun |- *.
  destruct (call_loop_records _ w Hrun) as (evs & Et & Er).
  exists evs. split; [exact Et|]. rewrite Er, Hd. reflexivity.
Qed.

End RunProperties.

Lemma run_ends_on_last_epoch_witness :
  current_epoch (self (snd (@__call__ _ Toy.environment (Toy.world 8 2)))) = 1 /\
  exists evs,
    trace (snd (@__call__ _ Toy.environment
                  (snd (@__call__ _ Toy.environment (Toy.world 8 2)))))
    = trace (snd (@__call__ _ Toy.environment (Toy.world 8 2))) ++ evs /\
    omap mark_of evs = [Trained 1; Saved 1].
Proof.
  destruct (@run_ends_on_last_epoch _ Toy.environment (Toy.world 8 2)
              ltac:(vm_compute; reflexivity)) as [_ Hlt].
  destruct (Hlt ltac:(vm_compute; reflexivity)) as [Ec Hagain].
  split; [exact Ec|]. apply Hagain. vm_compute. reflexivity.
Defined.

Lemma run_failure_leaves_failed_epoch_witness :
  exists done e rest evs,
    [0; 1] = done ++ e :: rest /\
    trace (snd (@__call__ _ fading_environment (Toy.world 8 2))) = [] ++ evs /\
    omap mark_of evs = marks_of_epochs (Some "ckpt") done ++ [Trained e] /\
    current_epoch (self (snd (@__call__ _ fading_environment (Toy.world 8 2)))) = e.
Proof.
  exact (@run_failure_leaves_failed_epoch _ fading_environment (Toy.world 8 2)
           UnboundLocalError ltac:(vm_compute; reflexivity)).
Defined.

Lemma run_with_empty_loader_witness :
  fst (@__call__ _ Toy.empty_environment (Toy.world 8 2)) = Raise UnboundLocalError /\
  fs (snd (@__call__ _ Toy.empty_environment (Toy.world 8 2))) = ∅.
Proof.
  destruct (@run_with_empty_loader _ Toy.empty_environment (Toy.world 8 2)
              ltac:(vm_compute; reflexivity) eq_refl) as (Hr & _ & Hf & _).
  split; [exact Hr|exact Hf].
Defined.

Lemma run_iterates_loader_once_per_epoch_witness :
  loader_passes (snd (@__call__ _ Toy.environment (Toy.world 8 2))) = 2%nat /\
  clock_reads (snd (@__call__ _ Toy.environment (Toy.world 8 2))) = 2%nat.
Proof.
  destruct (@run_iterates_loader_once_per_epoch _ Toy.environment (Toy.world 8 2)
              ltac:(vm_compute; reflexivity)) as (Hl & Hc & _).
  split; [exact Hl|exact Hc].
Defined.

Lemma run_checkpoint_contents_witness :
  exists evs,
    trace (snd (@__call__ _ Toy.environment (Toy.world 8 2))) = [] ++ evs /\
    omap saved_record evs
    = [@Build_Checkpoint Toy.collaborators 0 4 4 (Toy.f32 4);
       @Build_Checkpoint Toy.collaborators 1 8 8 (Toy.f32 4)].
Proof.
  destruct (@run_checkpoint_contents _ Toy.environment (Toy.world 8 2) "ckpt" eq_refl
              ltac:(vm_compute; reflexivity)) as (evs & Et & Er).
  exists evs. split; [exact Et|]. rewrite Er. vm_compute. reflexivity.
Defined.

Section CheckpointProperties.
Context `{Environment}.

(** X12: the name of a checkpoint file determines the epoch, the step and
    the timestamp it was made from; so a save leaves in place every
    checkpoint of the directory whose name carries another epoch or another
    step, whatever the clock says. *)
Theorem save_checkpoint_keeps_other_epochs (epoch step : Z) (loss_ : Py.f32) (w : World)
    (dir : string) :
  checkpoint_dir (self w) = Some dir ->
  (forall e s t e' s' t',
     joinpath dir (checkpoint_name e s t) = joinpath dir (checkpoint_name e' s' t') ->
     e = e' /\ s = s' /\ t = t') /\
  (forall e s t, e <> epoch \/ s <> step ->
     fs (snd (save_checkpoint epoch step loss_ w)) !! joinpath dir (checkpoint_name e s t)
     = fs w !! joinpath dir (checkpoint_name e s t)).
Proof.
  intros Hd.
  assert (Hinj : forall e s t e' s' t',
     joinpath dir (checkpoint_name e s t) = joinpath dir (checkpoint_name e' s' t') ->
     e = e' /\ s = s' /\ t = t').
  { intros e s t e' s' t' E. unfold joinpath in E.
    apply append_inj_r in E. apply append_inj_r in E.
    apply checkpoint_name_inj. exact E. }
  split; [exact Hinj|].
  intros e s t Hne. rewrite save_checkpoint_spec, Hd. simpl.
  apply lookup_insert_ne. intros E. apply Hinj in E. lia.
Qed.

(** X13: loading the file a save has just written sets [current_epoch] to
    the epoch that was saved and hands the saved state of the model and of
    the optimizer to their [load_state_dict]; when both accept them the
    load completes with the model and the optimizer they return, and it
    changes no file. *)
Theorem save_then_load (epoch step : Z) (loss_ : Py.f32) (w : World) (dir : string)
    (m : Model) (o : Optim) :
  checkpoint_dir (self w) = Some dir ->
  model_load_state_dict (model (self w)) (model_state_dict (model (self w))) = Ok m ->
  optimizer_load_state_dict (optimizer (self w))
    (optimizer_state_dict (optimizer (self w))) = Ok o ->
  let w1 := snd (save_checkpoint epoch step loss_ w) in
  let path := joinpath dir (checkpoint_name epoch step (clock (clock_reads w))) in
  let w2 := snd (load_checkpoint path w1) in
  fst (load_checkpoint path w1) = Ok tt /\
  current_epoch (self w2) = epoch /\
  model (self w2) = m /\ optimizer (self w2) = o /\
  config_eq (self w2) (self (snd (set_current_epoch epoch w))) /\
  fs w2 = fs w1.
Proof.
  intros Hd Hm Ho. cbv zeta. rewrite save_checkpoint_spec, Hd. cbv zeta.
  unfold load_checkpoint, mbind, M_bind, get_self, emit, torch_load,
    set_current_epoch, set_model, set_optimizer, set_self, lift. simpl.
  rewrite lookup_insert_eq. simpl. rewrite Hm. simpl. rewrite Ho. simpl.
  repeat split.
Qed.

(** X14: loading a path that holds no checkpoint raises
    [FileNotFoundError] after the two opening lines are printed; the
    trainer and the files are unchanged. *)
Theorem load_checkpoint_missing (path : string) (w : World) :
  fs w !! path = None ->
  let w' := snd (load_checkpoint path w) in
  fst (load_checkpoint path w) = Raise FileNotFoundError /\
  self w' = self w /\ fs w' = fs w /\
  trace w' = trace w ++ [Print (LSplitter (_splitter_size (self w)));
                         Print (LRestoring path)].
Proof.
  intros Hf. cbv zeta.
  unfold load_checkpoint, mbind, M_bind, get_self, emit, torch_load. simpl.
  rewrite Hf. simpl. rewrite <- app_assoc. repeat split.
Qed.

(** X15: a load is not atomic.  When the model rejects the stored state,
    the exception leaves [current_epoch] already set to the stored epoch
    and the optimizer as it was; when the model accepts it and the
    optimizer rejects its own, the new model is already in place.  In both
    cases the closing lines are not printed. *)
Theorem load_checkpoint_partial (path : string) (ck : Checkpoint) (w : World) (x : exn) :
  fs w !! path = Some ck ->
  let w' := snd (load_checkpoint path w) in
  let opening := [Print (LSplitter (_splitter_size (self w))); Print (LRestoring path)] in
  (model_load_state_dict (model (self w)) (ck_model_state_dict ck) = Raise x ->
   fst (load_checkpoint path w) = Raise x /\
   current_epoch (self w') = ck_epoch ck /\
   optimizer (self w') = optimizer (self w) /\
   trace w' = trace w ++ opening) /\
  (forall m,
     model_load_state_dict (model (self w)) (ck_model_state_dict ck) = Ok m ->
     optimizer_load_state_dict (optimizer (self w)) (ck_optimizer_state_dict ck) = Raise x ->
     fst (load_checkpoint path w) = Raise x /\
     current_epoch (self w') = ck_epoch ck /\
     model (self w') = m /\
     optimizer (self w') = optimizer (self w) /\
     trace w' = trace w ++ opening).
Proof.
  intros Hf. cbv zeta.
  unfold load_checkpoint, mbind, M_bind, get_self, emit, torch_load,
    set_current_epoch, set_model, set_optimizer, set_self, lift. simpl.
  rewrite Hf. simpl. split.
  - intros Hm. rewrite Hm. simpl. rewrite <- app_assoc. repeat split.
  - intros m Hm Ho. rewrite Hm. simpl. rewrite Ho. simpl.
    rewrite <- app_assoc. repeat split.
Qed.

End CheckpointProperties.

Lemma save_checkpoint_keeps_other_epochs_witness :
  fs (snd (@save_checkpoint _ Toy.environment 1 (-1) (Toy.f32 4)
             (snd (@save_checkpoint _ Toy.environment 0 (-1) (Toy.f32 3) (Toy.world 8 2)))))
    !! "ckpt/bert_epoch0_step-1_1700000000.pt"
  = Some (@Build_Checkpoint Toy.collaborators 0 0 0 (Toy.f32 3)).
Proof.
  destruct (@save_checkpoint_keeps_other_epochs _ Toy.environment 1 (-1) (Toy.f32 4)
              (snd (@save_checkpoint _ Toy.environment 0 (-1) (Toy.f32 3) (Toy.world 8 2)))
              "ckpt" eq_refl) as [_ Hk].
  etransitivity; [exact (Hk 0 (-1) 1700000000 ltac:(left; discriminate))|].
  vm_compute. reflexivity.
Defined.

Lemma save_then_load_witness :
  current_epoch
    (self (snd (@load_checkpoint Toy.collaborators "ckpt/bert_epoch1_step-1_1700000000.pt"
                  (snd (@save_checkpoint _ Toy.environment 1 (-1) (Toy.f32 4)
                          (Toy.world 8 2)))))) = 1.
Proof.
  destruct (@save_then_load _ Toy.environment 1 (-1) (Toy.f32 4) (Toy.world 8 2) "ckpt"
              0 0 eq_refl eq_refl eq_refl) as (_ & Ec & _).
  exact Ec.
Defined.

Lemma load_checkpoint_missing_witness :
  fst (@load_checkpoint Toy.collaborators "ckpt/none.pt" Toy.world_with_checkpoint)
  = Raise FileNotFoundError /\
  self (snd (@load_checkpoint Toy.collaborators "ckpt/none.pt" Toy.world_with_checkpoint))
  = self Toy.world_with_checkpoint.
Proof.
  destruct (@load_checkpoint_missing Toy.collaborators "ckpt/none.pt"
              Toy.world_with_checkpoint ltac:(vm_compute; reflexivity)) as (Hr & Hs & _).
  split; [exact Hr|exact Hs].
Defined.

Lemma load_checkpoint_partial_witness :
  (fst (@load_checkpoint Picky.collaborators "ckpt/bad_model.pt" Picky.world)
   = Raise RuntimeError /\
   current_epoch
     (self (snd (@load_checkpoint Picky.collaborators "ckpt/bad_model.pt" Picky.world))) = 3) /\
  (fst (@load_checkpoint Picky.collaborators "ckpt/bad_optimizer.pt" Picky.world)
   = Raise RuntimeError /\
   model
     (self (snd (@load_checkpoint Picky.collaborators "ckpt/bad_optimizer.pt" Picky.world)))
   = 7).
Proof.
  split.
  - destruct (@load_checkpoint_partial Picky.collaborators "ckpt/bad_model.pt"
                (@Build_Checkpoint Picky.collaborators 3 (-1) 7 (Toy.f32 4))
                Picky.world RuntimeError ltac:(vm_compute; reflexivity)) as [Hm _].
    destruct (Hm eq_refl) as (Hr & Hc & _). split; [exact Hr|exact Hc].
  - destruct (@load_checkpoint_partial Picky.collaborators "ckpt/bad_optimizer.pt"
                (@Build_Checkpoint Picky.collaborators 3 7 (-1) (Toy.f32 4))
                Picky.world RuntimeError ltac:(vm_compute; reflexivity)) as [_ Ho].
    destruct (Ho 7 eq_refl eq_refl) as (Hr & _ & Hm & _). split; [exact Hr|exact Hm].
Defined.

(** * Further properties of the metric helpers *)

(** ** percentage *)

Lemma percentage_returns_quotient (b n c : Z) :
  1 <= n / b -> Z.abs c <= 2 ^ 1023 * (n / b) ->
  exists v, percentage b n c = Ok v.
Proof.
  intros Hd Hc. rewrite percentage_unfold by lia.
  pose proof prec64_pos as Hp. pose proof prec64_emax64 as He.
  destruct (SFdiv_int_ord _ _ Hp He c (n / b) ltac:(lia)) as (Vq & Nq & Oq).
  cbv zeta in Vq, Nq, Oq.
  set (q := SFdiv Py.prec64 Py.emax64 (Py.int_operand c) (Py.int_operand (n / b))) in *.
  destruct q as [s|s| |s m e]; try (eexists; reflexivity).
  exfalso.
  assert (Hb : forall a, 0 <= a <= 2 ^ 1023 * (n / b) ->
            F_div Py.prec64 Py.emax64 (n / b) a < fomega Py.prec64 Py.emax64).
  { intros a Ha. unfold F_div.
    pose proof (funit_pos _ _ Hp He) as Hu.
    assert (Rnd Py.prec64 (a * funit Py.prec64 Py.emax64) (n / b) <= 2 ^ 2097).
    { apply (Rnd_le_pow2 _ Hp); [nia|lia|lia|].
      unfold funit. change (- emin Py.prec64 Py.emax64) with 1074.
      replace (2 ^ 2097) with (2 ^ 1023 * 2 ^ 1074)
        by (rewrite <- Z.pow_add_r by lia; reflexivity).
      set (u := 2 ^ 1074) in *. set (w := 2 ^ 1023) in *. nia. }
    assert (2 ^ 2097 < fomega Py.prec64 Py.emax64).
    { unfold fomega. change (Py.emax64 - emin Py.prec64 Py.emax64) with 2098.
      apply Z.pow_lt_mono_r; lia. }
    lia. }
  unfold ord in Oq. fold (fomega Py.prec64 Py.emax64) in Oq.
  unfold sgn_apply in Oq.
  destruct (Z.leb_spec 0 c).
  - pose proof (Hb c ltac:(lia)). destruct s; simpl cond_Zopp in Oq; [|lia].
    pose proof (F_div_nonneg _ _ Hp He (n / b) c ltac:(lia) ltac:(lia)).
    pose proof (fomega_pos _ _ Hp He). lia.
  - pose proof (Hb (- c) ltac:(lia)). destruct s; simpl cond_Zopp in Oq; [lia|].
    pose proof (F_div_nonneg _ _ Hp He (n / b) (- c) ltac:(lia) ltac:(lia)).
    pose proof (fomega_pos _ _ Hp He). lia.
Qed.

Lemma percentage_zero (b n : Z) : 1 <= n / b -> percentage b n 0 = Ok f64_0.
Proof.
  intros Hd. rewrite percentage_unfold by lia.
  destruct (n / b) as [|d|d]; try lia. reflexivity.
Qed.

Lemma percentage_le (b n c1 c2 : Z) (v1 v2 : Py.f64) :
  1 <= n / b -> c1 <= c2 ->
  percentage b n c1 = Ok v1 -> percentage b n c2 = Ok v2 -> SFleb v1 v2 = true.
Proof.
  intros Hd Hc H1 H2.
  destruct (percentage_ord b n c1 v1 Hd H1) as (V1 & N1 & O1).
  destruct (percentage_ord b n c2 v2 Hd H2) as (V2 & N2 & O2).
  apply (SFleb_ord _ _ prec64_pos prec64_emax64 v1 v2 V1 V2 N1 N2).
  rewrite O1, O2. apply percentage_value_mono; [lia|assumption].
Qed.

(** X16: for a batch count [dataset_size // batch_size >= 1] and a current
    index from 0 to that count, [percentage] returns a value, and that value
    lies between [0.0] and [100.0]. *)
Theorem percentage_within_bounds (b n c : Z) :
  1 <= n / b -> 0 <= c <= n / b ->
  exists v, percentage b n c = Ok v /\
            SFleb f64_0 v = true /\ SFleb v f64_100 = true.
Proof.
  intros Hd Hc.
  destruct (percentage_returns_quotient b n c Hd) as [v Hv].
  { assert (1 <= 2 ^ 1023) by (apply (Z.pow_le_mono_r 2 0 1023); lia). nia. }
  exists v. split; [exact Hv|]. split.
  - apply (percentage_le b n 0 c); [assumption|lia|apply percentage_zero; assumption|exact Hv].
  - apply (percentage_le b n c (n / b)); [assumption|lia|exact Hv|].
    apply percentage_full. assumption.
Qed.

Lemma percentage_within_bounds_witness :
  exists v, percentage 2 10 3 = Ok v /\ SFleb f64_0 v = true /\ SFleb v f64_100 = true.
Proof.
  apply (percentage_within_bounds 2 10 3);
    [vm_compute; discriminate | split; vm_compute; discriminate].
Defined.

(** X17: with a batch count [d = dataset_size // batch_size >= 1],
    [percentage] returns a value whenever the current index is at most
    [2 ^ 1023 * d] in magnitude, and raises [OverflowError], from the true
    division of the ints, whenever it is at least [2 ^ 1024 * d]. *)
Theorem percentage_overflow (b n c : Z) :
  1 <= n / b ->
  (Z.abs c <= 2 ^ 1023 * (n / b) -> exists v, percentage b n c = Ok v) /\
  (2 ^ 1024 * (n / b) <= Z.abs c -> percentage b n c = Raise OverflowError).
Proof.
  intros Hd. split; [apply percentage_returns_quotient; assumption|].
  intros Hc. rewrite percentage_unfold by lia.
  pose proof prec64_pos as Hp. pose proof prec64_emax64 as He.
  destruct (SFdiv_int_ord _ _ Hp He c (n / b) ltac:(lia)) as (Vq & Nq & Oq).
  cbv zeta in Vq, Nq, Oq.
  set (q := SFdiv Py.prec64 Py.emax64 (Py.int_operand c) (Py.int_operand (n / b))) in *.
  assert (Hb : forall a, 2 ^ 1024 * (n / b) <= a ->
            F_div Py.prec64 Py.emax64 (n / b) a = fomega Py.prec64 Py.emax64).
  { intros a Ha. unfold F_div. apply Z.min_r.
    unfold fomega. change (Py.emax64 - emin Py.prec64 Py.emax64) with 2098.
    apply (Rnd_ge_pow2 _ Hp); [lia|lia|].
    unfold funit. change (- emin Py.prec64 Py.emax64) with 1074.
    replace (2 ^ 2098) with (2 ^ 1024 * 2 ^ 1074)
      by (rewrite <- Z.pow_add_r by lia; reflexivity).
    assert (0 < 2 ^ 1074) by (apply Z.pow_pos_nonneg; lia).
    set (u := 2 ^ 1074) in *. set (w := 2 ^ 1024) in *. nia. }
  pose proof (fomega_pos _ _ Hp He) as Hom.
  assert (Ho : Z.abs (ord Py.prec64 Py.emax64 q) = fomega Py.prec64 Py.emax64).
  { rewrite Oq. unfold sgn_apply. destruct (Z.leb_spec 0 c).
    - rewrite Hb by lia. lia.
    - rewrite Hb by lia. lia. }
  destruct q as [s|s| |s m e]; try reflexivity.
  - simpl in Ho. lia.
  - destruct Nq.
  - exfalso. unfold ord in Ho.
    assert (Hv : valid_binary Py.prec64 Py.emax64 (S754_finite false m e) = true)
      by exact Vq.
    pose proof (finite_lt_omega _ _ Hp He m e Hv) as Hlt.
    unfold fomega in Ho. destruct s; simpl in Ho; lia.
Qed.

Lemma percentage_overflow_witness :
  (exists v, percentage 1 1 (2 ^ 1023) = Ok v) /\
  percentage 1 1 (2 ^ 1024) = Raise OverflowError.
Proof.
  destruct (percentage_overflow 1 1 (2 ^ 1023) ltac:(vm_compute; discriminate)) as [Hr _].
  destruct (percentage_overflow 1 1 (2 ^ 1024) ltac:(vm_compute; discriminate)) as [_ Ho].
  split; [apply Hr|apply Ho]; vm_compute; discriminate.
Defined.

(** ** The accuracies *)

(** X18: on predictions and targets of the same number of rows, each with
    at least one class, [nsp_accuracy] is symmetric in its two arguments. *)
Theorem nsp_accuracy_symmetric (result_ target : Torch.tensor2 Py.f32) :
  Torch.rows result_ = Torch.rows target ->
  Torch.cols result_ <> 0%nat -> Torch.cols target <> 0%nat ->
  nsp_accuracy result_ target = nsp_accuracy target result_.
Proof.
  intros Hr Hc1 Hc2.
  rewrite (nsp_accuracy_formula result_ target Hr Hc1 Hc2).
  rewrite (nsp_accuracy_formula target result_ (eq_sym Hr) Hc2 Hc1).
  assert (E : matching_rows result_ target = matching_rows target result_).
  { unfold matching_rows. rewrite <- Hr. do 2 f_equal.
    apply List.filter_ext. intros i. apply Z.eqb_sym. }
  rewrite E, Hr. reflexivity.
Qed.

Lemma nsp_accuracy_symmetric_witness :
  nsp_accuracy Toy.nsp_ Toy.nsp_target_ = nsp_accuracy Toy.nsp_target_ Toy.nsp_.
Proof.
  apply (nsp_accuracy_symmetric Toy.nsp_ Toy.nsp_target_); [reflexivity| |]; discriminate.
Defined.

(** X19: the outcome of [nsp_accuracy] by the shapes of its arguments: it
    raises [IndexError] when the predictions or the targets have no class;
    otherwise it raises [RuntimeError] when the numbers of rows differ and
    neither is 1; otherwise it returns a value. *)
Theorem nsp_accuracy_outcome (result_ target : Torch.tensor2 Py.f32) :
  (Torch.cols result_ = 0%nat \/ Torch.cols target = 0%nat ->
   nsp_accuracy result_ target = Raise IndexError) /\
  (Torch.cols result_ <> 0%nat -> Torch.cols target <> 0%nat ->
   Torch.rows result_ <> Torch.rows target ->
   Torch.rows result_ <> 1%nat -> Torch.rows target <> 1%nat ->
   nsp_accuracy result_ target = Raise RuntimeError) /\
  (Torch.cols result_ <> 0%nat -> Torch.cols target <> 0%nat ->
   Torch.rows result_ = Torch.rows target \/ Torch.rows result_ = 1%nat
   \/ Torch.rows target = 1%nat ->
   exists v, nsp_accuracy result_ target = Ok v).
Proof.
  unfold nsp_accuracy, Torch.argmax1, mbind, result_bind.
  split; [|split].
  - intros [Hc|Hc].
    + rewrite Hc. reflexivity.
    + destruct (Torch.cols result_ =? 0)%nat; [reflexivity|]. rewrite Hc. reflexivity.
  - intros Hc1 Hc2 Hr H1 H2.
    destruct (Nat.eqb_spec (Torch.cols result_) 0); [contradiction|].
    destruct (Nat.eqb_spec (Torch.cols target) 0); [contradiction|].
    unfold Torch.eq1, Torch.bsize. rewrite !length_map, !length_seq.
    destruct (Nat.eqb_spec (Torch.rows result_) (Torch.rows target)); [contradiction|].
    destruct (Nat.eqb_spec (Torch.rows result_) 1); [contradiction|].
    destruct (Nat.eqb_spec (Torch.rows target) 1); [contradiction|].
    reflexivity.
  - intros Hc1 Hc2 Hr.
    destruct (Nat.eqb_spec (Torch.cols result_) 0); [contradiction|].
    destruct (Nat.eqb_spec (Torch.cols target) 0); [contradiction|].
    unfold Torch.eq1, Torch.bsize. rewrite !length_map, !length_seq.
    destruct (Nat.eqb_spec (Torch.rows result_) (Torch.rows target));
      [eexists; reflexivity|].
    destruct (Nat.eqb_spec (Torch.rows result_) 1); [eexists; reflexivity|].
    destruct (Nat.eqb_spec (Torch.rows target) 1); [eexists; reflexivity|].
    exfalso. tauto.
Qed.

(** X20: [token_accuracy] does not look at the ignored positions: two
    inputs of the shape of the mask whose top-scoring classes and whose
    targets agree at every position the mask does not ignore have the same
    accuracy. *)
Theorem token_accuracy_ignores_masked (result_ result' : Torch.tensor3 Py.f32)
    (target target' : Torch.tensor2 Z) (mask : Torch.tensor2 bool) :
  Torch.dim0 result_ = Torch.rows mask -> Torch.dim1 result_ = Torch.cols mask ->
  Torch.dim0 result' = Torch.rows mask -> Torch.dim1 result' = Torch.cols mask ->
  Torch.rows target = Torch.rows mask -> Torch.cols target = Torch.cols mask ->
  Torch.rows target' = Torch.rows mask -> Torch.cols target' = Torch.cols mask ->
  Torch.dim2 result_ <> 0%nat -> Torch.dim2 result' <> 0%nat ->
  (forall i j, (i < Torch.rows mask)%nat -> (j < Torch.cols mask)%nat ->
               Torch.at2 mask i j = false ->
               Torch.argmax_row (Torch.at3 result_ i j) (Torch.dim2 result_)
               = Torch.argmax_row (Torch.at3 result' i j) (Torch.dim2 result') /\
               Torch.at2 target i j = Torch.at2 target' i j) ->
  token_accuracy result_ target mask = token_accuracy result' target' mask.
Proof.
  intros H0 H1 H0' H1' Hr Hc Hr' Hc' H2 H2' Hsame.
  rewrite (token_accuracy_formula result_ target mask H0 H1 Hr Hc H2).
  rewrite (token_accuracy_formula result' target' mask H0' H1' Hr' Hc' H2').
  assert (E : matching_tokens result_ target mask = matching_tokens result' target' mask).
  { unfold matching_tokens. do 2 f_equal.
    apply List.filter_ext_in. intros p Hp.
    destruct (unmasked_bounds mask p Hp) as (Hi & Hj & Hm).
    destruct (Hsame _ _ Hi Hj Hm) as [-> ->]. reflexivity. }
  rewrite E, H0, H1, H0', H1'. reflexivity.
Qed.

Lemma token_accuracy_ignores_masked_witness :
  token_accuracy Toy.token_ Toy.mask_target_ Toy.mask_
  = token_accuracy Toy.token_
      (Torch.Tensor2 2 3 (fun i j => if (j =? 0)%nat then 99
                                     else Torch.at2 Toy.mask_target_ i j))
      Toy.mask_.
Proof.
  apply (token_accuracy_ignores_masked Toy.token_ Toy.token_ Toy.mask_target_
           (Torch.Tensor2 2 3 (fun i j => if (j =? 0)%nat then 99
                                          else Torch.at2 Toy.mask_target_ i j))
           Toy.mask_); try reflexivity; try discriminate.
  intros i j Hi Hj Hm. split; [reflexivity|].
  simpl in Hm |- *. rewrite Hm. reflexivity.
Defined.

(** * The constructor and what every method keeps *)

Section SetupFacts.
Context `{Environment}.

Lemma same_setup_refl (t : BertTrainer) : same_setup t t.
Proof. repeat split. Qed.

Lemma same_setup_trans (t1 t2 t3 : BertTrainer) :
  same_setup t1 t2 -> same_setup t2 t3 -> same_setup t1 t3.
Proof. unfold same_setup. intuition congruence. Qed.

Lemma config_eq_setup (t t' : BertTrainer) : config_eq t t' -> same_setup t t'.
Proof. unfold config_eq, same_setup. intuition. Qed.

Lemma load_checkpoint_setup (path : string) (w : World) :
  same_setup (self w) (self (snd (load_checkpoint path w))).
Proof.
  unfold load_checkpoint, mbind, M_bind, get_self, emit, torch_load,
    set_current_epoch, set_model, set_optimizer, set_self, lift. simpl.
  destruct (fs w !! path) as [ck|]; simpl; [|repeat split].
  destruct (model_load_state_dict _ _) as [m|x]; simpl; [|repeat split].
  destruct (optimizer_load_state_dict _ _) as [o|x]; simpl; repeat split.
Qed.

Lemma call_loop_setup (es : list Z) : forall w : World,
  same_setup (self w) (self (snd (call_loop es w))).
Proof.
  induction es as [|e es IH]; intros w; [apply same_setup_refl|].
  rewrite call_loop_cons.
  pose proof (train_marks e (snd (set_current_epoch e w))) as [C _].
  apply config_eq_setup in C.
  assert (C0 : same_setup (self w) (self (snd (set_current_epoch e w))))
    by (repeat split).
  destruct (train e _) as [[l|x] w2]; simpl in C.
  - eapply same_setup_trans; [|apply IH].
    destruct (save_checkpoint_self (current_epoch (self w2)) (-1) l w2) as (-> & _).
    eapply same_setup_trans; eassumption.
  - eapply same_setup_trans; eassumption.
Qed.

End SetupFacts.

Section SetupProperties.
Context `{Environment}.

(** X21: no method changes what the constructor fixed: whatever they
    return or raise, [train], [save_checkpoint], [load_checkpoint] and
    [__call__] leave the batch size, the checkpoint directory, the number of
    epochs, the dataset length, the batch count and the two periods as they
    were. *)
Theorem methods_keep_setup (w : World) :
  (forall epoch, same_setup (self w) (self (snd (train epoch w)))) /\
  (forall epoch step loss_,
     same_setup (self w) (self (snd (save_checkpoint epoch step loss_ w)))) /\
  (forall path, same_setup (self w) (self (snd (load_checkpoint path w)))) /\
  same_setup (self w) (self (snd (__call__ w))).
Proof.
  split; [|split; [|split]].
  - intros epoch. apply config_eq_setup. apply (train_marks epoch w).
  - intros epoch step loss_.
    destruct (save_checkpoint_self epoch step loss_ w) as (-> & _).
    apply same_setup_refl.
  - intros path. apply load_checkpoint_setup.
  - rewrite call_unfold. apply call_loop_setup.
Qed.

End SetupProperties.

Section InitProperties.
Context `{Collaborators} `{!Constructors}.

(** X22: a trainer the constructor returns starts at epoch 0, has a
    non-zero batch size (with batch size 0 the construction raises, at the
    floor division if not before) and the batch count
    [len(dataset) // batch_size]; when [0 < batch_size <= len(dataset)],
    [percentage] at the index of the last full batch is exactly [100.0]. *)
Theorem init_establishes (model_ : Model) (dataset : Dataset) (log_dir : string)
    (checkpoint_dir_ : option string) (pe ae bs : Z) (lr : Py.f64) (epochs_ : Z)
    (t : BertTrainer) :
  __init__ model_ dataset log_dir checkpoint_dir_ pe ae bs lr epochs_ = Ok t ->
  current_epoch t = 0 /\ epochs t = epochs_ /\ checkpoint_dir t = checkpoint_dir_ /\
  batch_size t = bs /\ bs <> 0 /\
  _ds_len t = Z.of_nat (len dataset) /\
  _batched_len t = Z.of_nat (len dataset) / bs /\
  (0 < bs <= Z.of_nat (len dataset) ->
   1 <= _batched_len t /\
   percentage (batch_size t) (_ds_len t) (_batched_len t) = Ok f64_100).
Proof.
  unfold __init__, mbind, result_bind, Py.floordiv.
  destruct (DataLoader dataset bs) as [[]|x]; [|discriminate].
  destruct (SummaryWriter log_dir) as [[]|x]; [|discriminate].
  destruct (Adam model_ lr) as [o|x]; [|discriminate].
  destruct (Z.eqb_spec bs 0) as [E|E]; [discriminate|].
  cbn. intros [= <-]. simpl.
  repeat (split; [first [reflexivity|assumption]|]).
  intros Hb.
  assert (Hd : 1 <= Z.of_nat (len dataset) / bs).
  { apply Z.div_le_lower_bound; lia. }
  split; [exact Hd|]. apply percentage_full. exact Hd.
Qed.

End InitProperties.

Section FreshRun.
Context `{Environment} `{!Constructors}.

(** X23: a run of a freshly constructed trainer that completes trains the
    epochs 0, 1, ... up to [epochs - 1], in this order, and saves a
    checkpoint after each one when a directory was given. *)
Theorem fresh_run_epochs (model_ : Model) (dataset : Dataset) (log_dir : string)
    (checkpoint_dir_ : option string) (pe ae bs : Z) (lr : Py.f64) (epochs_ : Z)
    (t : BertTrainer) :
  __init__ model_ dataset log_dir checkpoint_dir_ pe ae bs lr epochs_ = Ok t ->
  fst (__call__ (fresh_world t)) = Ok tt ->
  omap mark_of (trace (snd (__call__ (fresh_world t))))
  = marks_of_epochs checkpoint_dir_ (range 0 epochs_).
Proof.
  intros Hi Hrun.
  assert (Ht : current_epoch t = 0 /\ epochs t = epochs_ /\
               checkpoint_dir t = checkpoint_dir_).
  { revert Hi. unfold __init__, mbind, result_bind, Py.floordiv.
    destruct (DataLoader dataset bs) as [[]|x]; [|discriminate].
    destruct (SummaryWriter log_dir) as [[]|x]; [|discriminate].
    destruct (Adam model_ lr) as [o|x]; [|discriminate].
    destruct (bs =? 0); [discriminate|]. intros [= <-]. repeat split. }
  destruct Ht as (Ec & Ee & Ed).
  rewrite call_unfold in Hrun |- *.
  destruct (call_loop_marks _ _ Hrun) as (_ & _ & evs & Et & Em).
  rewrite Et. simpl trace. simpl app. rewrite Em. simpl self.
  rewrite Ec, Ee, Ed. reflexivity.
Qed.

End FreshRun.

Lemma init_establishes_witness :
  exists t, @__init__ _ toy_constructors 0 8%nat "runs" (Some "ckpt") 2 4 2 f64_0 2 = Ok t /\
            _batched_len t = 4 /\
            percentage (batch_size t) (_ds_len t) (_batched_len t) = Ok f64_100.
Proof.
  eexists. split; [reflexivity|].
  destruct (@init_establishes _ toy_constructors 0 8%nat "runs" (Some "ckpt") 2 4 2 f64_0 2
              _ eq_refl) as (_ & _ & _ & _ & _ & _ & Eb & Hp).
  split; [exact Eb|]. apply Hp. vm_compute. split; [reflexivity|discriminate].
Defined.

Lemma fresh_run_epochs_witness :
  exists t, @__init__ _ toy_constructors 0 8%nat "runs" (Some "ckpt") 2 4 2 f64_0 2 = Ok t /\
            omap mark_of (trace (snd (@__call__ _ Toy.environment (fresh_world t))))
            = [Trained 0; Saved 0; Trained 1; Saved 1].
Proof.
  eexists. split; [reflexivity|].
  exact (@fresh_run_epochs _ Toy.environment toy_constructors 0 8%nat "runs" (Some "ckpt")
           2 4 2 f64_0 2 _ eq_refl ltac:(vm_compute; reflexivity)).
Defined.

(** ** The accuracies lie between 0 and 1 *)

Section UnitRange.
Variables prec emax : Z.
Hypothesis Hprec : 0 < prec.
Hypothesis Hemax : prec < emax.

Lemma nonneg_not_nan (x : spec_float) : nonneg_float x -> not_nan x.
Proof using Type. destruct x; simpl; auto. Qed.

Lemma nonneg_ord (x : spec_float) : nonneg_float x -> 0 <= ord prec emax x.
Proof using Hprec Hemax.
  destruct x as [s|s| |s m e]; simpl; try lia.
  - intros ->. simpl. pose proof (fomega_pos _ _ Hprec Hemax). unfold fomega in *. lia.
  - intros ->. simpl.
    assert (0 <= 2 ^ (e - emin prec emax)) by (apply Z.pow_nonneg; lia). nia.
Qed.

(** The conversion of a non-negative int. *)
Lemma normalize_ord (z : Z) : 0 <= z ->
  let x := binary_normalize prec emax z 0 false in
  valid_binary prec emax x = true /\ nonneg_float x /\
  ord prec emax x = Z.min (Rnd prec (z * funit prec emax) 1) (fomega prec emax).
Proof using Hprec Hemax.
  intros Hz. cbv zeta. pose proof (fomega_pos _ _ Hprec Hemax) as Ho.
  destruct z as [|p|p]; [| |lia].
  - simpl. rewrite (Rnd_0 _ _ Hprec Hemax) by lia. repeat split. lia.
  - simpl binary_normalize. rewrite binary_round_spec by assumption.
    rewrite (scaleN_0 _ _ Hprec Hemax), (scaleD_0 _ _ Hprec Hemax).
    pose proof (funit_pos _ _ Hprec Hemax) as Hu.
    assert (HN : 0 <= Zpos p * funit prec emax) by nia.
    destruct (encode_Rnd prec emax Hprec Hemax false _ 1 HN ltac:(lia))
      as (Hv & Hn & Hord & Hs).
    cbv zeta in Hv, Hn, Hord, Hs. split; [exact Hv|]. split.
    + destruct (encode_float _ _ _ _); simpl in *; auto.
    + rewrite Hord. reflexivity.
Qed.

Lemma normalize_mono (a b : Z) : 0 <= a <= b ->
  ord prec emax (binary_normalize prec emax a 0 false)
  <= ord prec emax (binary_normalize prec emax b 0 false).
Proof using Hprec Hemax.
  intros Hab.
  destruct (normalize_ord a ltac:(lia)) as (_ & _ & ->).
  destruct (normalize_ord b ltac:(lia)) as (_ & _ & ->).
  pose proof (funit_pos _ _ Hprec Hemax) as Hu.
  apply Z.min_le_compat_r. apply (Rnd_mono prec Hprec); nia.
Qed.

(** A quotient of non-negative floats, the smaller by the greater, is at
    most one. *)
Lemma SFdiv_le_one (x : spec_float) (my : positive) (ey : Z) :
  valid_binary prec emax x = true -> nonneg_float x ->
  valid_binary prec emax (S754_finite false my ey) = true ->
  ord prec emax x <= ord prec emax (S754_finite false my ey) ->
  let r := SFdiv prec emax x (S754_finite false my ey) in
  valid_binary prec emax r = true /\ nonneg_float r /\
  ord prec emax r <= funit prec emax.
Proof using Hprec Hemax.
  intros Vx Nx Vy Hle. cbv zeta.
  pose proof (funit_pos _ _ Hprec Hemax) as Hu.
  pose proof (emin_nonpos _ _ Hprec Hemax) as Hm.
  destruct x as [s|s| |s mx ex]; simpl in Nx; try contradiction; subst s.
  - simpl. repeat split. lia.
  - exfalso. pose proof (finite_lt_omega _ _ Hprec Hemax my ey Vy) as Hlt.
    simpl in Hle. lia.
  - rewrite SFdiv_finite_spec by assumption.
    apply (valid_finite _ _ Hprec Hemax) in Vx, Vy.
    destruct Vx as ((Hex & _) & _). destruct Vy as ((Hey & _) & _).
    simpl in Hle.
    set (N := scaleN prec emax (Zpos mx) (ex - ey)).
    set (D := scaleD prec emax (Zpos my) (ex - ey)).
    assert (HN : 0 <= N) by (apply scaleN_nonneg; [assumption|lia]).
    assert (HD : 0 < D) by (apply scaleD_pos; [assumption|lia]).
    destruct (encode_Rnd prec emax Hprec Hemax false N D HN HD) as (Hv & Hn & Hord & Hs).
    cbv zeta in Hv, Hn, Hord, Hs. simpl xorb. split; [exact Hv|]. split.
    + destruct (encode_float _ _ _ _); simpl in *; auto.
    + rewrite Hord. simpl cond_Zopp.
      etransitivity; [apply Z.le_min_l|].
      apply (Rnd_le_pow2 prec Hprec); [assumption|assumption|lia|].
      unfold N, D, scaleN, scaleD.
      set (a := ex - emin prec emax) in *. set (b := ey - emin prec emax) in *.
      set (u := - emin prec emax) in *.
      assert (Ha : 0 <= a) by (unfold a; lia).
      assert (Hb : 0 <= b) by (unfold b; lia).
      assert (Hu0 : 0 <= u) by (unfold u; lia).
      replace (ex - ey - emin prec emax) with (a - b + u) by (unfold a, b, u; lia).
      replace (emin prec emax - (ex - ey)) with (b - a - u) by (unfold a, b, u; lia).
      assert (PA : 0 < 2 ^ a) by (apply Z.pow_pos_nonneg; lia).
      assert (PB : 0 < 2 ^ b) by (apply Z.pow_pos_nonneg; lia).
      assert (PU : 0 < 2 ^ u) by (apply Z.pow_pos_nonneg; lia).
      destruct (Z.le_gt_cases 0 (a - b + u)) as [Hk|Hk].
      * rewrite (Z.max_r 0 (a - b + u)) by lia. rewrite (Z.max_l 0 (b - a - u)) by lia.
        assert (PK : 0 < 2 ^ (a - b + u)) by (apply Z.pow_pos_nonneg; lia).
        assert (E : 2 ^ (a - b + u) * 2 ^ b = 2 ^ a * 2 ^ u).
        { rewrite <- !Z.pow_add_r by lia. f_equal. lia. }
        change (2 ^ 0) with 1.
        set (A := 2 ^ a) in *. set (B := 2 ^ b) in *. set (U := 2 ^ u) in *.
        set (K := 2 ^ (a - b + u)) in *.
        apply (Z.mul_le_mono_pos_r _ _ B PB).
        replace (Zpos mx * K * B) with (Zpos mx * A * U)
          by (transitivity (Zpos mx * (A * U)); [ring|rewrite <- E; ring]).
        replace (U * (Zpos my * 1) * B) with (Zpos my * B * U) by ring.
        apply Z.mul_le_mono_nonneg_r; lia.
      * rewrite (Z.max_l 0 (a - b + u)) by lia. rewrite (Z.max_r 0 (b - a - u)) by lia.
        assert (PJ : 0 < 2 ^ (b - a - u)) by (apply Z.pow_pos_nonneg; lia).
        assert (E : 2 ^ b = 2 ^ a * (2 ^ u * 2 ^ (b - a - u))).
        { rewrite <- !Z.pow_add_r by lia. f_equal. lia. }
        change (2 ^ 0) with 1.
        set (A := 2 ^ a) in *. set (B := 2 ^ b) in *. set (U := 2 ^ u) in *.
        set (J := 2 ^ (b - a - u)) in *.
        apply (Z.mul_le_mono_pos_r _ _ A PA).
        replace (U * (Zpos my * J) * A) with (Zpos my * B) by (rewrite E; ring).
        lia.
Qed.

End UnitRange.

Lemma length_flat_map_le {A B : Type} (f : A -> list B) (l : list A) (c : nat) :
  (forall a, length (f a) <= c)%nat -> (length (flat_map f l) <= length l * c)%nat.
Proof.
  intros Hf. induction l as [|a l IH]; simpl; [lia|].
  rewrite length_app. specialize (Hf a). lia.
Qed.

Lemma unmasked_length_le (mask : Torch.tensor2 bool) :
  (length (unmasked mask) <= Torch.rows mask * Torch.cols mask)%nat.
Proof.
  unfold unmasked.
  etransitivity; [apply (length_flat_map_le _ _ (Torch.cols mask))|].
  - intros i.
    etransitivity; [apply (length_flat_map_le _ _ 1%nat)|].
    + intros j. destruct (Torch.at2 mask i j); simpl; lia.
    + rewrite length_seq. lia.
  - rewrite length_seq. lia.
Qed.

Lemma f64_unit : ord Py.prec64 Py.emax64 f64_1 = funit Py.prec64 Py.emax64.
Proof. reflexivity. Qed.

(** [s / n] in float32 for ints [0 <= s <= n]. *)
Lemma int_truediv_le_one (s n : Z) : 0 <= s <= n -> 0 < n < 2 ^ 127 ->
  let r := Torch.int_truediv s n in
  valid_binary Py.prec32 Py.emax32 r = true /\ nonneg_float r /\
  ord Py.prec32 Py.emax32 r <= funit Py.prec32 Py.emax32.
Proof.
  intros Hs Hn. cbv zeta. unfold Torch.int_truediv, Torch.f32_of_int.
  pose proof prec32_pos as Hp. pose proof prec32_emax32 as He.
  destruct (normalize_ord _ _ Hp He s ltac:(lia)) as (Vx & Nx & _).
  destruct (normalize_ord _ _ Hp He n ltac:(lia)) as (Vy & _ & _).
  pose proof (normalize_mono _ _ Hp He s n Hs) as Hle.
  destruct (binary_normalize_finite _ _ Hp He n Hn) as (m & e & E).
  rewrite E in *. apply (SFdiv_le_one _ _ Hp He); assumption.
Qed.

(** A float32 in the unit interval is a double in the unit interval. *)
Lemma float_of_f32_le_one (r : Py.f32) :
  valid_binary Py.prec32 Py.emax32 r = true -> nonneg_float r ->
  ord Py.prec32 Py.emax32 r <= funit Py.prec32 Py.emax32 ->
  let v := Py.float_of_f32 r in
  valid_binary Py.prec64 Py.emax64 v = true /\ nonneg_float v /\
  ord Py.prec64 Py.emax64 v <= funit Py.prec64 Py.emax64.
Proof.
  intros Vr Nr Hle. cbv zeta.
  pose proof prec64_pos as Hp. pose proof prec64_emax64 as He.
  destruct r as [s|s| |s m e]; simpl in Nr; try contradiction; subst s.
  - simpl. repeat split. discriminate.
  - exfalso. revert Hle. vm_compute. intros Hle. apply Hle. reflexivity.
  - unfold Py.float_of_f32. rewrite binary_round_spec by assumption.
    apply (valid_finite _ _ prec32_pos prec32_emax32) in Vr.
    destruct Vr as ((Hex & _) & _).
    change (emin Py.prec32 Py.emax32) with (-149) in Hex.
    unfold ord in Hle. simpl cond_Zopp in Hle.
    change (emin Py.prec32 Py.emax32) with (-149) in Hle.
    unfold funit in Hle. change (emin Py.prec32 Py.emax32) with (-149) in Hle.
    set (N := scaleN Py.prec64 Py.emax64 (Zpos m) e).
    set (D := scaleD Py.prec64 Py.emax64 1 e).
    assert (HN : 0 <= N) by (apply scaleN_nonneg; [assumption|lia]).
    assert (HD : 0 < D) by (apply scaleD_pos; [assumption|lia]).
    destruct (encode_Rnd _ _ Hp He false N D HN HD) as (Hv & Hn & Hord & Hs).
    cbv zeta in Hv, Hn, Hord, Hs. split; [exact Hv|]. split.
    + destruct (encode_float _ _ _ _); simpl in *; auto.
    + rewrite Hord. simpl cond_Zopp.
      etransitivity; [apply Z.le_min_l|].
      unfold funit. change (- emin Py.prec64 Py.emax64) with 1074.
      apply (Rnd_le_pow2 _ Hp); [assumption|assumption|lia|].
      unfold N, D, scaleN, scaleD. change (emin Py.prec64 Py.emax64) with (-1074).
      rewrite (Z.max_r 0 (e - -1074)) by lia. rewrite (Z.max_l 0 (-1074 - e)) by lia.
      change (2 ^ 0) with 1.
      replace (e - -1074) with (e - -149 + 925) by lia.
      rewrite Z.pow_add_r by lia.
      replace (2 ^ 1074) with (2 ^ (- -149) * 2 ^ 925)
        by (rewrite <- Z.pow_add_r by lia; reflexivity).
      assert (0 < 2 ^ 925) by (apply Z.pow_pos_nonneg; lia).
      set (P := 2 ^ 925) in *. set (Q := 2 ^ (e - -149)) in *.
      set (R := 2 ^ (- -149)) in *. nia.
Qed.

(** Rounding to two decimals keeps the unit interval. *)
Lemma round_le_one (v : Py.f64) :
  valid_binary Py.prec64 Py.emax64 v = true -> nonneg_float v ->
  ord Py.prec64 Py.emax64 v <= funit Py.prec64 Py.emax64 ->
  SFleb f64_0 (Py.round v 2) = true /\ SFleb (Py.round v 2) f64_1 = true.
Proof.
  intros Vv Nv Hle.
  pose proof prec64_pos as Hp. pose proof prec64_emax64 as He.
  pose proof (nonneg_ord _ _ Hp He v Nv) as H0.
  destruct (round_ord v 2 Vv (nonneg_not_nan v Nv) ltac:(lia)) as (Vr & Nr & Or).
  cbv zeta in Vr, Nr, Or. change (10 ^ 2) with 100 in Or.
  unfold sgn_apply in Or. destruct (Z.leb_spec 0 (ord Py.prec64 Py.emax64 v)); [|lia].
  assert (Hone : F_round Py.prec64 Py.emax64 100 (funit Py.prec64 Py.emax64)
                 = funit Py.prec64 Py.emax64).
  { pose proof (funit_pos _ _ Hp He) as Hu. pose proof (fomega_pos _ _ Hp He) as Ho.
    unfold F_round. rewrite (Z.mul_comm (funit _ _) 100), rne_div_exact by assumption.
    rewrite (Rnd_ext _ _ Hp He (100 * funit Py.prec64 Py.emax64) 100 (1 * 2 ^ 1074) 1);
      [|lia|lia|lia|unfold funit; change (- emin Py.prec64 Py.emax64) with 1074; lia].
    rewrite (Rnd_exact _ Hp 1 1074); [|split; [lia|reflexivity]|lia].
    unfold funit, fomega.
    change (- emin Py.prec64 Py.emax64) with 1074.
    change (Py.emax64 - emin Py.prec64 Py.emax64) with 2098.
    rewrite Z.mul_1_l. apply Z.min_l. apply Z.pow_le_mono_r; lia. }
  assert (Hup : ord Py.prec64 Py.emax64 (Py.round v 2) <= funit Py.prec64 Py.emax64).
  { rewrite Or, <- Hone. apply (F_round_mono _ _ Hp He); lia. }
  assert (Hlow : 0 <= ord Py.prec64 Py.emax64 (Py.round v 2)).
  { rewrite Or. apply (F_round_nonneg _ _ Hp He); lia. }
  split.
  - apply (SFleb_ord _ _ Hp He f64_0 (Py.round v 2)); [reflexivity|exact Vr|exact I|exact Nr|].
    exact Hlow.
  - apply (SFleb_ord _ _ Hp He (Py.round v 2) f64_1); [exact Vr|reflexivity|exact Nr|exact I|].
    rewrite f64_unit. exact Hup.
Qed.

(** X24: on predictions and targets of the same number of rows
    [1 <= B < 2 ^ 63], each with at least one class, [nsp_accuracy] returns
    a value between [0.0] and [1.0]. *)
Theorem nsp_accuracy_within_unit (result_ target : Torch.tensor2 Py.f32) :
  Torch.rows result_ = Torch.rows target ->
  Torch.cols result_ <> 0%nat -> Torch.cols target <> 0%nat ->
  0 < Z.of_nat (Torch.rows result_) < 2 ^ 63 ->
  exists v, nsp_accuracy result_ target = Ok v /\
            SFleb f64_0 v = true /\ SFleb v f64_1 = true.
Proof.
  intros Hr Hc1 Hc2 Hn.
  rewrite (nsp_accuracy_formula result_ target Hr Hc1 Hc2).
  eexists. split; [reflexivity|].
  assert (Hs : 0 <= matching_rows result_ target <= Z.of_nat (Torch.rows result_)).
  { unfold matching_rows. split; [lia|]. apply Nat2Z.inj_le.
    etransitivity; [apply List.filter_length_le|]. rewrite length_seq. lia. }
  assert (Hn' : 0 < Z.of_nat (Torch.rows result_) < 2 ^ 127).
  { split; [lia|]. apply Z.lt_trans with (2 ^ 63); [lia|reflexivity]. }
  destruct (int_truediv_le_one _ _ Hs Hn') as (Vr & Nr & Or).
  destruct (float_of_f32_le_one _ Vr Nr Or) as (Vv & Nv & Ov).
  apply round_le_one; assumption.
Qed.

(** X25: on predictions, targets and an ignore mask of one common batch
    size and sequence length, with [1 <= B * L < 2 ^ 63] positions and at
    least one class, [token_accuracy] returns a value between [0.0] and
    [1.0]. *)
Theorem token_accuracy_within_unit (result_ : Torch.tensor3 Py.f32)
    (target : Torch.tensor2 Z) (mask : Torch.tensor2 bool) :
  Torch.dim0 result_ = Torch.rows mask -> Torch.dim1 result_ = Torch.cols mask ->
  Torch.rows target = Torch.rows mask -> Torch.cols target = Torch.cols mask ->
  Torch.dim2 result_ <> 0%nat ->
  0 < Z.of_nat (Torch.dim0 result_) * Z.of_nat (Torch.dim1 result_) < 2 ^ 63 ->
  exists v, token_accuracy result_ target mask = Ok v /\
            SFleb f64_0 v = true /\ SFleb v f64_1 = true.
Proof.
  intros H0 H1 Hr Hc H2 Hn.
  rewrite (token_accuracy_formula result_ target mask H0 H1 Hr Hc H2).
  eexists. split; [reflexivity|].
  assert (Hs : 0 <= matching_tokens result_ target mask
               <= Z.of_nat (Torch.dim0 result_) * Z.of_nat (Torch.dim1 result_)).
  { unfold matching_tokens. split; [lia|].
    rewrite <- Nat2Z.inj_mul. apply Nat2Z.inj_le.
    etransitivity; [apply List.filter_length_le|].
    rewrite H0, H1. apply unmasked_length_le. }
  assert (Hn' : 0 < Z.of_nat (Torch.dim0 result_) * Z.of_nat (Torch.dim1 result_) < 2 ^ 127).
  { split; [lia|]. apply Z.lt_trans with (2 ^ 63); [lia|reflexivity]. }
  destruct (int_truediv_le_one _ _ Hs Hn') as (Vr & Nr & Or).
  destruct (float_of_f32_le_one _ Vr Nr Or) as (Vv & Nv & Ov).
  apply round_le_one; assumption.
Qed.

Lemma nsp_accuracy_within_unit_witness :
  exists v, nsp_accuracy Toy.nsp_ Toy.nsp_target_ = Ok v /\
            SFleb f64_0 v = true /\ SFleb v f64_1 = true.
Proof.
  apply (nsp_accuracy_within_unit Toy.nsp_ Toy.nsp_target_);
    [reflexivity|discriminate|discriminate|vm_compute; split; reflexivity].
Defined.

Lemma token_accuracy_within_unit_witness :
  exists v, token_accuracy Toy.token_ Toy.mask_target_ Toy.mask_ = Ok v /\
            SFleb f64_0 v = true /\ SFleb v f64_1 = true.
Proof.
  apply (token_accuracy_within_unit Toy.token_ Toy.mask_target_ Toy.mask_);
    [reflexivity|reflexivity|reflexivity|reflexivity|discriminate
    |vm_compute; split; reflexivity].
Defined.

(** * The claim on the checkpoints of a run *)

Section RunFiles.
Context `{Environment}.

Lemma omap_files_no_marks (evs : list event) :
  Forall (fun ev => mark_of ev = None) evs -> omap saved_file evs = [].
Proof.
  induction 1 as [|ev evs Hev _ IH]; [reflexivity|].
  destruct ev as [l| |]; try discriminate; exact IH.
Qed.

Lemma save_checkpoint_file (epoch : Z) (loss_ : Py.f32) (w : World) (dir : string) :
  checkpoint_dir (self w) = Some dir ->
  exists evs, trace (snd (save_checkpoint epoch (-1) loss_ w)) = trace w ++ evs /\
    omap saved_file evs
    = [(dir +:+ "/bert_epoch" +:+ pretty epoch +:+ "_step-1_"
          +:+ pretty (clock (clock_reads w)) +:+ ".pt", epoch)] /\
    omap mark_of evs = [Saved epoch].
Proof.
  intros Hd. rewrite save_checkpoint_spec, Hd.
  eexists. split; [reflexivity|]. split; reflexivity.
Qed.

(** The files of a run that completes with a directory. *)
Lemma call_loop_files (es : list Z) : forall (w : World) (dir : string),
  checkpoint_dir (self w) = Some dir ->
  fst (call_loop es w) = Ok tt ->
  exists evs, trace (snd (call_loop es w)) = trace w ++ evs /\
    omap saved_file evs = run_files dir (clock_reads w) es /\
    omap mark_of evs = flat_map (fun e => [Trained e; Saved e]) es.
Proof.
  induction es as [|e es IH]; intros w dir Hd Hrun.
  - exists []. rewrite app_nil_r. repeat split.
  - destruct (call_loop_step e es w Hrun) as (x & w2 & Ht & Ec & Ee).
    rewrite Ec in Hrun |- *.
    pose proof (train_marks e (snd (set_current_epoch e w))) as [C (evs1 & Et1 & F1)].
    pose proof (train_outside e (snd (set_current_epoch e w))) as (_ & Oc & _).
    assert (Ed : checkpoint_dir (self (snd (train e (snd (set_current_epoch e w)))))
                 = Some dir).
    { destruct C as (_ & <- & _). exact Hd. }
    change (trace (snd (set_current_epoch e w))) with (trace w) in Et1.
    change (clock_reads (snd (set_current_epoch e w))) with (clock_reads w) in Oc.
    rewrite Ht in Ed, Et1, Oc.
    change (snd (Ok x, w2)) with w2 in Ed, Et1, Oc. clear C.
    destruct (save_checkpoint_self e (-1) x w2) as (Ss & _ & Sc & _).
    rewrite Ed in Sc.
    destruct (save_checkpoint_file e x w2 dir Ed) as (evs3 & Et3 & Ef3 & Em3).
    assert (Ed3 : checkpoint_dir (self (snd (save_checkpoint e (-1) x w2))) = Some dir)
      by (rewrite Ss; exact Ed).
    destruct (IH _ dir Ed3 Hrun) as (evs2 & Et2 & Ef2 & Em2).
    exists ((Print (LBegin e) :: evs1) ++ evs3 ++ evs2).
    split; [rewrite Et2, Et3, Et1, <- !app_assoc; reflexivity|].
    split.
    + rewrite !omap_app, Ef2, Ef3.
      change (omap saved_file (Print (LBegin e) :: evs1)) with (omap saved_file evs1).
      rewrite (omap_files_no_marks _ F1), Sc, Oc.
      replace (clock_reads w + 1)%nat with (S (clock_reads w)) by lia. reflexivity.
    + rewrite (omap_begin e evs1 _ F1), omap_app, Em3, Em2. reflexivity.
Qed.

(** C10: [__call__] saves a checkpoint with step -1 after each epoch.
    Whatever the batches of the epochs are, and whether the call completes
    or raises, every file it writes is named
    [bert_epoch<E>_step-1_<timestamp>.pt] for one of its epochs [E], in the
    configured directory; and a call that completes with a directory has
    written exactly one such file for each epoch of
    [range(current_epoch, epochs)], in this order, each right after the
    training of its epoch. *)
Theorem run_saves_with_step_minus_one (w : World) :
  (exists evs, trace (snd (__call__ w)) = trace w ++ evs /\
     forall path obj, In (TorchSave path obj) evs ->
       exists dir timestamp,
         checkpoint_dir (self w) = Some dir /\
         In (ck_epoch obj) (range (current_epoch (self w)) (epochs (self w))) /\
         path = joinpath dir (checkpoint_name (ck_epoch obj) (-1) timestamp) /\
         path = dir +:+ "/bert_epoch" +:+ pretty (ck_epoch obj) +:+ "_step-1_"
                  +:+ pretty timestamp +:+ ".pt") /\
  (forall dir, checkpoint_dir (self w) = Some dir -> fst (__call__ w) = Ok tt ->
     exists evs, trace (snd (__call__ w)) = trace w ++ evs /\
       omap saved_file evs
       = run_files dir (clock_reads w) (range (current_epoch (self w)) (epochs (self w))) /\
       omap mark_of evs
       = flat_map (fun e => [Trained e; Saved e])
           (range (current_epoch (self w)) (epochs (self w))) /\
       length (omap saved_file evs)
       = Z.to_nat (epochs (self w) - current_epoch (self w))).
Proof.
  split.
  - rewrite call_unfold.
    destruct (call_loop_saves (range (current_epoch (self w)) (epochs (self w))) w)
      as (_ & evs & Et & Fs).
    exists evs. split; [exact Et|]. intros path obj Hin.
    rewrite List.Forall_forall in Fs. specialize (Fs _ Hin). simpl in Fs.
    destruct Fs as (d & ts & Ed & Ein & Ep). exists d, ts.
    split; [assumption|]. split; [assumption|]. split; [assumption|].
    rewrite Ep. reflexivity.
  - intros dir Hd Hrun. rewrite call_unfold in Hrun |- *.
    destruct (call_loop_files _ w dir Hd Hrun) as (evs & Et & Ef & Em).
    exists evs. split; [exact Et|]. split; [exact Ef|]. split; [exact Em|].
    rewrite Ef.
    assert (Hl : forall es r, length (run_files dir r es) = length es).
    { induction es as [|e es IH]; intros r; simpl; [reflexivity|]. rewrite IH. reflexivity. }
    rewrite Hl. apply range_length.
Qed.

End RunFiles.

Lemma run_saves_with_step_minus_one_witness :
  exists evs,
    trace (snd (@__call__ _ Toy.environment (Toy.world 8 2))) = [] ++ evs /\
    omap saved_file evs
    = [("ckpt/bert_epoch0_step-1_1700000000.pt", 0);
       ("ckpt/bert_epoch1_step-1_1700000001.pt", 1)] /\
    omap mark_of evs = [Trained 0; Saved 0; Trained 1; Saved 1].
Proof.
  destruct (@run_saves_with_step_minus_one _ Toy.environment (Toy.world 8 2)) as [_ Hs].
  destruct (Hs "ckpt" eq_refl ltac:(vm_compute; reflexivity)) as (evs & Et & Ef & Em & _).
  exists evs. split; [exact Et|]. split; [|exact Em].
  rewrite Ef. vm_compute. reflexivity.
Defined.

(** * The claims on the accuracies *)

Lemma bsize_clash (a b : nat) : clash a b -> Torch.bsize a b = None.
Proof.
  intros (Hab & Ha & Hb). unfold Torch.bsize.
  destruct (Nat.eqb_spec a b); [contradiction|].
  destruct (Nat.eqb_spec a 1); [contradiction|].
  destruct (Nat.eqb_spec b 1); [contradiction|]. reflexivity.
Qed.

Lemma unmasked_empty (mask : Torch.tensor2 bool) :
  (Torch.rows mask * Torch.cols mask = 0)%nat -> unmasked mask = [].
Proof.
  intros H0. pose proof (unmasked_length_le mask) as Hl. rewrite H0 in Hl.
  destruct (unmasked mask); [reflexivity|simpl in Hl; lia].
Qed.

(** The conversion of a positive int is a finite positive float or, from
    the overflow threshold on, the positive infinity. *)
Lemma binary_normalize_positive (prec emax : Z) (Hprec : 0 < prec) (Hemax : prec < emax)
    (z : Z) : 0 < z ->
  (exists m e, binary_normalize prec emax z 0 false = S754_finite false m e)
  \/ binary_normalize prec emax z 0 false = S754_infinity false.
Proof.
  intros Hz. destruct z as [|p|p]; try lia. simpl binary_normalize.
  rewrite binary_round_spec, scaleN_0, scaleD_0 by assumption.
  pose proof (funit_pos prec emax Hprec Hemax) as Hu.
  pose proof (fomega_pos prec emax Hprec Hemax) as Ho.
  pose proof (emin_nonpos prec emax Hprec Hemax) as Hm.
  assert (HN : 0 <= Zpos p * funit prec emax) by nia.
  destruct (encode_Rnd prec emax Hprec Hemax false _ 1 HN ltac:(lia)) as (Hv & Hn & Hord & Hs).
  assert (Hlow : 2 ^ (- emin prec emax) <= Rnd prec (Zpos p * funit prec emax) 1).
  { apply (Rnd_ge_pow2 prec Hprec); [lia|lia|]. unfold funit. nia. }
  assert (0 < 2 ^ (- emin prec emax)) by (apply Z.pow_pos_nonneg; lia).
  simpl cond_Zopp in Hord.
  destruct (encode_float prec emax false (Rnd prec (Zpos p * funit prec emax) 1))
    as [s|s| |s m e]; simpl in Hord, Hs.
  - lia.
  - subst s. right. reflexivity.
  - destruct Hs.
  - subst s. left. exists m, e. reflexivity.
Qed.

(** Zero divided by a positive count is [0.0], however large the count. *)
Lemma int_truediv_zero_any (n : Z) : 0 < n -> Torch.int_truediv 0 n = S754_zero false.
Proof.
  intros Hn. unfold Torch.int_truediv, Torch.f32_of_int.
  destruct (binary_normalize_positive _ _ prec32_pos prec32_emax32 n Hn) as [(m & e & E)|E];
    rewrite E; reflexivity.
Qed.

(** C2, as amended.  Predictions over no class raise [IndexError];
    predictions, or targets, whose batch size or sequence length cannot be
    broadcast with that of the ignore mask raise [RuntimeError].  For
    predictions of shape [(B, L, V)] with [V >= 1] and targets and an
    ignore mask of shape [(B, L)], [token_accuracy] counts the positions
    that are not ignored and whose top-scoring class is the target, divides
    the count by [B * L] in float32 and rounds to two decimals.  With no
    position ([B * L = 0]) the result is NaN.  With at least one position
    it is [0.0] when everything is ignored, and [1.0] when nothing is
    ignored and the top-scoring class is the target everywhere, the number
    of positions being an int64. *)
Theorem token_accuracy_over_all_positions (result_ : Torch.tensor3 Py.f32)
    (target : Torch.tensor2 Z) (mask : Torch.tensor2 bool) :
  let positions := Z.of_nat (Torch.dim0 result_) * Z.of_nat (Torch.dim1 result_) in
  (Torch.dim2 result_ = 0%nat -> token_accuracy result_ target mask = Raise IndexError) /\
  (Torch.dim2 result_ <> 0%nat ->
   clash (Torch.dim0 result_) (Torch.rows mask)
   \/ clash (Torch.dim1 result_) (Torch.cols mask) ->
   token_accuracy result_ target mask = Raise RuntimeError) /\
  (Torch.dim2 result_ <> 0%nat ->
   Torch.dim0 result_ = Torch.rows mask -> Torch.dim1 result_ = Torch.cols mask ->
   clash (Torch.rows target) (Torch.rows mask)
   \/ clash (Torch.cols target) (Torch.cols mask) ->
   token_accuracy result_ target mask = Raise RuntimeError) /\
  (Torch.dim2 result_ <> 0%nat ->
   Torch.dim0 result_ = Torch.rows mask -> Torch.dim1 result_ = Torch.cols mask ->
   Torch.rows target = Torch.rows mask -> Torch.cols target = Torch.cols mask ->
   token_accuracy result_ target mask =
     Ok (Py.round
           (Py.float_of_f32
              (Torch.int_truediv (matching_tokens result_ target mask) positions)) 2) /\
   (positions = 0 -> token_accuracy result_ target mask = Ok S754_nan) /\
   (0 < positions ->
    (forall i j, (i < Torch.rows mask)%nat -> (j < Torch.cols mask)%nat ->
                 Torch.at2 mask i j = true) ->
    token_accuracy result_ target mask = Ok f64_0) /\
   (0 < positions < 2 ^ 63 ->
    (forall i j, (i < Torch.rows mask)%nat -> (j < Torch.cols mask)%nat ->
                 Torch.at2 mask i j = false) ->
    (forall i j, (i < Torch.rows mask)%nat -> (j < Torch.cols mask)%nat ->
                 Torch.argmax_row (Torch.at3 result_ i j) (Torch.dim2 result_)
                 = Torch.at2 target i j) ->
    token_accuracy result_ target mask = Ok f64_1)).
Proof.
  cbv zeta. split; [|split; [|split]].
  - intros H2. unfold token_accuracy, Torch.argmax_last. rewrite H2. reflexivity.
  - intros H2 Hbad. unfold token_accuracy, Torch.argmax_last.
    destruct (Nat.eqb_spec (Torch.dim2 result_) 0); [contradiction|].
    unfold mbind, result_bind, Torch.masked_select. simpl Torch.rows. simpl Torch.cols.
    destruct Hbad as [Hc|Hc]; rewrite (bsize_clash _ _ Hc); [reflexivity|].
    destruct (Torch.bsize _ _); reflexivity.
  - intros H2 H0 H1 Hbad. unfold token_accuracy, Torch.argmax_last.
    destruct (Nat.eqb_spec (Torch.dim2 result_) 0); [contradiction|].
    unfold mbind, result_bind.
    rewrite masked_select_unmasked by assumption.
    unfold Torch.masked_select. simpl Torch.rows. simpl Torch.cols.
    destruct Hbad as [Hc|Hc]; rewrite (bsize_clash _ _ Hc); [reflexivity|].
    destruct (Torch.bsize _ _); reflexivity.
  - intros H2 H0 H1 Hr Hc.
    pose proof (token_accuracy_formula result_ target mask H0 H1 Hr Hc H2) as Hf.
    split; [exact Hf|]. split; [|split].
    + intros Hz. rewrite Hf, Hz.
      assert (Ec : matching_tokens result_ target mask = 0).
      { unfold matching_tokens. rewrite unmasked_empty; [reflexivity|].
        rewrite <- H0, <- H1. lia. }
      rewrite Ec. reflexivity.
    + intros Hp Hm. rewrite Hf.
      assert (Ec : matching_tokens result_ target mask = 0).
      { unfold matching_tokens. rewrite (unmasked_all_true mask Hm). reflexivity. }
      rewrite Ec, (int_truediv_zero_any _ Hp). vm_compute. reflexivity.
    + intros Hn Hm Heq. rewrite Hf.
      assert (Hn' : 0 < Z.of_nat (Torch.dim0 result_) * Z.of_nat (Torch.dim1 result_)
                    < 2 ^ 127).
      { split; [lia|]. apply Z.lt_trans with (2 ^ 63); [lia|reflexivity]. }
      assert (Ec : matching_tokens result_ target mask
                   = Z.of_nat (Torch.dim0 result_) * Z.of_nat (Torch.dim1 result_)).
      { unfold matching_tokens. rewrite filter_all.
        - rewrite (unmasked_all_false mask Hm), H0, H1. apply Nat2Z.inj_mul.
        - intros p Hq. destruct (unmasked_bounds mask p Hq) as (Hi & Hj & _).
          apply Z.eqb_eq, Heq; assumption. }
      rewrite Ec, (int_truediv_self _ Hn'). vm_compute. reflexivity.
Qed.

Lemma token_accuracy_over_all_positions_witness :
  token_accuracy Toy.token_ Toy.predicted_ Toy.no_mask_ = Ok f64_1 /\
  token_accuracy Toy.token_ Toy.predicted_ Toy.full_mask_ = Ok f64_0 /\
  token_accuracy Toy.empty_token_ Toy.empty_target_ Toy.empty_mask_ = Ok S754_nan /\
  token_accuracy Odd.no_class_token_ Toy.predicted_ Toy.full_mask_ = Raise IndexError /\
  token_accuracy Toy.token_ Odd.short_target_ Toy.full_mask_ = Raise RuntimeError /\
  token_accuracy Odd.long_token_ Toy.predicted_ Toy.full_mask_ = Raise RuntimeError.
Proof.
  split; [|split; [|split; [|split; [|split]]]].
  - destruct (token_accuracy_over_all_positions Toy.token_ Toy.predicted_ Toy.no_mask_)
      as (_ & _ & _ & Hs).
    destruct (Hs ltac:(discriminate) eq_refl eq_refl eq_refl eq_refl)
      as (_ & _ & _ & Hone).
    apply Hone; [split; reflexivity|reflexivity|].
    intros i j Hi Hj. simpl in Hi, Hj.
    destruct i as [|[|i]]; [| |lia];
      (destruct j as [|[|[|j]]]; [| | |lia]; vm_compute; reflexivity).
  - destruct (token_accuracy_over_all_positions Toy.token_ Toy.predicted_ Toy.full_mask_)
      as (_ & _ & _ & Hs).
    destruct (Hs ltac:(discriminate) eq_refl eq_refl eq_refl eq_refl)
      as (_ & _ & Hzero & _).
    apply Hzero; reflexivity.
  - destruct (token_accuracy_over_all_positions Toy.empty_token_ Toy.empty_target_
                Toy.empty_mask_) as (_ & _ & _ & Hs).
    destruct (Hs ltac:(discriminate) eq_refl eq_refl eq_refl eq_refl)
      as (_ & Hnan & _).
    apply Hnan. reflexivity.
  - destruct (token_accuracy_over_all_positions Odd.no_class_token_ Toy.predicted_
                Toy.full_mask_) as (Hi & _).
    apply Hi. reflexivity.
  - destruct (token_accuracy_over_all_positions Toy.token_ Odd.short_target_
                Toy.full_mask_) as (_ & _ & Hr & _).
    apply Hr; [discriminate|reflexivity|reflexivity|].
    right. unfold clash. simpl. repeat split; discriminate.
  - destruct (token_accuracy_over_all_positions Odd.long_token_ Toy.predicted_
                Toy.full_mask_) as (_ & Hr & _).
    apply Hr; [discriminate|].
    right. unfold clash. simpl. repeat split; discriminate.
Defined.

(** C2, as stated, fails.  On a batch of no example every position (there
    is none) is ignored, and also none is ignored and the predictions are
    the targets everywhere, yet the result is NaN, neither [0.0] nor [1.0].
    With everything ignored, predictions over no class raise [IndexError],
    and targets, or predictions, of another sequence length than the mask
    raise [RuntimeError]: the result is not [0.0] for every predictions and
    targets. *)
Lemma token_accuracy_empty_batch :
  (token_accuracy Toy.empty_token_ Toy.empty_target_ Toy.empty_mask_ = Ok S754_nan /\
   (forall i j, (i < Torch.rows Toy.empty_mask_)%nat ->
                (j < Torch.cols Toy.empty_mask_)%nat ->
                Torch.at2 Toy.empty_mask_ i j = true) /\
   Ok S754_nan <> Ok f64_0 /\ Ok S754_nan <> Ok f64_1) /\
  (token_accuracy Odd.no_class_token_ Toy.predicted_ Toy.full_mask_ = Raise IndexError /\
   token_accuracy Toy.token_ Odd.short_target_ Toy.full_mask_ = Raise RuntimeError /\
   token_accuracy Odd.long_token_ Toy.predicted_ Toy.full_mask_ = Raise RuntimeError /\
   forall i j, Torch.at2 Toy.full_mask_ i j = true).
Proof.
  split.
  - split; [vm_compute; reflexivity|]. split; [reflexivity|]. split; discriminate.
  - split; [vm_compute; reflexivity|]. split; [vm_compute; reflexivity|].
    split; [vm_compute; reflexivity|reflexivity].
Qed.

(** C5, as amended.  Predictions or targets over no class raise
    [IndexError]; numbers of rows that cannot be broadcast together raise
    [RuntimeError].  For predictions and targets of one common number of
    rows [B], each with at least one class, [nsp_accuracy] divides the
    number of rows whose top-scoring class is the same in both by [B] in
    float32 and rounds to two decimals.  With no row ([B = 0]) the result
    is NaN.  With at least one row it is [0.0] when the top-scoring classes
    agree on no row, and [1.0] when they agree on every row, [B] being an
    int64. *)
Theorem nsp_accuracy_fraction (result_ target : Torch.tensor2 Py.f32) :
  (Torch.cols result_ = 0%nat \/ Torch.cols target = 0%nat ->
   nsp_accuracy result_ target = Raise IndexError) /\
  (Torch.cols result_ <> 0%nat -> Torch.cols target <> 0%nat ->
   clash (Torch.rows result_) (Torch.rows target) ->
   nsp_accuracy result_ target = Raise RuntimeError) /\
  (Torch.cols result_ <> 0%nat -> Torch.cols target <> 0%nat ->
   Torch.rows result_ = Torch.rows target ->
   nsp_accuracy result_ target =
     Ok (Py.round
           (Py.float_of_f32
              (Torch.int_truediv (matching_rows result_ target)
                 (Z.of_nat (Torch.rows result_)))) 2) /\
   (Torch.rows result_ = 0%nat -> nsp_accuracy result_ target = Ok S754_nan) /\
   (Torch.rows result_ <> 0%nat ->
    (forall i, (i < Torch.rows result_)%nat ->
               Torch.argmax_row (Torch.at2 result_ i) (Torch.cols result_)
               <> Torch.argmax_row (Torch.at2 target i) (Torch.cols target)) ->
    nsp_accuracy result_ target = Ok f64_0) /\
   (0 < Z.of_nat (Torch.rows result_) < 2 ^ 63 ->
    (forall i, (i < Torch.rows result_)%nat ->
               Torch.argmax_row (Torch.at2 result_ i) (Torch.cols result_)
               = Torch.argmax_row (Torch.at2 target i) (Torch.cols target)) ->
    nsp_accuracy result_ target = Ok f64_1)).
Proof.
  split; [|split].
  - unfold nsp_accuracy, Torch.argmax1, mbind, result_bind. intros [Hc|Hc].
    + rewrite Hc. reflexivity.
    + destruct (Torch.cols result_ =? 0)%nat; [reflexivity|]. rewrite Hc. reflexivity.
  - intros Hc1 Hc2 Hr.
    unfold nsp_accuracy, Torch.argmax1, mbind, result_bind.
    destruct (Nat.eqb_spec (Torch.cols result_) 0); [contradiction|].
    destruct (Nat.eqb_spec (Torch.cols target) 0); [contradiction|].
    unfold Torch.eq1. rewrite !length_map, !length_seq.
    rewrite (bsize_clash _ _ Hr). reflexivity.
  - intros Hc1 Hc2 Hr.
    pose proof (nsp_accuracy_formula result_ target Hr Hc1 Hc2) as Hf.
    split; [exact Hf|]. split; [|split].
    + intros Hz. rewrite Hf. unfold matching_rows. rewrite Hz. reflexivity.
    + intros Hp Hne. rewrite Hf.
      assert (Ec : matching_rows result_ target = 0).
      { unfold matching_rows. rewrite filter_none; [reflexivity|].
        intros i Hi. apply in_seq in Hi. apply Z.eqb_neq, Hne. lia. }
      rewrite Ec, int_truediv_zero_any by lia. vm_compute. reflexivity.
    + intros Hn Heq. rewrite Hf.
      assert (Hn' : 0 < Z.of_nat (Torch.rows result_) < 2 ^ 127).
      { split; [lia|]. apply Z.lt_trans with (2 ^ 63); [lia|reflexivity]. }
      assert (Ec : matching_rows result_ target = Z.of_nat (Torch.rows result_)).
      { unfold matching_rows. rewrite filter_all.
        - rewrite length_seq. reflexivity.
        - intros i Hi. apply in_seq in Hi. apply Z.eqb_eq, Heq. lia. }
      rewrite Ec, (int_truediv_self _ Hn'). vm_compute. reflexivity.
Qed.

Lemma nsp_accuracy_fraction_witness :
  nsp_accuracy Toy.nsp_ Toy.nsp_ = Ok f64_1 /\
  nsp_accuracy Toy.nsp_ Toy.nsp_swapped_ = Ok f64_0 /\
  nsp_accuracy Toy.empty_nsp_ Toy.empty_nsp_ = Ok S754_nan /\
  nsp_accuracy Odd.no_class_nsp_ Toy.nsp_ = Raise IndexError /\
  nsp_accuracy Toy.nsp_ Odd.three_rows_nsp_ = Raise RuntimeError.
Proof.
  split; [|split; [|split; [|split]]].
  - destruct (nsp_accuracy_fraction Toy.nsp_ Toy.nsp_) as (_ & _ & Hs).
    destruct (Hs ltac:(discriminate) ltac:(discriminate) eq_refl) as (_ & _ & _ & Hone).
    apply Hone; [split; reflexivity|reflexivity].
  - destruct (nsp_accuracy_fraction Toy.nsp_ Toy.nsp_swapped_) as (_ & _ & Hs).
    destruct (Hs ltac:(discriminate) ltac:(discriminate) eq_refl) as (_ & _ & Hzero & _).
    apply Hzero; [discriminate|]. intros i Hi. simpl in Hi.
    destruct i as [|[|i]]; [| |lia]; vm_compute; discriminate.
  - destruct (nsp_accuracy_fraction Toy.empty_nsp_ Toy.empty_nsp_) as (_ & _ & Hs).
    destruct (Hs ltac:(discriminate) ltac:(discriminate) eq_refl) as (_ & Hnan & _).
    apply Hnan. reflexivity.
  - destruct (nsp_accuracy_fraction Odd.no_class_nsp_ Toy.nsp_) as (Hi & _).
    apply Hi. left. reflexivity.
  - destruct (nsp_accuracy_fraction Toy.nsp_ Odd.three_rows_nsp_) as (_ & Hr & _).
    apply Hr; [discriminate|discriminate|].
    unfold clash. simpl. repeat split; discriminate.
Defined.

(** C5, as stated, fails.  On a batch of no example the top-scoring classes
    agree on every row and on no row, yet the result is NaN, neither [1.0]
    nor [0.0].  Predictions over no class raise [IndexError], and two rows
    of predictions against three of targets raise [RuntimeError].  One row
    of predictions compared, by broadcasting, with three rows of targets of
    the same top-scoring class gives [3.0], which is no fraction of the
    rows. *)
Lemma nsp_accuracy_empty_batch :
  (nsp_accuracy Toy.empty_nsp_ Toy.empty_nsp_ = Ok S754_nan /\
   (forall i, (i < Torch.rows Toy.empty_nsp_)%nat ->
              Torch.argmax_row (Torch.at2 Toy.empty_nsp_ i) (Torch.cols Toy.empty_nsp_)
              <> Torch.argmax_row (Torch.at2 Toy.empty_nsp_ i)
                   (Torch.cols Toy.empty_nsp_)) /\
   Ok S754_nan <> Ok f64_1 /\ Ok S754_nan <> Ok f64_0) /\
  nsp_accuracy Odd.no_class_nsp_ Odd.no_class_nsp_ = Raise IndexError /\
  nsp_accuracy Toy.nsp_ Odd.three_rows_nsp_ = Raise RuntimeError /\
  (nsp_accuracy Odd.one_row_nsp_ Odd.three_rows_nsp_ = Ok f64_3 /\
   forall i, (i < 3)%nat ->
     Torch.argmax_row (Torch.at2 Odd.one_row_nsp_ 0) 2
     = Torch.argmax_row (Torch.at2 Odd.three_rows_nsp_ i) 2).
Proof.
  split; [|split; [|split]].
  - split; [vm_compute; reflexivity|]. split.
    + intros i Hi. simpl in Hi. lia.
    + split; discriminate.
  - vm_compute. reflexivity.
  - vm_compute. reflexivity.
  - split; [vm_compute; reflexivity|].
    intros i Hi. destruct i as [|[|[|i]]]; [| | |lia]; vm_compute; reflexivity.
Qed.
